(** * Nuclide debugger translator: transport and session translator

    A shallow embedding of two source files of the Nuclide debugger bridge:

    - [V8Protocol] (the framed JSON transport to the debug adapter):
      the frame decoder [_handleData], the message dispatcher [_dispatch]
      and the sender [_sendMessage] with its sequence counter;
    - [VsDebugSessionTranslator] (the bridge between the Chrome-style client
      protocol and the adapter protocol): the breakpoint ledger, the thread
      registry, the command handlers and the adapter event handlers.

    JavaScript numbers that hold counters, identifiers, lines and columns
    are embedded as [Z]; these stay far below 2^53, where JavaScript
    arithmetic on integers is exact. *)

From Stdlib Require Import ZArith List String Ascii Bool Lia.
From Stdlib Require Import Strings.Byte.
From Stdlib Require Import DecimalString.
Import ListNotations.

Local Open Scope Z_scope.

Set Implicit Arguments.

(* ================================================================== *)
(** * Part I: the framed transport (V8Protocol)                        *)
(* ================================================================== *)

Module V8Protocol.

(** A JavaScript string is a sequence of UTF-16 code units; a [Buffer] is a
    sequence of bytes. *)
Definition jsstring := list N.
Definition Buffer := list byte.

Definition lit (s : string) : jsstring :=
  List.map N_of_ascii (list_ascii_of_string s).

Definition CR : N := 13%N.
Definition LF : N := 10%N.

(** [const TWO_CRLF = '\r\n\r\n';] *)
Definition TWO_CRLF : jsstring := [CR; LF; CR; LF].

Definition js_length (s : jsstring) : Z := Z.of_nat (List.length s).
Definition buf_length (b : Buffer) : Z := Z.of_nat (List.length b).

(** [buffer.slice(start)] for [start >= 0]. *)
Definition buf_slice (b : Buffer) (start : Z) : Buffer :=
  skipn (Z.to_nat start) b.

(** ** String primitives used by the decoder *)

Fixpoint startsWith (s prefix : jsstring) : bool :=
  match prefix, s with
  | [], _ => true
  | _ :: _, [] => false
  | p :: prefix', c :: s' => N.eqb p c && startsWith s' prefix'
  end.

(** [s.indexOf(needle)], scanning from offset [i]; [-1] when absent. *)
Fixpoint indexOf_from (s needle : jsstring) (i : Z) : Z :=
  if startsWith s needle then i
  else match s with
       | [] => -1
       | _ :: s' => indexOf_from s' needle (i + 1)
       end.

Definition indexOf (s needle : jsstring) : Z := indexOf_from s needle 0.

(** The class [\d]. *)
Definition isDigit (c : N) : bool := (48 <=? c)%N && (c <=? 57)%N.

(** The greedy [\d+] of the header pattern, without the check that it is
    not empty. *)
Fixpoint takeDigits (s : jsstring) : jsstring :=
  match s with
  | c :: s' => if isDigit c then c :: takeDigits s' else []
  | [] => []
  end.

Definition ContentLength_prefix : jsstring := lit "Content-Length: ".

(** [/Content-Length: (\d+)/.exec(s)]: the leftmost position where the
    literal is followed by at least one digit; the result is the capture
    group [match[1]] ([None] is JavaScript's [null]). *)
Fixpoint ContentLength_exec (s : jsstring) : option jsstring :=
  let here :=
    if startsWith s ContentLength_prefix
    then match takeDigits (skipn (List.length ContentLength_prefix) s) with
         | [] => None
         | ds => Some ds
         end
    else None in
  match here with
  | Some ds => Some ds
  | None => match s with
            | [] => None
            | _ :: s' => ContentLength_exec s'
            end
  end.

(** [Number(digits)] on a string of decimal digits. *)
Definition Number_of_digits (ds : jsstring) : Z :=
  fold_left (fun acc c => acc * 10 + (Z.of_N c - 48)) ds 0.

(** ** Messages *)

(** What [_dispatch] looks at in a parsed message: [JSON.parse(body)]
    followed by the read of [rawData.type]. *)
Inductive RawData :=
| raw_event (text : jsstring)
| raw_response (request_seq : Z) (text : jsstring)
| raw_request (seq : Z) (command : jsstring) (text : jsstring)
| raw_other (text : jsstring).

(** The response object that [_dispatch] prepares for an adapter request. *)
Record Response := {
  resp_seq : Z;
  resp_command : jsstring;
  resp_request_seq : Z;
  resp_success : bool
}.

(** The calls that leave the transport towards its owner.  [onEvent],
    [onServerError] and [dispatchRequest] are the methods that the owner
    overrides; [callback] is the pending-request callback [clb].  They are
    recorded in the order of the calls and are taken not to throw. *)
Inductive Upcall :=
| onEvent (event : jsstring)
| onServerError (message : string)
| callback (request_seq : Z) (response : jsstring)
| dispatchRequest (seq : Z) (command : jsstring) (resp : Response).

(** An outgoing message: [typ] is set by [_sendMessage], [seq] too. *)
Inductive MessageType := request | response | event.

Record OutMessage := {
  out_type : MessageType;
  out_seq : Z;
  out_command : jsstring;
  out_has_arguments : bool;
  out_request_seq : Z
}.

(** One [this._outputStream.write] call. *)
Inductive Chunk :=
| header_chunk (length : Z)          (* 'Content-Length: ' + length + TWO_CRLF *)
| json_chunk (message : OutMessage). (* JSON.stringify(message) *)

Record Protocol := {
  _sequence : Z;
  _contentLength : Z;
  _pendingRequests : list Z;         (* keys of the callback map *)
  _rawData : Buffer;
  _outputStream : list Chunk         (* everything written so far *)
}.

(** [constructor(id, logger)] *)
Definition constructor : Protocol :=
  {| _sequence := 1;
     _contentLength := -1;
     _pendingRequests := [];
     _rawData := [];
     _outputStream := [] |}.

Section Transport.

(** Runtime primitives of the platform, taken as parameters. *)

(** [buffer.toString('utf8', 0, end)] is [utf8 (firstn end buffer)]. *)
Variable utf8 : Buffer -> jsstring.

(** [JSON.parse(body)] and the read of [.type]; [inr] is the message of
    the exception thrown. *)
Variable JSON_parse : jsstring -> RawData + string.

(** [Buffer.byteLength(JSON.stringify(message), 'utf8')] *)
Variable JSON_byteLength : OutMessage -> Z.

(** *** Sending *)

(** [_sendMessage(typ, message)] *)
Definition _sendMessage (typ : MessageType) (message : OutMessage)
           (p : Protocol) : OutMessage * Protocol :=
  let message := {| out_type := typ;
                    out_seq := _sequence p;
                    out_command := out_command message;
                    out_has_arguments := out_has_arguments message;
                    out_request_seq := out_request_seq message |} in
  let length := JSON_byteLength message in
  (message,
   {| _sequence := _sequence p + 1;
      _contentLength := _contentLength p;
      _pendingRequests := _pendingRequests p;
      _rawData := _rawData p;
      _outputStream :=
        _outputStream p ++ [header_chunk length; json_chunk message] |}).

Definition blank_request (command : jsstring) (has_args : bool) : OutMessage :=
  {| out_type := request; out_seq := 0; out_command := command;
     out_has_arguments := has_args; out_request_seq := 0 |}.

(** [_doSend(command, args, clb)]; [has_args] is
    [args && Object.keys(args).length > 0], [clb] tells whether a callback
    was given. *)
Definition _doSend (command : jsstring) (has_args clb : bool)
           (p : Protocol) : Protocol :=
  let '(req, p) := _sendMessage request (blank_request command has_args) p in
  if clb
  then {| _sequence := _sequence p;
          _contentLength := _contentLength p;
          _pendingRequests :=
            if existsb (Z.eqb (out_seq req)) (_pendingRequests p)
            then _pendingRequests p
            else _pendingRequests p ++ [out_seq req];
          _rawData := _rawData p;
          _outputStream := _outputStream p |}
  else p.

(** [send(command, args)] always passes a callback. *)
Definition send (command : jsstring) (has_args : bool) (p : Protocol) : Protocol :=
  _doSend command has_args true p.

Definition message_of_response (r : Response) : OutMessage :=
  {| out_type := response; out_seq := resp_seq r;
     out_command := resp_command r; out_has_arguments := false;
     out_request_seq := resp_request_seq r |}.

(** [sendResponse(response)]: a response whose [seq] is already positive
    was sent before and is only logged.  The source stamps [seq] on the
    response object itself; here every [r] stands for an object of its
    own. *)
Definition sendResponse (r : Response) (p : Protocol) : Protocol :=
  if 0 <? resp_seq r then p
  else snd (_sendMessage response (message_of_response r) p).

(** *** Receiving *)

Definition delete_pending (k : Z) (l : list Z) : list Z :=
  filter (fun k' => negb (Z.eqb k k')) l.

(** [_dispatch(body)] *)
Definition _dispatch (body : jsstring) (p : Protocol) : Protocol * list Upcall :=
  match JSON_parse body with
  | inl (raw_event text) => (p, [onEvent text])
  | inl (raw_response request_seq text) =>
      if existsb (Z.eqb request_seq) (_pendingRequests p)
      then ({| _sequence := _sequence p;
               _contentLength := _contentLength p;
               _pendingRequests := delete_pending request_seq (_pendingRequests p);
               _rawData := _rawData p;
               _outputStream := _outputStream p |},
            [callback request_seq text])
      else (p, [])
  | inl (raw_request seq command text) =>
      (p, [dispatchRequest seq command
             {| resp_seq := 0; resp_command := command;
                resp_request_seq := seq; resp_success := true |}])
  | inl (raw_other _) => (p, [])
  | inr message => (p, [onServerError message])
  end.

Definition set_decoder (contentLength : Z) (rawData : Buffer) (p : Protocol) : Protocol :=
  {| _sequence := _sequence p;
     _contentLength := contentLength;
     _pendingRequests := _pendingRequests p;
     _rawData := rawData;
     _outputStream := _outputStream p |}.

(** [_handleData()].  The [while (true)] loop is unrolled [fuel] times; the
    second component of the result tells whether the loop left through
    [break] within that many iterations. *)
Fixpoint _handleData (fuel : nat) (p : Protocol) : Protocol * bool * list Upcall :=
  match fuel with
  | O => (p, false, [])
  | S fuel' =>
      if 0 <=? _contentLength p then
        if _contentLength p <=? buf_length (_rawData p) then
          let message := utf8 (firstn (Z.to_nat (_contentLength p)) (_rawData p)) in
          let p1 := set_decoder (-1) (buf_slice (_rawData p) (_contentLength p)) p in
          let '(p2, ups) :=
            if 0 <? js_length message then _dispatch message p1 else (p1, []) in
          let '(p3, done, ups') := _handleData fuel' p2 in
          (p3, done, ups ++ ups')
        else (p, true, [])
      else
        let s := utf8 (_rawData p) in
        let idx := indexOf s TWO_CRLF in
        if negb (idx =? -1) then
          match ContentLength_exec s with
          | Some digits =>
              let p1 := set_decoder (Number_of_digits digits)
                          (buf_slice (_rawData p) (idx + js_length TWO_CRLF)) p in
              _handleData fuel' p1
          | None => (p, true, [])
          end
        else (p, true, [])
  end.

(** The ['data'] listener installed by [connect]. *)
Definition onData (fuel : nat) (data : Buffer) (p : Protocol)
  : Protocol * bool * list Upcall :=
  _handleData fuel (set_decoder (_contentLength p) (_rawData p ++ data) p).

(** *** Sessions of the transport *)

(** What the owner and the adapter do with the transport, in order. *)
Inductive Operation :=
| do_send (command : jsstring) (has_args : bool)
| do_sendResponse (r : Response)
| do_sendMessage (typ : MessageType) (message : OutMessage)
| do_data (fuel : nat) (data : Buffer).

Definition perform (p : Protocol) (o : Operation) : Protocol :=
  match o with
  | do_send command has_args => send command has_args p
  | do_sendResponse r => sendResponse r p
  | do_sendMessage typ message => snd (_sendMessage typ message p)
  | do_data fuel data => fst (fst (onData fuel data p))
  end.

Definition session (operations : list Operation) : Protocol :=
  fold_left perform operations constructor.

End Transport.

(** The [seq] values written to the adapter, in the order of writing. *)
Fixpoint written_seqs (chunks : list Chunk) : list Z :=
  match chunks with
  | [] => []
  | header_chunk _ :: chunks' => written_seqs chunks'
  | json_chunk message :: chunks' => out_seq message :: written_seqs chunks'
  end.

(** The header region of a buffered text: what precedes the first
    [TWO_CRLF]. *)
Definition header_region (s : jsstring) : jsstring :=
  firstn (Z.to_nat (indexOf s TWO_CRLF)) s.

(** The state of the sender: the counter is one more than the number of
    messages written, and these carry 1, 2, 3, ... *)
Definition numbered (p : Protocol) : Prop :=
  _sequence p = Z.of_nat (List.length (written_seqs (_outputStream p))) + 1
  /\ written_seqs (_outputStream p)
     = List.map Z.of_nat (seq 1 (List.length (written_seqs (_outputStream p)))).

(** ** Sample inputs *)

(** UTF-8 decoding of 7-bit text: every byte is one code unit. *)
Definition utf8_7bit (b : Buffer) : jsstring := List.map Byte.to_N b.

Definition bytes (s : string) : Buffer := list_byte_of_string s.

Definition CRLF_CRLF : Buffer := [x0d; x0a; x0d; x0a].

(** A parser that rejects every body. *)
Definition reject_all (body : jsstring) : RawData + string :=
  inr "SyntaxError"%string.

(** A frame whose header has no [Content-Length] field. *)
Definition frame_without_length : Buffer :=
  bytes "Content-Type: json" ++ CRLF_CRLF ++ bytes "{}".

End V8Protocol.

(* ================================================================== *)
(** * Part II: the session translator (VsDebugSessionTranslator)       *)
(* ================================================================== *)

Module Translator.

Local Open Scope string_scope.
Local Open Scope list_scope.
Local Open Scope Z_scope.

(** ** JavaScript values *)

(** The result of a call that may throw (or of a promise that may reject);
    an error is represented by its [message]. *)
Inductive Outcome (A : Type) : Type :=
| Ok (a : A)
| Throw (message : string).
Arguments Ok {A} a.
Arguments Throw {A} message.

(** A number that may be [NaN], as produced by [Number(string)]. *)
Inductive JSNumber := NaN | num (z : Z).

(** [String(n)] on an integer. *)
Definition String_of_number (n : Z) : string :=
  NilZero.string_of_int (Z.to_int n).

(** [a === b] between the translator's [?number] ([None] is [null]) and a
    number that may be missing from an adapter message ([None] is
    [undefined]): equal only when both are the same number. *)
Definition strict_eq (a b : option Z) : bool :=
  match a, b with
  | Some x, Some y => x =? y
  | _, _ => false
  end.

(** [x || d] on a number that may be missing. *)
Definition or_default (x : option Z) (d : Z) : Z :=
  match x with
  | Some v => if v =? 0 then d else v
  | None => d
  end.

(** A JavaScript [Map] with number keys: entries in insertion order. *)
Section JSMap.
Variable V : Type.

Definition JSMap := list (Z * V).

Fixpoint map_get (k : Z) (m : JSMap) : option V :=
  match m with
  | [] => None
  | (k', v) :: m' => if k =? k' then Some v else map_get k m'
  end.

(** [set] keeps the position of a key that is already present. *)
Fixpoint map_set (k : Z) (v : V) (m : JSMap) : JSMap :=
  match m with
  | [] => [(k, v)]
  | (k', v') :: m' =>
      if k =? k' then (k, v) :: m' else (k', v') :: map_set k v m'
  end.

Definition map_delete (k : Z) (m : JSMap) : JSMap :=
  filter (fun e => negb (k =? fst e)) m.

Definition map_keys (m : JSMap) : list Z := List.map fst m.

End JSMap.

(** ** Client protocol data *)

Record Location := {
  scriptId : string;
  loc_lineNumber : Z;
  columnNumber : option Z;
  loc_threadId : option Z
}.

Definition nuclideDebuggerLocation (scriptId : string)
           (lineNumber columnNumber : Z) : Location :=
  {| scriptId := scriptId;
     loc_lineNumber := lineNumber;
     columnNumber := Some columnNumber;
     loc_threadId := None |}.

Record Scope := {
  scope_type : string;
  scope_name : string;
  scope_object_description : string;   (* object.type is the constant 'object' *)
  scope_object_objectId : string
}.

Record CallFrame := {
  callFrameId : string;
  functionName : string;
  location : Location;
  hasSource : bool;
  scopeChain : list Scope
}.

Record PausedEvent := {
  pe_callFrames : list CallFrame;
  pe_reason : string;
  stopThreadId : option Z;
  threadSwitchMessage : option string
}.

Record ThreadDescription := {
  td_id : Z;
  td_name : string;
  td_description : string;
  td_address : string;
  td_location : Location;
  td_stopReason : string;
  td_hasSource : bool
}.

Record ThreadsUpdatedEvent := {
  owningProcessId : Z;
  threads : list ThreadDescription;
  tu_stopThreadId : option Z
}.

Record RemoteObject := {
  ro_type : string;
  ro_value : option string;
  ro_description : option string;
  ro_objectId : option string
}.

Record EvaluateResponse := {
  er_result : RemoteObject;
  exceptionDetails : option string;
  wasThrown : bool
}.

Record SetBreakpointByUrlResponse := {
  sb_breakpointId : string;
  sb_locations : list Location;
  sb_resolved : bool
}.

Inductive ResponseResult :=
| empty_result                                        (* {} *)
| setBreakpointByUrl_result (r : SetBreakpointByUrlResponse)
| evaluate_result (r : EvaluateResponse)
| getThreadStack_result (callFrames : list CallFrame).

Inductive DebuggerEvent :=
| Debugger_paused (params : PausedEvent)
| Debugger_paused_initial_break   (* getFakeLoaderPauseEvent() *)
| Debugger_resumed
| Debugger_threadsUpdated (params : ThreadsUpdatedEvent).

(** What [_sendMessageToClient] sends: a response, an error response or an
    event. *)
Inductive ClientMessage :=
| response (id : Z) (result : ResponseResult)        (* {id, result} *)
| error_response (id : Z) (message : string)         (* {id, error: {message}} *)
| event (e : DebuggerEvent).                         (* {method, params} *)

Definition getFakeLoaderPauseEvent : ClientMessage :=
  event Debugger_paused_initial_break.

Definition getEmptyResponse (id : Z) : ClientMessage := response id empty_result.

Definition getErrorResponse (id : Z) (message : string) : ClientMessage :=
  error_response id message.

(** [const VSP_PROCESS_ID = -1;] *)
Definition VSP_PROCESS_ID : Z := -1.

(** ** Client commands *)

Record SetBreakpointByUrlRequest := {
  url : string;
  req_lineNumber : Z;
  req_columnNumber : option Z;          (* never read by the translator *)
  req_condition : option string
}.

(** The methods whose handlers are embedded; [unknown_method] stands for a
    method that no handler has registered. *)
Inductive Method :=
| Debugger_enable
| Debugger_pause
| Debugger_resume                       (* after the first one *)
| Debugger_selectThread (threadId : Z)
| Debugger_stepOver
| Debugger_stepInto
| Debugger_stepOut
| Debugger_continueToLocation (location : Location)
| Debugger_setDebuggerSettings
| Runtime_enable
| Debugger_setBreakpointByUrl (params : SetBreakpointByUrlRequest)
| Debugger_removeBreakpoint (breakpointId : string)
| Debugger_getThreadStack (threadId : Z)
| Debugger_evaluateOnCallFrame (callFrameId expression : string)
| Runtime_evaluate (expression : string)
| unknown_method (name : string).

Record DebuggerCommand := {
  id : Z;
  method : Method
}.

(** ** Translator state *)

Record TranslatorBreakpoint := {
  breakpointId : option string;
  path : string;
  lineNumber : Z;
  condition : string;
  hitCount : Z;
  resolved : bool
}.

Inductive ThreadState := running | paused.

Definition ThreadState_eqb (a b : ThreadState) : bool :=
  match a, b with
  | running, running | paused, paused => true
  | _, _ => false
  end.

Record ThreadInfo := {
  state : ThreadState;
  callFrames : option (list CallFrame);
  callStackLoaded : bool;
  stopReason : option string
}.

Inductive VsAdapterType := PYTHON | other_adapter (name : string).

Record VsDebugSessionTranslator := {
  _adapterType : VsAdapterType;
  _breakpoints : list TranslatorBreakpoint;
  _configDoneSent : bool;
  _lastBreakpointId : Z;
  _threadsById : JSMap ThreadInfo;
  _exceptionFilters : list string;
  _pausedThreadId : option Z;
  _pausedThreadIdPrevious : option Z
}.

(** The state set up by [constructor]; [_pausedThreadIdPrevious] is not
    assigned there and starts [undefined]. *)
Definition constructor (adapterType : VsAdapterType) : VsDebugSessionTranslator :=
  {| _adapterType := adapterType;
     _breakpoints := [];
     _configDoneSent := false;
     _lastBreakpointId := 0;
     _threadsById := [];
     _exceptionFilters := [];
     _pausedThreadId := None;
     _pausedThreadIdPrevious := None |}.

Definition with_breakpoints (l : list TranslatorBreakpoint)
           (t : VsDebugSessionTranslator) : VsDebugSessionTranslator :=
  {| _adapterType := _adapterType t;
     _breakpoints := l;
     _configDoneSent := _configDoneSent t;
     _lastBreakpointId := _lastBreakpointId t;
     _threadsById := _threadsById t;
     _exceptionFilters := _exceptionFilters t;
     _pausedThreadId := _pausedThreadId t;
     _pausedThreadIdPrevious := _pausedThreadIdPrevious t |}.

Definition with_lastBreakpointId (n : Z)
           (t : VsDebugSessionTranslator) : VsDebugSessionTranslator :=
  {| _adapterType := _adapterType t;
     _breakpoints := _breakpoints t;
     _configDoneSent := _configDoneSent t;
     _lastBreakpointId := n;
     _threadsById := _threadsById t;
     _exceptionFilters := _exceptionFilters t;
     _pausedThreadId := _pausedThreadId t;
     _pausedThreadIdPrevious := _pausedThreadIdPrevious t |}.

Definition with_threadsById (m : JSMap ThreadInfo)
           (t : VsDebugSessionTranslator) : VsDebugSessionTranslator :=
  {| _adapterType := _adapterType t;
     _breakpoints := _breakpoints t;
     _configDoneSent := _configDoneSent t;
     _lastBreakpointId := _lastBreakpointId t;
     _threadsById := m;
     _exceptionFilters := _exceptionFilters t;
     _pausedThreadId := _pausedThreadId t;
     _pausedThreadIdPrevious := _pausedThreadIdPrevious t |}.

(** [_updatePausedThreadId(newPausedThreadId)] *)
Definition _updatePausedThreadId (newPausedThreadId : option Z)
           (t : VsDebugSessionTranslator) : VsDebugSessionTranslator :=
  {| _adapterType := _adapterType t;
     _breakpoints := _breakpoints t;
     _configDoneSent := _configDoneSent t;
     _lastBreakpointId := _lastBreakpointId t;
     _threadsById := _threadsById t;
     _exceptionFilters := _exceptionFilters t;
     _pausedThreadId := newPausedThreadId;
     _pausedThreadIdPrevious :=
       match _pausedThreadId t with
       | Some old => Some old
       | None => _pausedThreadIdPrevious t
       end |}.

(** ** Adapter protocol data *)

Record VsBreakpoint := {
  vs_id : option Z;
  verified : bool;
  vs_line : option Z
}.

Record Source := { source_path : option string }.

Record StackFrame := {
  frame_id : Z;
  frame_name : string;
  frame_source : option Source;
  frame_line : Z;
  frame_column : Z
}.

Record VsScope := {
  vs_scope_name : string;
  variablesReference : Z
}.

Record EvaluateBody := {
  body_type : string;
  body_result : string;
  body_variablesReference : Z
}.

(** The requests the translator sends through [this._session]. *)
Inductive AdapterRequest :=
| pause (threadId : Z)
| continue (threadId : Z)
| next (threadId : Z)
| stepIn (threadId : Z)
| stepOut (threadId : Z)
| setBreakpoints (source_path source_name : string) (lines : list Z)
                 (breakpoints : list (Z * string))
| stackTrace (threadId : Z) (levels startFrame : option Z)
| scopes (frameId : Z)
| evaluate (expression : string) (frameId : option JSNumber)
| nuclide_continueToLocation (source_path source_name : string)
                             (line column : Z) (threadId : option Z).

(** The adapter session is a collaborator of the translator: its answers
    are a parameter.  Each answer may depend on the requests sent before
    ([history]) and may be a rejection. *)
Record VsDebugSession := {
  isReadyForBreakpoints : bool;
  supportsDelayedStackTraceLoading : bool;    (* getCapabilities() *)
  acknowledge : list AdapterRequest -> AdapterRequest -> Outcome unit;
  setBreakpoints_body : list AdapterRequest -> AdapterRequest -> Outcome (list VsBreakpoint);
  stackTrace_body : list AdapterRequest -> AdapterRequest -> Outcome (list StackFrame);
  scopes_body : list AdapterRequest -> AdapterRequest -> Outcome (list VsScope);
  evaluate_body : list AdapterRequest -> AdapterRequest -> Outcome EvaluateBody
}.

(** ** The world of a handler: translator state and the two outgoing
    channels *)

Record World := {
  this : VsDebugSessionTranslator;
  requests : list AdapterRequest;      (* sent to the adapter, oldest first *)
  sent : list ClientMessage            (* sent to the client, oldest first *)
}.

Definition M (A : Type) : Type := World -> Outcome A * World.

Definition ret {A} (a : A) : M A := fun w => (Ok a, w).

Definition bind {A B} (m : M A) (k : A -> M B) : M B :=
  fun w => match m w with
           | (Ok a, w') => k a w'
           | (Throw e, w') => (Throw e, w')
           end.

Definition throw {A} (message : string) : M A := fun w => (Throw message, w).

(** [try { m } catch (error) { handler(error.message) }] *)
Definition try_catch {A} (m : M A) (handler : string -> M A) : M A :=
  fun w => match m w with
           | (Ok a, w') => (Ok a, w')
           | (Throw e, w') => handler e w'
           end.

Definition get_this : M VsDebugSessionTranslator := fun w => (Ok (this w), w).

Definition modify_this (f : VsDebugSessionTranslator -> VsDebugSessionTranslator)
  : M unit :=
  fun w => (Ok tt, {| this := f (this w); requests := requests w; sent := sent w |}).

(** Sends [r] to the adapter and awaits the answer [answer history r]. *)
Definition request {A} (answer : list AdapterRequest -> AdapterRequest -> Outcome A)
           (r : AdapterRequest) : M A :=
  fun w => (answer (requests w) r,
            {| this := this w; requests := requests w ++ [r]; sent := sent w |}).

Definition lift {A} (o : Outcome A) : M A := fun w => (o, w).

(** [_sendMessageToClient(message)] *)
Definition _sendMessageToClient (message : ClientMessage) : M unit :=
  fun w => (Ok tt, {| this := this w; requests := requests w;
                      sent := sent w ++ [message] |}).

Notation "x <- m ;; k" := (bind m (fun x => k))
  (at level 61, m at next level, right associativity).
Notation "m ;; k" := (bind m (fun _ => k))
  (at level 61, right associativity).

Fixpoint mapM {A B} (f : A -> M B) (l : list A) : M (list B) :=
  match l with
  | [] => ret []
  | a :: l' => b <- f a ;; bs <- mapM f l' ;; ret (b :: bs)
  end.

(** [Promise.all(promises)]: every promise runs to its end, in order; the
    result is the list of values, or the first rejection. *)
Fixpoint Promise_all {A} (promises : list (M A)) : M (list A) :=
  match promises with
  | [] => ret []
  | p :: ps =>
      fun w =>
        let '(o, w1) := p w in
        let '(os, w2) := Promise_all ps w1 in
        (match o, os with
         | Throw e, _ => Throw e
         | Ok _, Throw e => Throw e
         | Ok a, Ok l => Ok (a :: l)
         end, w2)
  end.

(** [invariant(condition)] of the [assert] module. *)
Definition invariant (condition : bool) : M unit :=
  if condition then ret tt else throw "AssertionError".

(** [catchCommandError(handler)(command)] *)
Definition catchCommandError (handler : DebuggerCommand -> M ClientMessage)
           (command : DebuggerCommand) : M ClientMessage :=
  try_catch (handler command)
            (fun message => ret (getErrorResponse (id command) message)).

(** ** Handlers *)

Section Handlers.

(** The collaborators of the translator, taken as parameters: the adapter
    session, the file cache ([this._files.registerFile], which may throw;
    what the cache itself announces to the client is left out) and the URI
    helpers.  Where the source starts several asynchronous functions at
    once, they run here one after the other, each answer arriving before
    the next request is sent. *)
Variable session : VsDebugSession.
Variable registerFile : string -> Outcome unit.
Variable decodeURIComponent : string -> Outcome string.
Variable uriToPath : string -> string.
Variable pathToUri : string -> string.
Variable nuclideUri_basename : string -> string.
Variable nuclideUri_getPath : string -> string.
Variable Number : string -> JSNumber.

(** *** The breakpoint ledger *)

(** [_getBreakpointsForFilePath(path)] *)
Definition _getBreakpointsForFilePath (p : string)
           (t : VsDebugSessionTranslator) : list TranslatorBreakpoint :=
  filter (fun breakpoint => String.eqb (path breakpoint) p) (_breakpoints t).

(** [_nextBreakpointId()] *)
Definition _nextBreakpointId : M Z :=
  t <- get_this ;;
  modify_this (with_lastBreakpointId (_lastBreakpointId t + 1)) ;;
  ret (_lastBreakpointId t + 1).

Definition with_breakpointId (i : option string) (b : TranslatorBreakpoint)
  : TranslatorBreakpoint :=
  {| breakpointId := i; path := path b; lineNumber := lineNumber b;
     condition := condition b; hitCount := hitCount b; resolved := resolved b |}.

Definition with_resolved (r : bool) (b : TranslatorBreakpoint)
  : TranslatorBreakpoint :=
  {| breakpointId := breakpointId b; path := path b; lineNumber := lineNumber b;
     condition := condition b; hitCount := hitCount b; resolved := r |}.

Definition with_lineNumber (l : Z) (b : TranslatorBreakpoint)
  : TranslatorBreakpoint :=
  {| breakpointId := breakpointId b; path := path b; lineNumber := l;
     condition := condition b; hitCount := hitCount b; resolved := resolved b |}.

(** [_tryUpdateBreakpoint(breakpoint, vsBreakpoint)].  The source compares
    the parsed line with [breakpoint.line], which is not a field of the
    record: the comparison always succeeds and the line is assigned. *)
Definition _tryUpdateBreakpoint (breakpoint : TranslatorBreakpoint)
           (vsBreakpoint : VsBreakpoint) : TranslatorBreakpoint :=
  let breakpoint :=
    if negb (resolved breakpoint) && verified vsBreakpoint
    then with_resolved true breakpoint else breakpoint in
  match vs_line vsBreakpoint with
  | Some line => with_lineNumber line breakpoint
  | None => breakpoint
  end.

Definition count_mismatch (received expected : nat) : string :=
  ("Failed to set breakpoints - count mismatch!"
     ++ " " ++ String_of_number (Z.of_nat received)
     ++ " vs. " ++ String_of_number (Z.of_nat expected))%string.

(** The body of the [vsBreakpoints.forEach] of the sync. *)
Definition sync_one (pair : TranslatorBreakpoint * VsBreakpoint)
  : M TranslatorBreakpoint :=
  let '(breakpoint, vsBreakpoint) := pair in
  breakpoint <-
    match breakpointId breakpoint with
    | None =>
        n <- match vs_id vsBreakpoint with
             | None => _nextBreakpointId
             | Some i => ret i
             end ;;
        ret (with_breakpointId (Some (String_of_number n)) breakpoint)
    | Some _ => ret breakpoint
    end ;;
  ret (_tryUpdateBreakpoint breakpoint vsBreakpoint).

(** [_syncBreakpointsForFilePath(path, breakpoints)].  The source updates
    the objects of [breakpoints] in place; the result is that list after
    the updates. *)
Definition _syncBreakpointsForFilePath (p : string)
           (breakpoints : list TranslatorBreakpoint)
  : M (list TranslatorBreakpoint) :=
  vsBreakpoints <-
    request (setBreakpoints_body session)
            (setBreakpoints p (nuclideUri_basename p)
               (List.map lineNumber breakpoints)
               (List.map (fun bp => (lineNumber bp, condition bp)) breakpoints)) ;;
  if negb (Nat.eqb (List.length vsBreakpoints) (List.length breakpoints))
  then throw (count_mismatch (List.length vsBreakpoints) (List.length breakpoints))
  else mapM sync_one (combine breakpoints vsBreakpoints).

(** A [Debugger.setBreakpointByUrl] command: its [id] and [params]. *)
Definition SetBreakpointCommand : Type := Z * SetBreakpointByUrlRequest.

(** The grouping loop of [_setBulkBreakpoints]: [breakpointCommandsByUrl]
    is a [Map], so the groups keep the order of first appearance. *)
Fixpoint group_push (u : string) (command : SetBreakpointCommand)
         (groups : list (string * list SetBreakpointCommand))
  : list (string * list SetBreakpointCommand) :=
  match groups with
  | [] => [(u, [command])]
  | (u', existing) :: groups' =>
      if String.eqb u' u then (u', existing ++ [command]) :: groups'
      else (u', existing) :: group_push u command groups'
  end.

Fixpoint groupByUrl (commands : list SetBreakpointCommand)
         (groups : list (string * list SetBreakpointCommand))
  : Outcome (list (string * list SetBreakpointCommand)) :=
  match commands with
  | [] => Ok groups
  | command :: commands' =>
      match decodeURIComponent (url (snd command)) with
      | Ok u => groupByUrl commands' (group_push u command groups)
      | Throw e => Throw e
      end
  end.

Definition newTranslatorBp (p : string) (c : SetBreakpointCommand)
  : TranslatorBreakpoint :=
  {| breakpointId := None;
     path := p;
     lineNumber := req_lineNumber (snd c) + 1;
     condition := match req_condition (snd c) with
                  | Some s => s
                  | None => ""
                  end;
     resolved := false;
     hitCount := 0 |}.

(** The new records are the same objects in the ledger and in the list that
    is synced: the updates of the sync are written to their positions in
    the ledger, which start at [first]. *)
Definition write_back (first : nat) (updated : list TranslatorBreakpoint)
           (t : VsDebugSessionTranslator) : VsDebugSessionTranslator :=
  with_breakpoints
    (firstn first (_breakpoints t) ++ updated
       ++ skipn (first + List.length updated) (_breakpoints t)) t.

Definition setBreakpointByUrl_response (p : string)
           (pair : SetBreakpointCommand * TranslatorBreakpoint)
  : M ClientMessage :=
  let '(command, bp) := pair in
  match breakpointId bp with
  | None => throw "AssertionError"       (* invariant(breakpointId != null) *)
  | Some breakpointId =>
      ret (response (fst command)
             (setBreakpointByUrl_result
                {| sb_breakpointId := breakpointId;
                   sb_locations := [nuclideDebuggerLocation p (lineNumber bp - 1) 0];
                   sb_resolved := resolved bp |}))
  end.

(** The asynchronous function that [_setBulkBreakpoints] maps over the
    groups, in two parts.  [setBreakpoints_rest] is what follows the first
    [await]: the registration of the file, the sync and the responses.
    [first] is the position in the ledger of the first new record. *)
Definition setBreakpoints_rest (u p : string) (first : nat)
           (breakpointCommands : list SetBreakpointCommand)
           (translatorBreakpoins : list TranslatorBreakpoint)
  : M (list ClientMessage) :=
  lift (registerFile u) ;;
  synced <- _syncBreakpointsForFilePath p translatorBreakpoins ;;
  modify_this (write_back first (firstn (List.length breakpointCommands) synced)) ;;
  mapM (setBreakpointByUrl_response p) (combine breakpointCommands synced).

(** The part before the first [await] stages the new records in the
    ledger; the result is the rest of the function, which runs when the
    staging of every group is done. *)
Definition setBreakpoints_group (group : string * list SetBreakpointCommand)
  : M (M (list ClientMessage)) :=
  let '(u, breakpointCommands) := group in
  let p := uriToPath u in
  t <- get_this ;;
  let existingTranslatorBreakpoints := _getBreakpointsForFilePath p t in
  let first := List.length (_breakpoints t) in
  let fresh := List.map (newTranslatorBp p) breakpointCommands in
  let breakOnLineNumbers := List.map lineNumber fresh in
  modify_this (fun t => with_breakpoints (_breakpoints t ++ fresh) t) ;;
  let translatorBreakpoins :=
    fresh ++ filter (fun tBp =>
                       negb (existsb (Z.eqb (lineNumber tBp)) breakOnLineNumbers))
                    existingTranslatorBreakpoints in
  ret (setBreakpoints_rest u p first breakpointCommands translatorBreakpoins).

(** [_setBulkBreakpoints(setBreakpointsCommands)] *)
Definition _setBulkBreakpoints (setBreakpointsCommands : list SetBreakpointCommand)
  : M (list ClientMessage) :=
  if negb (isReadyForBreakpoints session)
  then throw "VsDebugSession is not ready for breakpoints"
  else match setBreakpointsCommands with
       | [] => ret []
       | _ =>
           breakpointCommandsByUrl <- lift (groupByUrl setBreakpointsCommands []) ;;
           pending <- mapM setBreakpoints_group breakpointCommandsByUrl ;;
           responseGroups <- Promise_all pending ;;
           ret (List.concat responseGroups)
       end.

(** [findIndex] together with the element found; [None] is [-1]. *)
Fixpoint findIndex {A} (f : A -> bool) (l : list A) (i : nat) : option (nat * A) :=
  match l with
  | [] => None
  | a :: l' => if f a then Some (i, a) else findIndex f l' (S i)
  end.

Definition has_breakpointId (i : string) (bp : TranslatorBreakpoint) : bool :=
  match breakpointId bp with
  | Some i' => String.eqb i' i
  | None => false
  end.

(** [array.splice(idx, 1)] *)
Definition splice1 {A} (idx : nat) (l : list A) : list A :=
  firstn idx l ++ skipn (S idx) l.

(** [_removeBreakpoint(breakpointId)].  The sync works on copies of the
    remaining records, so its updates do not reach the ledger. *)
Definition _removeBreakpoint (i : string) : M unit :=
  t <- get_this ;;
  match findIndex (has_breakpointId i) (_breakpoints t) 0 with
  | None => ret tt                       (* logged: no breakpoint to remove *)
  | Some (foundBreakpointIdx, foundBreakpoint) =>
      let remainingBreakpoints :=
        filter (fun breakpoint => negb (has_breakpointId i breakpoint))
               (_getBreakpointsForFilePath (path foundBreakpoint) t) in
      modify_this (fun t => with_breakpoints
                              (splice1 foundBreakpointIdx (_breakpoints t)) t) ;;
      _syncBreakpointsForFilePath (path foundBreakpoint) remainingBreakpoints ;;
      ret tt
  end.

(** *** Evaluation *)

(** [_evaluateOnCallFrame(expression, frameId)] *)
Definition _evaluateOnCallFrame (expression : string) (frameId : option JSNumber)
  : M EvaluateResponse :=
  try_catch
    (body <- request (evaluate_body session) (evaluate expression frameId) ;;
     ret {| er_result :=
              {| ro_type := body_type body;
                 ro_value := Some (body_result body);
                 ro_description := Some (body_result body);
                 ro_objectId :=
                   if 0 <? body_variablesReference body
                   then Some (String_of_number (body_variablesReference body))
                   else None |};
            exceptionDetails := None;
            wasThrown := false |})
    (fun message =>
       ret {| er_result :=
                {| ro_type := "undefined";
                   ro_value := None;
                   ro_description := None;
                   ro_objectId := None |};
              exceptionDetails := Some message;
              wasThrown := true |}).

(** *** Stack frames *)

(** [_getScopesForFrame(frameId)] *)
Definition _getScopesForFrame (frameId : Z) : M (list Scope) :=
  try_catch
    (scopes <- request (scopes_body session) (scopes frameId) ;;
     ret (List.map
            (fun scope =>
               {| scope_type := vs_scope_name scope;
                  scope_name := vs_scope_name scope;
                  scope_object_description := vs_scope_name scope;
                  scope_object_objectId :=
                    String_of_number (variablesReference scope) |})
            scopes))
    (fun _ => ret []).

(** The function mapped over [stackFrames]. *)
Definition translate_frame (frame : StackFrame) : M CallFrame :=
  let scriptId :=
    match frame_source frame with
    | Some {| source_path := Some p |} => p
    | _ => "N/A"
    end in
  lift (registerFile (pathToUri scriptId)) ;;
  scopeChain <- _getScopesForFrame (frame_id frame) ;;
  ret {| callFrameId := String_of_number (frame_id frame);
         functionName := frame_name frame;
         location := nuclideDebuggerLocation scriptId
                       (frame_line frame - 1) (frame_column frame - 1);
         hasSource := match frame_source frame with
                      | Some _ => true
                      | None => false
                      end;
         scopeChain := scopeChain |}.

(** The [options] of the stack trace request: [levels] and [startFrame]. *)
Definition stackTrace_options (levels : option Z) : option Z * option Z :=
  match levels with
  | Some l =>
      if supportsDelayedStackTraceLoading session
      then (Some l, Some 0) else (None, None)
  | None => (None, None)
  end.

(** [_getTranslatedCallFramesForThread(threadId, levels)].  The [try] of
    the source covers the stack trace request; the promise of the
    translated frames is returned without being awaited there, so a
    rejection of it is not caught. *)
Definition _getTranslatedCallFramesForThread (threadId : Z) (levels : option Z)
  : M (list CallFrame) :=
  let options := stackTrace_options levels in
  stackFrames <-
    try_catch
      (frames <- request (stackTrace_body session)
                         (stackTrace threadId (fst options) (snd options)) ;;
       ret (Some frames))
      (fun _ => ret None) ;;
  match stackFrames with
  | Some stackFrames => Promise_all (List.map translate_frame stackFrames)
  | None => ret []
  end.

(** *** The thread registry *)

(** [_updateThreadsState(threadIds, state)] *)
Definition _updateThreadsState (threadIds : list Z) (st : ThreadState)
           (t : VsDebugSessionTranslator) : VsDebugSessionTranslator :=
  with_threadsById
    (fold_left
       (fun m threadId =>
          match map_get threadId m with
          | Some threadInfo =>
              if ThreadState_eqb st running
              then map_set threadId
                     {| state := st; callFrames := None;
                        callStackLoaded := false; stopReason := None |} m
              else map_set threadId
                     {| state := st; callFrames := callFrames threadInfo;
                        callStackLoaded := callStackLoaded threadInfo;
                        stopReason := stopReason threadInfo |} m
          | None =>
              map_set threadId
                {| state := st; callFrames := None;
                   callStackLoaded := false; stopReason := None |} m
          end)
       threadIds (_threadsById t)) t.

Definition describe_thread (entry : Z * ThreadInfo) : ThreadDescription :=
  let '(id, info) := entry in
  let topCallFrame :=
    match callFrames info with
    | Some frames => hd_error frames
    | None => None
    end in
  let threadName := ("Thread " ++ String_of_number id)%string in
  {| td_id := id;
     td_name := threadName;
     td_description := threadName;
     td_address := match topCallFrame with
                   | Some f => functionName f
                   | None => ""
                   end;
     td_location := match topCallFrame with
                    | Some f => location f
                    | None => nuclideDebuggerLocation "N/A" 0 0
                    end;
     td_stopReason := match stopReason info with
                      | Some "" | None => "running"
                      | Some r => r
                      end;
     td_hasSource := match topCallFrame with
                     | Some f => hasSource f
                     | None => false
                     end |}.

(** [_getThreadsUpdatedEvent()] with the [stopThreadId] that the caller
    assigns afterwards ([None] when it does not). *)
Definition _getThreadsUpdatedEvent (stopThreadId : option Z)
           (t : VsDebugSessionTranslator) : ThreadsUpdatedEvent :=
  {| owningProcessId := VSP_PROCESS_ID;
     threads := List.map describe_thread (_threadsById t);
     tu_stopThreadId := stopThreadId |}.

(** *** Adapter events *)

Record ThreadEventBody := {
  te_reason : string;
  te_threadId : Z
}.

Record StoppedEventBody := {
  se_threadId : option Z;
  se_reason : string;
  se_allThreadsStopped : bool
}.

Record ContinuedEventBody := {
  ce_threadId : option Z;
  ce_allThreadsContinued : bool
}.

(** The subscriber of [observeThreadEvents()]. *)
Definition onThreadEvent (body : ThreadEventBody) : M unit :=
  let threadId := te_threadId body in
  (if String.eqb (te_reason body) "started" then
     modify_this (_updateThreadsState [threadId] running)
   else if String.eqb (te_reason body) "exited" then
     modify_this (fun t => with_threadsById (map_delete threadId (_threadsById t)) t) ;;
     t <- get_this ;;
     if strict_eq (_pausedThreadId t) (Some threadId)
     then modify_this (_updatePausedThreadId None)
     else ret tt
   else ret tt) ;;                                   (* logged: unknown event *)
  t <- get_this ;;
  _sendMessageToClient (event (Debugger_threadsUpdated (_getThreadsUpdatedEvent None t))).

Definition is_python (a : VsAdapterType) : bool :=
  match a with
  | PYTHON => true
  | other_adapter _ => false
  end.

(** The [stoppedThreadIds] of a stop event. *)
Definition stoppedThreadIds (threadId : option Z) (allThreadsStopped : bool)
           (t : VsDebugSessionTranslator) : list Z :=
  let first :=
    match threadId with
    | Some i => if 0 <=? i then [i] else []
    | None => []
    end in
  if allThreadsStopped then
    first ++
    filter (fun id =>
              negb (strict_eq (Some id) threadId)
              && match map_get id (_threadsById t) with
                 | Some threadInfo => negb (ThreadState_eqb (state threadInfo) paused)
                 | None => false
                 end)
           (map_keys (_threadsById t))
  else first.

Definition threadSwitchMessage_of (t : VsDebugSessionTranslator) : option string :=
  match _pausedThreadIdPrevious t, _pausedThreadId t with
  | Some previous, Some current =>
      if negb (previous =? current)
      then Some ("Active thread switched from thread #"
                   ++ String_of_number previous
                   ++ " to thread #" ++ String_of_number current)%string
      else None
  | _, _ => None
  end.

(** The asynchronous function mapped over [stoppedThreadIds]: note that the
    choice of [levels] compares the active thread with the [threadId] of
    the event. *)
Definition pausedEvent_for (threadId : option Z) (reason : string) (id : Z)
  : M PausedEvent :=
  callFrames <-
    try_catch
      (t <- get_this ;;
       if strict_eq (_pausedThreadId t) threadId
       then _getTranslatedCallFramesForThread id None
       else _getTranslatedCallFramesForThread id (Some 1))
      (fun _ => ret []) ;;
  t <- get_this ;;
  ret {| pe_callFrames := callFrames;
         pe_reason := reason;
         stopThreadId := Some id;
         threadSwitchMessage := threadSwitchMessage_of t |}.

(** The first loop of the subscriber: mark the threads as paused. *)
Definition mark_paused (t : VsDebugSessionTranslator) (pausedEvent : PausedEvent)
  : VsDebugSessionTranslator :=
  match stopThreadId pausedEvent with
  | Some stopThreadId =>
      if 0 <=? stopThreadId
      then with_threadsById
             (map_set stopThreadId
                {| state := paused;
                   callFrames := Some (pe_callFrames pausedEvent);
                   stopReason := Some (pe_reason pausedEvent);
                   callStackLoaded :=
                     strict_eq (_pausedThreadId t) (Some stopThreadId) |}
                (_threadsById t)) t
      else t
  | None => t
  end.

(** The [pausedEvent] that the subscriber sends, if any. *)
Definition pausedEvent_to_send (pausedEvents : list PausedEvent)
           (t : VsDebugSessionTranslator) : option PausedEvent :=
  match pausedEvents with
  | [] => Some {| pe_callFrames := [];
                  pe_reason := "Async-Break";
                  stopThreadId := Some (-1);
                  threadSwitchMessage := None |}
  | first :: _ =>
      if strict_eq (_pausedThreadId t) (stopThreadId first)
      then Some first else None
  end.

(** The subscriber of the stop events. *)
Definition deliver_pausedEvents (pausedEvents : list PausedEvent) : M unit :=
  modify_this (fun t => fold_left mark_paused pausedEvents t) ;;
  t <- get_this ;;
  match pausedEvent_to_send pausedEvents t with
  | Some pausedEvent => _sendMessageToClient (event (Debugger_paused pausedEvent))
  | None => ret tt
  end ;;
  t <- get_this ;;
  _sendMessageToClient
    (event (Debugger_threadsUpdated
              (_getThreadsUpdatedEvent
                 (Some (match _pausedThreadId t with
                        | Some i => i
                        | None => -1
                        end)) t))).

(** The pipeline of [observeStopEvents()].  [continued] tells whether a
    matching [continued] event arrived before the stacks were fetched: then
    [takeUntil] ends the inner stream and the subscriber is not called. *)
Definition onStopped (body : StoppedEventBody) (continued : bool) : M unit :=
  let threadId := se_threadId body in
  let reason := se_reason body in
  t <- get_this ;;
  let allThreadsStopped :=
    if is_python (_adapterType t) && String.eqb reason "user request"
    then true else se_allThreadsStopped body in
  let stoppedThreadIds := stoppedThreadIds threadId allThreadsStopped t in
  match _pausedThreadId t, stoppedThreadIds with
  | None, first :: _ => modify_this (_updatePausedThreadId (Some first))
  | _, _ => ret tt
  end ;;
  pausedEvents <- Promise_all (List.map (pausedEvent_for threadId reason) stoppedThreadIds) ;;
  if continued then ret tt else deliver_pausedEvents pausedEvents.

(** The subscriber of [observeContinuedEvents()]. *)
Definition onContinued (body : ContinuedEventBody) : M unit :=
  let threadId := ce_threadId body in
  let allThreadsContinued :=
    match threadId with
    | Some i => if i <? 0 then true else ce_allThreadsContinued body
    | None => true
    end in
  t <- get_this ;;
  (if allThreadsContinued || strict_eq threadId (_pausedThreadId t)
   then modify_this (_updatePausedThreadId None) else ret tt) ;;
  t <- get_this ;;
  let continuedThreadIds :=
    if allThreadsContinued
    then filter (fun id => match map_get id (_threadsById t) with
                           | Some threadInfo =>
                               negb (ThreadState_eqb (state threadInfo) running)
                           | None => false
                           end)
                (map_keys (_threadsById t))
    else match threadId with
         | Some i => [i]
         | None => []
         end in
  modify_this (_updateThreadsState continuedThreadIds running) ;;
  _sendMessageToClient (event Debugger_resumed).

(** *** Client commands *)

(** [_continueToLocation(location)] *)
Definition _continueToLocation (location : Location) : M unit :=
  let source_path := nuclideUri_getPath (scriptId location) in
  let source_name := nuclideUri_basename (scriptId location) in
  lift (registerFile (pathToUri (scriptId location))) ;;
  request (acknowledge session)
          (nuclide_continueToLocation source_path source_name
             (loc_lineNumber location + 1)
             (or_default (columnNumber location) 1)
             (loc_threadId location)).

(** The handler of [Debugger.pause]. *)
Definition pause_handler (command : DebuggerCommand) : M ClientMessage :=
  t <- get_this ;;
  let pausedThreadId :=
    match _pausedThreadId t with
    | Some active => active
    | None => or_default (hd_error (map_keys (_threadsById t))) (-1)
    end in
  modify_this (_updatePausedThreadId None) ;;
  request (acknowledge session) (pause pausedThreadId) ;;
  ret (getEmptyResponse (id command)).

(** The handler of the [Debugger.resume] commands after the first. *)
Definition resume_handler (command : DebuggerCommand) : M ClientMessage :=
  t <- get_this ;;
  let threadId := match _pausedThreadId t with
                  | Some active => active
                  | None => -1
                  end in
  request (acknowledge session) (continue threadId) ;;
  ret (getEmptyResponse (id command)).

(** The handlers of [Debugger.stepOver], [stepInto] and [stepOut]. *)
Definition step_handler (what : string) (req : Z -> AdapterRequest)
           (command : DebuggerCommand) : M ClientMessage :=
  t <- get_this ;;
  match _pausedThreadId t with
  | None => ret (getErrorResponse (id command)
                   ("No paused thread to step " ++ what ++ "!")%string)
  | Some active =>
      request (acknowledge session) (req active) ;;
      ret (getEmptyResponse (id command))
  end.

(** The handler of [Debugger.getThreadStack]. *)
Definition getThreadStack_handler (threadId : Z) (command : DebuggerCommand)
  : M ClientMessage :=
  t <- get_this ;;
  callFrames <-
    match map_get threadId (_threadsById t) with
    | Some threadInfo =>
        if ThreadState_eqb (state threadInfo) paused then
          let stale :=
            match callFrames threadInfo with
            | None | Some [] => true
            | Some _ => negb (callStackLoaded threadInfo)
            end in
          if stale then
            frames <- _getTranslatedCallFramesForThread threadId None ;;
            modify_this
              (fun t => with_threadsById
                          (map_set threadId
                             {| state := state threadInfo;
                                callFrames := Some frames;
                                callStackLoaded := callStackLoaded threadInfo;
                                stopReason := stopReason threadInfo |}
                             (_threadsById t)) t) ;;
            ret (Some frames)
          else ret (callFrames threadInfo)
        else ret None
    | None => ret None
    end ;;
  ret (response (id command)
         (getThreadStack_result match callFrames with
                                | Some frames => frames
                                | None => []
                                end)).

(** The steady-state branch of [_handleSetBreakpointsCommands]. *)
Definition setBreakpointByUrl_handler (params : SetBreakpointByUrlRequest)
           (command : DebuggerCommand) : M (list ClientMessage) :=
  try_catch (_setBulkBreakpoints [(id command, params)])
            (fun message => ret [getErrorResponse (id command) message]).

(** The handler of [Debugger.removeBreakpoint]. *)
Definition removeBreakpoint_handler (breakpointId : string)
           (command : DebuggerCommand) : M ClientMessage :=
  _removeBreakpoint breakpointId ;;
  ret (getEmptyResponse (id command)).

Definition one (m : M ClientMessage) : M (list ClientMessage) :=
  message <- m ;; ret [message].

(** [_handleCommands()]: the messages that the merged stream produces for
    one command, once the session has started. *)
Definition _handleCommands (command : DebuggerCommand) : M (list ClientMessage) :=
  match method command with
  | Debugger_enable =>
      ret [getEmptyResponse (id command); getFakeLoaderPauseEvent]
  | Debugger_pause => one (catchCommandError pause_handler command)
  | Debugger_resume => one (catchCommandError resume_handler command)
  | Debugger_selectThread threadId =>
      modify_this (_updatePausedThreadId (Some threadId)) ;;
      ret [getEmptyResponse (id command)]
  | Debugger_stepOver => one (catchCommandError (step_handler "over" next) command)
  | Debugger_stepInto => one (catchCommandError (step_handler "into" stepIn) command)
  | Debugger_stepOut => one (catchCommandError (step_handler "out" stepOut) command)
  | Debugger_continueToLocation location =>
      one (catchCommandError
             (fun command => _continueToLocation location ;;
                             ret (getEmptyResponse (id command)))
             command)
  | Debugger_setDebuggerSettings | Runtime_enable =>
      ret [getEmptyResponse (id command)]
  | Debugger_setBreakpointByUrl params => setBreakpointByUrl_handler params command
  | Debugger_removeBreakpoint breakpointId =>
      one (catchCommandError (removeBreakpoint_handler breakpointId) command)
  | Debugger_getThreadStack threadId =>
      one (getThreadStack_handler threadId command)
  | Debugger_evaluateOnCallFrame callFrameId expression =>
      result <- _evaluateOnCallFrame expression (Some (Number callFrameId)) ;;
      ret [response (id command) (evaluate_result result)]
  | Runtime_evaluate expression =>
      result <- _evaluateOnCallFrame expression None ;;
      ret [response (id command) (evaluate_result result)]
  | unknown_method name =>
      ret [getErrorResponse (id command) ("Unknown command: " ++ name)%string]
  end.

(** The expression and the frame that the two evaluation commands pass to
    [_evaluateOnCallFrame]. *)
Definition evaluation_request (m : Method) : option (string * option JSNumber) :=
  match m with
  | Debugger_evaluateOnCallFrame callFrameId expression =>
      Some (expression, Some (Number callFrameId))
  | Runtime_evaluate expression => Some (expression, None)
  | _ => None
  end.

(** [processCommand(command)] with the subscriber of the constructor, which
    sends every produced message to the client. *)
Definition processCommand (command : DebuggerCommand) : M unit :=
  messages <- _handleCommands command ;;
  mapM _sendMessageToClient messages ;;
  ret tt.

(** ** Sessions *)

(** What reaches the translator once the session has started. *)
Inductive Input :=
| client_command (command : DebuggerCommand)
| thread_event (body : ThreadEventBody)
| stopped_event (body : StoppedEventBody) (continued : bool)
| continued_event (body : ContinuedEventBody).

Definition step (i : Input) : M unit :=
  match i with
  | client_command command => processCommand command
  | thread_event body => onThreadEvent body
  | stopped_event body continued => onStopped body continued
  | continued_event body => onContinued body
  end.

Fixpoint run (inputs : list Input) : M unit :=
  match inputs with
  | [] => ret tt
  | i :: inputs' => step i ;; run inputs'
  end.

(** The worlds after each input of a session; the inputs that follow a
    handler that threw are still handled. *)
Fixpoint trace (inputs : list Input) (w : World) : list World :=
  match inputs with
  | [] => []
  | i :: inputs' => let w' := snd (step i w) in w' :: trace inputs' w'
  end.

End Handlers.

(** The world of a freshly constructed translator. *)
Definition start (adapterType : VsAdapterType) : World :=
  {| this := constructor adapterType; requests := []; sent := [] |}.

(** ** Observations *)

(** The threads that were the active paused thread in some of the worlds. *)
Definition active_threads (history : list World) : list Z :=
  flat_map (fun w => match _pausedThreadId (this w) with
                     | Some a => [a]
                     | None => []
                     end) history.

(** The messages with [method: 'Debugger.paused']. *)
Definition is_Debugger_paused (message : ClientMessage) : bool :=
  match message with
  | event (Debugger_paused _) | event Debugger_paused_initial_break => true
  | _ => false
  end.

Definition count_Debugger_paused (messages : list ClientMessage) : nat :=
  List.length (filter is_Debugger_paused messages).

(** The ledger of a world. *)
Definition ledger (w : World) : list TranslatorBreakpoint := _breakpoints (this w).

(** The keys of the ledger. *)
Definition ledger_keys (t : VsDebugSessionTranslator) : list (string * Z) :=
  List.map (fun bp => (path bp, lineNumber bp)) (_breakpoints t).

(** ** Predicates on computations and worlds *)

(** The computation [m] leaves the observation [observe] of the world as it
    is. *)
Definition preserves {X A} (observe : World -> X) (m : M A) : Prop :=
  forall w, observe (snd (m w)) = observe w.

(** The two session flags about the active paused thread. *)
Definition active (w : World) : option Z * option Z :=
  (_pausedThreadId (this w), _pausedThreadIdPrevious (this w)).

(** [w'] is [w] after at most one call of [_updatePausedThreadId], as far
    as the two flags go. *)
Definition updated (w w' : World) : Prop :=
  active w' = active w
  \/ _pausedThreadIdPrevious (this w')
     = match _pausedThreadId (this w) with
       | Some old => Some old
       | None => _pausedThreadIdPrevious (this w)
       end.

Definition updates_once {A} (m : M A) : Prop :=
  forall w, updated w (snd (m w)).

(** *** The invariant of the two flags along a session

    [seen] lists the threads that have been active so far. *)
Definition flags_follow (seen : list Z) (w : World) : Prop :=
  (_pausedThreadIdPrevious (this w) = None ->
   forall a, In a seen -> _pausedThreadId (this w) = Some a)
  /\ (forall p, _pausedThreadIdPrevious (this w) = Some p -> In p seen)
  /\ (forall a, _pausedThreadId (this w) = Some a -> In a seen).

Definition now_active (w : World) : list Z :=
  match _pausedThreadId (this w) with
  | Some a => [a]
  | None => []
  end.

(** The computation [m] only adds requests to those sent to the adapter. *)
Definition extends {A} (m : M A) : Prop :=
  forall w, exists more, requests (snd (m w)) = requests w ++ more.

End Translator.

(* ================================================================== *)
(** * Sample sessions                                                  *)
(* ================================================================== *)

Module Scenarios.
Import Translator.
Local Open Scope string_scope.
Local Open Scope Z_scope.

(** URI helpers that leave their argument as it is, a file cache that
    accepts every file. *)
Definition same (s : string) : string := s.
Definition decode_ok (s : string) : Outcome string := Ok s.
Definition register_ok (s : string) : Outcome unit := Ok tt.
Definition Number_NaN (s : string) : JSNumber := NaN.

(** An adapter that verifies every breakpoint on the requested line and
    assigns no ids, supports delayed stack trace loading, reports empty
    stacks and rejects evaluations. *)
Definition verify_all (history : list AdapterRequest) (r : AdapterRequest)
  : Outcome (list VsBreakpoint) :=
  match r with
  | setBreakpoints _ _ lines _ =>
      Ok (List.map (fun l => {| vs_id := None; verified := true; vs_line := Some l |})
                   lines)
  | _ => Throw "unexpected request"
  end.

Definition adapter : VsDebugSession :=
  {| isReadyForBreakpoints := true;
     supportsDelayedStackTraceLoading := true;
     acknowledge := fun _ _ => Ok tt;
     setBreakpoints_body := verify_all;
     stackTrace_body := fun _ _ => Ok [];
     scopes_body := fun _ _ => Ok [];
     evaluate_body := fun _ _ => Throw "not available" |}.

Definition play (inputs : list Input) (w : World) : Outcome unit * World :=
  run adapter register_ok decode_ok same same same same Number_NaN inputs w.

Definition history (inputs : list Input) (w : World) : list World :=
  trace adapter register_ok decode_ok same same same same Number_NaN inputs w.

Definition node : World := start (other_adapter "node").

Definition setBreakpointByUrl (i : Z) (u : string) (line : Z) : Input :=
  client_command
    {| id := i;
       method := Debugger_setBreakpointByUrl
                   {| url := u; req_lineNumber := line; req_columnNumber := Some 0;
                      req_condition := None |} |}.

Definition started (threadId : Z) : Input :=
  thread_event {| te_reason := "started"; te_threadId := threadId |}.

(** The same line of the same file is staged twice. *)
Definition stage_twice : list Input :=
  [setBreakpointByUrl 1 "/src/a.js" 10; setBreakpointByUrl 2 "/src/a.js" 10].

(** Two running threads, then thread 1 hits a breakpoint and the adapter
    reports all threads as stopped. *)
Definition stop_all_on_thread_1 : list Input :=
  [started 1; started 2;
   stopped_event {| se_threadId := Some 1; se_reason := "breakpoint";
                    se_allThreadsStopped := true |} false].

(** Two running threads, then a stop of all threads that names no thread. *)
Definition stop_all_without_thread : list Input :=
  [started 1; started 2;
   stopped_event {| se_threadId := None; se_reason := "pause";
                    se_allThreadsStopped := true |} false].

(** A single thread is selected, then the client asks for a pause. *)
Definition select_then_pause : list Input :=
  [client_command {| id := 1; method := Debugger_selectThread 1 |};
   client_command {| id := 2; method := Debugger_pause |}].

(** Two threads are selected in turn. *)
Definition select_two : list Input :=
  [client_command {| id := 1; method := Debugger_selectThread 1 |};
   client_command {| id := 2; method := Debugger_selectThread 2 |}].

(** The only known thread has id 0 and the client asks for a pause. *)
Definition pause_with_thread_0 : list Input :=
  [started 0; client_command {| id := 7; method := Debugger_pause |}].

(** A location on line 3 (0-based), column 5 (0-based). *)
Definition line_3_column_5 : Location :=
  {| scriptId := "/src/a.js"; loc_lineNumber := 3;
     columnNumber := Some 5; loc_threadId := None |}.

End Scenarios.

(* ================================================================== *)
(** * Frames and pending requests of the transport                     *)
(* ================================================================== *)

Module Framing.
Import V8Protocol.

(** ** The header that [_sendMessage] writes *)

Definition digit_byte (d : Z) : byte :=
  match d with
  | 0 => x30 | 1 => x31 | 2 => x32 | 3 => x33 | 4 => x34
  | 5 => x35 | 6 => x36 | 7 => x37 | 8 => x38 | _ => x39
  end.

(** The decimal digits of [n], least significant first. *)
Fixpoint decimal_rev (fuel : nat) (n : Z) : list byte :=
  match fuel with
  | O => []
  | S fuel' =>
      if n <? 10 then [digit_byte n]
      else digit_byte (n mod 10) :: decimal_rev fuel' (n / 10)
  end.

(** [length.toString()] for a length [n >= 0]. *)
Definition toString (n : Z) : Buffer := rev (decimal_rev (S (Z.to_nat n)) n).

(** The bytes of ['Content-Length: ' + length.toString() + TWO_CRLF]. *)
Definition header (length : Z) : Buffer :=
  bytes "Content-Length: " ++ toString length ++ CRLF_CRLF.

(** A frame: the header of the length of the body, then the body. *)
Definition frame (body : Buffer) : Buffer := header (buf_length body) ++ body.

(** What the decoder needs of [buffer.toString('utf8')]: the empty buffer
    gives the empty string, and bytes below 128 at the start of a buffer
    are decoded one by one, whatever follows. *)
Definition is_7bit (b : byte) : bool := (Byte.to_N b <? 128)%N.

Definition decodes_7bit (utf8 : Buffer -> jsstring) : Prop :=
  utf8 [] = []
  /\ forall a b, forallb is_7bit a = true ->
                 utf8 (a ++ b) = List.map Byte.to_N a ++ utf8 b.

(** ** The table of pending requests *)

(** The keys of the table are distinct and are sequence numbers already
    given out. *)
Definition sound_keys (s : Z) (l : list Z) : Prop :=
  NoDup l /\ Forall (fun k => 1 <= k < s) l.

Definition pending_sound (p : Protocol) : Prop :=
  sound_keys (_sequence p) (_pendingRequests p).

(** A parser for which every body is the response to request 1. *)
Definition response_to_1 (body : jsstring) : RawData + string :=
  inl (raw_response 1 body).

End Framing.

(* ================================================================== *)
(** * More of the translator: re-sync, breakpoint events, observations *)
(* ================================================================== *)

Module Session.
Import Translator.
Local Open Scope string_scope.
Local Open Scope list_scope.
Local Open Scope Z_scope.

(** ** Re-sync of the ledger *)

(** [new Set(paths)]: the distinct paths, in the order of their first
    appearance. *)
Fixpoint distinct (l : list string) : list string :=
  match l with
  | [] => []
  | x :: l' => x :: filter (fun y => negb (String.eqb x y)) (distinct l')
  end.

Section Handlers.

Variable session : VsDebugSession.
Variable nuclideUri_basename : string -> string.

(** [_syncBreakpoints()]: every file with records is synced with copies of
    its records, so that the updates of the syncs do not reach the
    ledger. *)
Definition _syncBreakpoints : M unit :=
  t <- get_this ;;
  let filePaths := distinct (List.map path (_breakpoints t)) in
  Promise_all
    (List.map (fun filePath =>
                 _syncBreakpointsForFilePath session nuclideUri_basename filePath
                   (_getBreakpointsForFilePath filePath t))
              filePaths) ;;
  ret tt.

End Handlers.

(** ** Breakpoint events *)

(** [body.breakpoint] of a breakpoint event; [be_hitCount] is
    [parseInt(breakpoint.nuclide_hitCount, 10)], [None] when it is [NaN]. *)
Record BreakpointEventBody := {
  be_id : option Z;
  be_verified : bool;
  be_line : option Z;
  be_originalLine : option Z;
  be_source : option Source;
  be_hitCount : option Z
}.

(** The two messages that the subscriber of the breakpoint events sends to
    the client. *)
Inductive BreakpointMessage :=
| Debugger_breakpointResolved (breakpointId : string) (location : Location)
| Debugger_breakpointHitCountChanged (breakpointId : string) (hitCount : Z).

(** [String(breakpoint.id == null ? -1 : breakpoint.id)] *)
Definition bpId (breakpoint : BreakpointEventBody) : string :=
  String_of_number (match be_id breakpoint with
                    | Some i => i
                    | None => -1
                    end).

(** The predicate of the [find] over the ledger. *)
Definition matches_event (breakpoint : BreakpointEventBody)
           (bp : TranslatorBreakpoint) : bool :=
  has_breakpointId (bpId breakpoint) bp
  || (match breakpointId bp with
      | None => true
      | Some _ => false
      end
      && strict_eq (Some (lineNumber bp))
                   (match be_originalLine breakpoint with
                    | Some l => Some l
                    | None => be_line breakpoint
                    end)
      && match be_source breakpoint with
         | Some {| source_path := Some p |} => String.eqb (path bp) p
         | _ => false
         end).

Definition with_hitCount (h : Z) (b : TranslatorBreakpoint) : TranslatorBreakpoint :=
  {| breakpointId := breakpointId b; path := path b; lineNumber := lineNumber b;
     condition := condition b; hitCount := h; resolved := resolved b |}.

(** The record at position [idx] is replaced: the source updates the
    object that [find] returned, which is the object of the ledger. *)
Definition replace_at {A} (idx : nat) (a : A) (l : list A) : list A :=
  firstn idx l ++ a :: skipn (S idx) l.

(** The subscriber of [observeBreakpointEvents()]: the new state and the
    message sent to the client, if any. *)
Definition onBreakpointEvent (breakpoint : BreakpointEventBody)
           (t : VsDebugSessionTranslator)
  : VsDebugSessionTranslator * option BreakpointMessage :=
  match findIndex (matches_event breakpoint) (_breakpoints t) 0 with
  | None => (t, None)                                 (* logged: not found *)
  | Some (idx, existingBreakpoint) =>
      if be_verified breakpoint then
        let updated :=
          _tryUpdateBreakpoint existingBreakpoint
            {| vs_id := be_id breakpoint;
               verified := be_verified breakpoint;
               vs_line := be_line breakpoint |} in
        (with_breakpoints (replace_at idx updated (_breakpoints t)) t,
         Some (Debugger_breakpointResolved (bpId breakpoint)
                 (nuclideDebuggerLocation (path updated) (lineNumber updated - 1) 0)))
      else
        match be_hitCount breakpoint with
        | Some h =>
            if negb (hitCount existingBreakpoint =? h) then
              (with_breakpoints
                 (replace_at idx (with_hitCount h existingBreakpoint) (_breakpoints t)) t,
               Some (Debugger_breakpointHitCountChanged (bpId breakpoint) h))
            else (t, None)                            (* logged: unknown event *)
        | None => (t, None)                           (* logged: unknown event *)
        end
  end.

(** ** Observations *)

(** The command that a message replies to. *)
Definition reply_id (message : ClientMessage) : option Z :=
  match message with
  | response i _ | error_response i _ => Some i
  | event _ => None
  end.

Definition replies (messages : list ClientMessage) : list Z :=
  flat_map (fun message => match reply_id message with
                           | Some i => [i]
                           | None => []
                           end) messages.

(** The three step commands: the word of their error message and the
    request that they send for the active thread. *)
Definition step_command (m : Method) : option (string * (Z -> AdapterRequest)) :=
  match m with
  | Debugger_stepOver => Some ("over", next)
  | Debugger_stepInto => Some ("into", stepIn)
  | Debugger_stepOut => Some ("out", stepOut)
  | _ => None
  end.

(** The request of a sync of [breakpoints] for the file [p]. *)
Definition sync_request (basename : string -> string) (p : string)
           (breakpoints : list TranslatorBreakpoint) : AdapterRequest :=
  setBreakpoints p (basename p)
    (List.map lineNumber breakpoints)
    (List.map (fun bp => (lineNumber bp, condition bp)) breakpoints).

(** The ledger and the requests sent so far. *)
Definition ledger_and_requests (w : World)
  : list TranslatorBreakpoint * list AdapterRequest :=
  (ledger w, requests w).

(** The registry of a world. *)
Definition registry (w : World) : JSMap ThreadInfo := _threadsById (this w).

(** What the breakpoint commands leave alone: the messages sent to the
    client and the registry. *)
Definition beyond_ledger (w : World) : list ClientMessage * JSMap ThreadInfo :=
  (sent w, registry w).


(** The entry that [_updateThreadsState] writes for a running thread. *)
Definition running_thread : ThreadInfo :=
  {| state := running; callFrames := None;
     callStackLoaded := false; stopReason := None |}.

(** A running thread has no call frames, no loaded stack and no stop
    reason. *)
Definition bare_if_running (info : ThreadInfo) : Prop :=
  state info = running -> info = running_thread.

Definition running_threads_are_bare (m : JSMap ThreadInfo) : Prop :=
  Forall (fun entry => bare_if_running (snd entry)) m.

(** The computation [m] keeps the running threads of the registry bare. *)
Definition keeps_bare {A} (m : M A) : Prop :=
  forall w, running_threads_are_bare (registry w) ->
            running_threads_are_bare (registry (snd (m w))).



(** The ids that a list of paused events names. *)
Definition stopped_ids (pausedEvents : list PausedEvent) : list (option Z) :=
  List.map stopThreadId pausedEvents.

(** The synthetic event that is sent when a stop event names no thread. *)
Definition Async_Break : PausedEvent :=
  {| pe_callFrames := [];
     pe_reason := "Async-Break";
     stopThreadId := Some (-1);
     threadSwitchMessage := None |}.

(** The [allThreadsStopped] that the stop pipeline works with: the python
    adapter stops all threads on a user request. *)
Definition stops_all (body : StoppedEventBody) (t : VsDebugSessionTranslator) : bool :=
  if is_python (_adapterType t) && String.eqb (se_reason body) "user request"
  then true else se_allThreadsStopped body.

(** The translator when the stacks of a stop event are fetched: the first
    stopped thread is the active thread if there was none. *)
Definition select_first (ids : list Z) (t : VsDebugSessionTranslator)
  : VsDebugSessionTranslator :=
  match _pausedThreadId t, ids with
  | None, first :: _ => _updatePausedThreadId (Some first) t
  | _, _ => t
  end.

End Session.

(** ** Sample adapters, commands and states *)

Module Samples.
Import Translator Scenarios Session.
Local Open Scope string_scope.
Local Open Scope list_scope.
Local Open Scope Z_scope.

(** The sample adapter before it is ready for breakpoints. *)
Definition not_ready : VsDebugSession :=
  {| isReadyForBreakpoints := false;
     supportsDelayedStackTraceLoading := true;
     acknowledge := fun _ _ => Ok tt;
     setBreakpoints_body := verify_all;
     stackTrace_body := fun _ _ => Ok [];
     scopes_body := fun _ _ => Ok [];
     evaluate_body := fun _ _ => Throw "not available" |}.

(** An adapter that rejects every [setBreakpoints] request. *)
Definition rejecting : VsDebugSession :=
  {| isReadyForBreakpoints := true;
     supportsDelayedStackTraceLoading := true;
     acknowledge := fun _ _ => Ok tt;
     setBreakpoints_body := fun _ _ => Throw "rejected";
     stackTrace_body := fun _ _ => Ok [];
     scopes_body := fun _ _ => Ok [];
     evaluate_body := fun _ _ => Throw "not available" |}.

Definition line_10_of_a : SetBreakpointByUrlRequest :=
  {| url := "/src/a.js"; req_lineNumber := 10; req_columnNumber := Some 0;
     req_condition := None |}.

Definition stage_line_10 : DebuggerCommand :=
  {| id := 1; method := Debugger_setBreakpointByUrl line_10_of_a |}.

(** Three commands for two files: lines 10 and 20 of one, line 5 of the
    other in between. *)
Definition three_commands : list SetBreakpointCommand :=
  [(1, line_10_of_a);
   (2, {| url := "/src/b.js"; req_lineNumber := 5; req_columnNumber := None;
          req_condition := None |});
   (3, {| url := "/src/a.js"; req_lineNumber := 20; req_columnNumber := None;
          req_condition := None |})].


Definition stepOver_3 : DebuggerCommand := {| id := 3; method := Debugger_stepOver |}.

Definition getThreadStack_of_1 : DebuggerCommand :=
  {| id := 5; method := Debugger_getThreadStack 1 |}.

Definition remove_1 : DebuggerCommand :=
  {| id := 9; method := Debugger_removeBreakpoint "1" |}.

(** The ledger after line 10 of a file was staged twice, and its first
    record. *)
Definition staged_twice : World := snd (play stage_twice node).

Definition record_1 : TranslatorBreakpoint :=
  {| breakpointId := Some "1"; path := "/src/a.js"; lineNumber := 11;
     condition := ""; hitCount := 0; resolved := true |}.

(** Threads 1 and 2 are running. *)
Definition two_threads : World := snd (play [started 1; started 2] node).

Definition stop_of (threadId : option Z) (reason : string) : StoppedEventBody :=
  {| se_threadId := threadId; se_reason := reason; se_allThreadsStopped := false |}.

(** Threads 1 and 2, after thread 1 has hit a breakpoint: thread 1 is the
    active paused thread. *)
Definition thread_1_paused : World :=
  snd (play [started 1; started 2;
             stopped_event (stop_of (Some 1) "breakpoint") false] node).

Definition exit_of_1 : ThreadEventBody := {| te_reason := "exited"; te_threadId := 1 |}.

Definition start_of_3 : ThreadEventBody := {| te_reason := "started"; te_threadId := 3 |}.

Definition continued_without_thread : ContinuedEventBody :=
  {| ce_threadId := None; ce_allThreadsContinued := false |}.

End Samples.

(* ================================================================== *)
(** * Part III: properties of the transport                            *)
(* ================================================================== *)

Module TransportFacts.
Import V8Protocol.

Section Facts.

Variable utf8 : Buffer -> jsstring.
Variable JSON_parse : jsstring -> RawData + string.
Variable JSON_byteLength : OutMessage -> Z.

(** Receiving never writes and never touches the sequence counter. *)

Lemma dispatch_writes_nothing body p :
  _sequence (fst (_dispatch JSON_parse body p)) = _sequence p
  /\ _outputStream (fst (_dispatch JSON_parse body p)) = _outputStream p.
Proof.
  unfold _dispatch.
  destruct (JSON_parse body) as [[text|rs text|sq cmd text|text]|message]; cbn; auto.
  destruct (existsb (Z.eqb rs) (_pendingRequests p)); cbn; auto.
Qed.

Lemma handleData_writes_nothing fuel :
  forall p,
    _sequence (fst (fst (_handleData utf8 JSON_parse fuel p))) = _sequence p
    /\ _outputStream (fst (fst (_handleData utf8 JSON_parse fuel p))) = _outputStream p.
Proof.
  induction fuel as [|fuel IH]; intros p; cbn [_handleData]; [cbn; auto|].
  destruct (0 <=? _contentLength p).
  - destruct (_contentLength p <=? buf_length (_rawData p)); [|cbn; auto].
    set (p1 := set_decoder (-1) _ p).
    set (message := utf8 _).
    destruct (0 <? js_length message).
    + pose proof (dispatch_writes_nothing message p1) as [Hs Ho].
      destruct (_dispatch JSON_parse message p1) as [p2 ups]; cbn in Hs, Ho.
      specialize (IH p2).
      destruct (_handleData utf8 JSON_parse fuel p2) as [[p3 done] ups'].
      cbn in *. destruct IH as [IHs IHo]. split; congruence.
    + specialize (IH p1).
      destruct (_handleData utf8 JSON_parse fuel p1) as [[p3 done] ups'].
      cbn in *. exact IH.
  - destruct (negb (indexOf (utf8 (_rawData p)) TWO_CRLF =? -1)); [|cbn; auto].
    destruct (ContentLength_exec (utf8 (_rawData p))) as [digits|]; [|cbn; auto].
    apply (IH (set_decoder _ _ p)).
Qed.

Lemma written_seqs_app a b :
  written_seqs (a ++ b) = written_seqs a ++ written_seqs b.
Proof.
  induction a as [|[len|m] a IH]; cbn; [reflexivity|exact IH|now rewrite IH].
Qed.

Lemma sendMessage_numbered typ message p :
  numbered p -> numbered (snd (_sendMessage JSON_byteLength typ message p)).
Proof.
  intros [Hseq Hout]. unfold numbered, _sendMessage. cbn.
  rewrite written_seqs_app. cbn.
  rewrite length_app. cbn.
  set (n := List.length (written_seqs (_outputStream p))) in *.
  split; [lia|].
  replace (n + 1)%nat with (S n) by lia.
  rewrite seq_S, map_app. cbn.
  rewrite <- Hout. f_equal. f_equal. lia.
Qed.

Lemma perform_numbered p o :
  numbered p -> numbered (perform utf8 JSON_parse JSON_byteLength p o).
Proof.
  intros H. destruct o as [command has_args|r|typ message|fuel data]; unfold perform.
  - unfold send, _doSend.
    pose proof (sendMessage_numbered request (blank_request command has_args) H) as H'.
    destruct (_sendMessage JSON_byteLength request (blank_request command has_args) p)
      as [req p']. cbn [snd] in H'. exact H'.
  - unfold sendResponse. destruct (0 <? resp_seq r); [exact H|].
    now apply sendMessage_numbered.
  - now apply sendMessage_numbered.
  - unfold onData.
    destruct (handleData_writes_nothing fuel
                (set_decoder (_contentLength p) (_rawData p ++ data) p)) as [Hs Ho].
    destruct H as [Hseq Hout]. unfold numbered.
    rewrite Hs, Ho. cbn. split; assumption.
Qed.

Lemma session_numbered operations :
  numbered (session utf8 JSON_parse JSON_byteLength operations).
Proof.
  unfold session.
  assert (H : numbered constructor) by (split; reflexivity).
  revert H. generalize constructor.
  induction operations as [|o operations IH]; intros p H; cbn; [exact H|].
  apply IH. now apply perform_numbered.
Qed.

(** C5: in every session of the transport (requests sent, responses sent,
    data received, in any order) the [seq] values written to the adapter
    are exactly 1, 2, 3, ... in the order of writing. *)
Theorem written_seq_is_dense operations :
  let written :=
    written_seqs (_outputStream (session utf8 JSON_parse JSON_byteLength operations)) in
  written = List.map Z.of_nat (seq 1 (List.length written)).
Proof.
  exact (proj2 (session_numbered operations)).
Qed.

(** C4, as the decoder behaves: when the buffered text holds a header
    terminator but no [Content-Length: <digits>] anywhere, the decoder
    leaves its loop at once, keeps the buffer and the header mode, and
    makes no call at all: no server error is reported. *)
Theorem header_without_length_is_left_waiting fuel data p :
  _contentLength p < 0 ->
  indexOf (utf8 (_rawData p ++ data)) TWO_CRLF <> -1 ->
  ContentLength_exec (utf8 (_rawData p ++ data)) = None ->
  onData utf8 JSON_parse (S fuel) data p
  = (set_decoder (_contentLength p) (_rawData p ++ data) p, true, []).
Proof.
  intros Hmode Hidx Hnone. unfold onData. cbn [_handleData].
  cbn [set_decoder _contentLength _rawData].
  replace (0 <=? _contentLength p) with false by (symmetry; apply Z.leb_gt; lia).
  rewrite Hnone.
  destruct (negb (indexOf (utf8 (_rawData p ++ data)) TWO_CRLF =? -1)); reflexivity.
Qed.

End Facts.

(** The hypotheses of [header_without_length_is_left_waiting] hold on a
    frame with a [Content-Type] header only. *)
Lemma header_without_length_is_left_waiting_witness :
  onData utf8_7bit reject_all 5 frame_without_length constructor
  = (set_decoder (-1) frame_without_length constructor, true, []).
Proof.
  apply (header_without_length_is_left_waiting utf8_7bit reject_all 4
           frame_without_length constructor).
  - cbn. lia.
  - vm_compute. discriminate.
  - vm_compute. reflexivity.
Defined.

(** C4 as stated fails: the buffer holds a complete header terminator, the
    header region has no [Content-Length] field, and the decoder reports
    no server error (it reports nothing and keeps waiting). *)
Lemma header_without_length_reports_no_error :
  let text := utf8_7bit frame_without_length in
  let '(p, left_loop, upcalls) :=
    onData utf8_7bit reject_all 100 frame_without_length constructor in
  indexOf text TWO_CRLF = 18
  /\ ContentLength_exec (header_region text) = None
  /\ left_loop = true
  /\ upcalls = []
  /\ _contentLength p = -1
  /\ _rawData p = frame_without_length.
Proof.
  vm_compute. repeat split; reflexivity.
Qed.

End TransportFacts.

(* ================================================================== *)
(** * Part IV: properties of the translator                            *)
(* ================================================================== *)

Module TranslatorFacts.
Import Translator.
Local Open Scope string_scope.
Local Open Scope list_scope.
Local Open Scope Z_scope.

(** ** Computations that leave an observation of the world unchanged *)

Section Preservation.

Context {X : Type} (observe : World -> X).

Lemma preserves_ret A (a : A) : preserves observe (ret a).
Proof. intros w. reflexivity. Qed.

Lemma preserves_throw A (e : string) : preserves observe (@throw A e).
Proof. intros w. reflexivity. Qed.

Lemma preserves_lift A (o : Outcome A) : preserves observe (lift o).
Proof. intros w. reflexivity. Qed.

Lemma preserves_get_this : preserves observe get_this.
Proof. intros w. reflexivity. Qed.

Lemma preserves_invariant b : preserves observe (invariant b).
Proof. destruct b; intros w; reflexivity. Qed.

Lemma preserves_bind A B (m : M A) (k : A -> M B) :
  preserves observe m -> (forall a, preserves observe (k a)) -> preserves observe (bind m k).
Proof.
  intros Hm Hk w. unfold bind. specialize (Hm w).
  destruct (m w) as [[a|e] w']; cbn in *.
  - rewrite Hk. exact Hm.
  - exact Hm.
Qed.

Lemma preserves_try_catch A (m : M A) (h : string -> M A) :
  preserves observe m -> (forall e, preserves observe (h e)) -> preserves observe (try_catch m h).
Proof.
  intros Hm Hh w. unfold try_catch. specialize (Hm w).
  destruct (m w) as [[a|e] w']; cbn in *.
  - exact Hm.
  - rewrite Hh. exact Hm.
Qed.

Lemma preserves_mapM A B (f : A -> M B) l :
  (forall a, preserves observe (f a)) -> preserves observe (mapM f l).
Proof.
  intros Hf. induction l as [|a l IH]; cbn [mapM].
  - apply preserves_ret.
  - apply preserves_bind; [apply Hf|]. intros b.
    apply preserves_bind; [exact IH|]. intros bs. apply preserves_ret.
Qed.

Lemma preserves_Promise_all A (promises : list (M A)) :
  Forall (preserves observe) promises -> preserves observe (Promise_all promises).
Proof.
  induction 1 as [|p ps Hp Hps IH]; intros w; cbn [Promise_all].
  - reflexivity.
  - specialize (Hp w). destruct (p w) as [o w1].
    specialize (IH w1). destruct (Promise_all ps w1) as [os w2].
    cbn in *. congruence.
Qed.

Lemma preserves_Promise_all_map A B (f : A -> M B) l :
  (forall a, preserves observe (f a)) -> preserves observe (Promise_all (List.map f l)).
Proof.
  intros Hf. apply preserves_Promise_all.
  induction l; cbn; constructor; auto.
Qed.

(** Requests and state changes are preserved by observations that do not
    look at them. *)
Lemma preserves_request A answer r :
  (forall t rs rs' s, observe {| this := t; requests := rs; sent := s |}
                      = observe {| this := t; requests := rs'; sent := s |}) ->
  preserves observe (@request A answer r).
Proof.
  intros Hobs [t rs s]. cbn. apply Hobs.
Qed.

Lemma preserves_modify_this f :
  (forall t rs s, observe {| this := f t; requests := rs; sent := s |}
                  = observe {| this := t; requests := rs; sent := s |}) ->
  preserves observe (modify_this f).
Proof.
  intros Hobs [t rs s]. cbn. apply Hobs.
Qed.

End Preservation.

Create HintDb preserve.

#[local] Hint Resolve preserves_ret preserves_throw preserves_lift
  preserves_get_this preserves_invariant : preserve.

(** Splits the preservation of a computation along its structure, after
    trying the lemmas already proved for its parts. *)
Ltac preserve :=
  repeat first
    [ solve [auto with preserve]
    | apply preserves_bind; [|intros ?]
    | apply preserves_try_catch; [|intros ?]
    | apply preserves_mapM; intros ?
    | apply preserves_Promise_all_map; intros ?
    | apply preserves_request; reflexivity
    | apply preserves_modify_this; reflexivity ].

Section Facts.

Variable session : VsDebugSession.
Variable registerFile : string -> Outcome unit.
Variable decodeURIComponent : string -> Outcome string.
Variable uriToPath : string -> string.
Variable pathToUri : string -> string.
Variable nuclideUri_basename : string -> string.
Variable nuclideUri_getPath : string -> string.
Variable Number : string -> JSNumber.

(** ** Stop events *)

(** Fetching and translating stacks sends nothing to the client. *)

Lemma getScopesForFrame_silent frameId :
  preserves sent (_getScopesForFrame session frameId).
Proof. unfold _getScopesForFrame. preserve. Qed.

Lemma translate_frame_silent frame :
  preserves sent (translate_frame session registerFile pathToUri frame).
Proof.
  unfold translate_frame. preserve.
Qed.
#[local] Hint Resolve translate_frame_silent : preserve.
#[local] Hint Resolve getScopesForFrame_silent : preserve.

Lemma getTranslatedCallFramesForThread_silent threadId levels :
  preserves sent
    (_getTranslatedCallFramesForThread session registerFile pathToUri threadId levels).
Proof.
  unfold _getTranslatedCallFramesForThread. preserve.
  destruct a as [stackFrames|]; preserve.
Qed.
#[local] Hint Resolve getTranslatedCallFramesForThread_silent : preserve.

Lemma pausedEvent_for_silent threadId reason i :
  preserves sent (pausedEvent_for session registerFile pathToUri threadId reason i).
Proof.
  unfold pausedEvent_for. preserve.
  destruct (strict_eq _ _); apply getTranslatedCallFramesForThread_silent.
Qed.
#[local] Hint Resolve pausedEvent_for_silent : preserve.

(** The subscriber sends at most one [Debugger.paused]. *)
Lemma deliver_pausedEvents_sends pausedEvents w :
  exists messages,
    sent (snd (deliver_pausedEvents pausedEvents w)) = sent w ++ messages
    /\ (count_Debugger_paused messages <= 1)%nat.
Proof.
  destruct w as [t rs s].
  unfold deliver_pausedEvents, bind, modify_this, get_this, _sendMessageToClient.
  cbn.
  destruct (pausedEvent_to_send pausedEvents (fold_left mark_paused pausedEvents t))
    as [pausedEvent|]; cbn.
  - rewrite <- app_assoc. eexists. split; [reflexivity|]. cbn. lia.
  - eexists. split; [reflexivity|]. cbn. lia.
Qed.

(** C2: the processing of one [stopped] event sends at most one
    [Debugger.paused] message to the client, whatever the threads it
    expands to, whatever the adapter answers, and also when a [continued]
    event ends the processing early. *)
Theorem stopped_event_sends_at_most_one_paused body continued w :
  exists messages,
    sent (snd (onStopped session registerFile pathToUri body continued w))
    = sent w ++ messages
    /\ (count_Debugger_paused messages <= 1)%nat.
Proof.
  unfold onStopped.
  set (threadId := se_threadId body). set (reason := se_reason body).
  unfold bind at 1. cbn [get_this fst snd].
  set (ids := stoppedThreadIds threadId _ (this w)).
  set (select := match _pausedThreadId (this w), ids with
                 | None, first :: _ => modify_this (_updatePausedThreadId (Some first))
                 | _, _ => ret tt
                 end).
  assert (Hselect : preserves sent select).
  { unfold select. destruct (_pausedThreadId (this w)); [preserve|].
    destruct ids; preserve. }
  unfold bind at 1. specialize (Hselect w).
  destruct (select w) as [[[]|e] w1]; cbn [snd] in *.
  2:{ exists []. rewrite app_nil_r. split; [exact Hselect|cbn; lia]. }
  assert (Hfetch : preserves sent
            (Promise_all (List.map
               (pausedEvent_for session registerFile pathToUri threadId reason) ids))).
  { apply preserves_Promise_all_map. intros i. apply pausedEvent_for_silent. }
  unfold bind. specialize (Hfetch w1).
  destruct (Promise_all _ w1) as [[pausedEvents|e] w2]; cbn [snd] in *.
  2:{ exists []. rewrite app_nil_r. split; [congruence|cbn; lia]. }
  destruct continued.
  - exists []. rewrite app_nil_r. split; [cbn; congruence|cbn; lia].
  - destruct (deliver_pausedEvents_sends pausedEvents w2) as (messages & Hsent & Hcount).
    exists messages. split; [congruence|exact Hcount].
Qed.

(** ** The active paused thread *)

Lemma updates_once_preserves A (m : M A) :
  preserves active m -> updates_once m.
Proof. intros H w. left. apply H. Qed.

Lemma updates_once_update arg :
  updates_once (modify_this (_updatePausedThreadId arg)).
Proof. intros [t rs s]. right. reflexivity. Qed.

Lemma updated_then_same w w1 w2 :
  updated w w1 -> active w2 = active w1 -> updated w w2.
Proof.
  unfold updated, active. intros [H|H] E; inversion E.
  - left. congruence.
  - right. congruence.
Qed.

Lemma same_then_updated w w1 w2 :
  active w1 = active w -> updated w1 w2 -> updated w w2.
Proof.
  unfold updated, active. intros E [H|H]; inversion E.
  - left. congruence.
  - right. congruence.
Qed.

Lemma updates_once_bind_first A B (m : M A) (k : A -> M B) :
  updates_once m -> (forall a, preserves active (k a)) -> updates_once (bind m k).
Proof.
  intros Hm Hk w. unfold bind. specialize (Hm w).
  destruct (m w) as [[a|e] w1]; cbn [snd] in *; [|exact Hm].
  eapply updated_then_same; [exact Hm|apply Hk].
Qed.

Lemma updates_once_bind_second A B (m : M A) (k : A -> M B) :
  preserves active m -> (forall a, updates_once (k a)) -> updates_once (bind m k).
Proof.
  intros Hm Hk w. unfold bind. specialize (Hm w).
  destruct (m w) as [[a|e] w1]; cbn [snd] in *; [|left; exact Hm].
  eapply same_then_updated; [exact Hm|apply Hk].
Qed.

Lemma updates_once_try_catch A (m : M A) (h : string -> M A) :
  updates_once m -> (forall e, preserves active (h e)) -> updates_once (try_catch m h).
Proof.
  intros Hm Hh w. unfold try_catch. specialize (Hm w).
  destruct (m w) as [[a|e] w1]; cbn [snd] in *; [exact Hm|].
  eapply updated_then_same; [exact Hm|apply Hh].
Qed.

Lemma sendMessageToClient_keeps_active message :
  preserves active (_sendMessageToClient message).
Proof. intros [t rs s]. reflexivity. Qed.

Lemma fold_mark_paused_keeps_active pausedEvents t :
  _pausedThreadId (fold_left mark_paused pausedEvents t) = _pausedThreadId t
  /\ _pausedThreadIdPrevious (fold_left mark_paused pausedEvents t)
     = _pausedThreadIdPrevious t.
Proof.
  revert t. induction pausedEvents as [|e l IH]; intros t; cbn [fold_left]; [auto|].
  destruct (IH (mark_paused t e)) as [-> ->].
  unfold mark_paused. destruct (stopThreadId e) as [i|]; [|auto].
  destruct (0 <=? i); auto.
Qed.

#[local] Hint Resolve sendMessageToClient_keeps_active : preserve.

(** The breakpoint handlers do not touch the flags. *)

Lemma sync_one_keeps_active pair :
  preserves active (sync_one pair).
Proof.
  destruct pair as [breakpoint vsBreakpoint]. unfold sync_one.
  preserve.
  destruct (breakpointId breakpoint); preserve.
  destruct (vs_id vsBreakpoint); unfold _nextBreakpointId; preserve.
Qed.
#[local] Hint Resolve sync_one_keeps_active : preserve.

Lemma syncBreakpointsForFilePath_keeps_active p breakpoints :
  preserves active (_syncBreakpointsForFilePath session nuclideUri_basename p breakpoints).
Proof.
  unfold _syncBreakpointsForFilePath. preserve.
  destruct (negb _); preserve.
Qed.
#[local] Hint Resolve syncBreakpointsForFilePath_keeps_active : preserve.

Lemma setBreakpointByUrl_response_keeps_active p pair :
  preserves active (setBreakpointByUrl_response p pair).
Proof.
  destruct pair as [command bp]. unfold setBreakpointByUrl_response.
  destruct (breakpointId bp); preserve.
Qed.
#[local] Hint Resolve setBreakpointByUrl_response_keeps_active : preserve.

Lemma setBreakpoints_group_keeps_active group :
  preserves active
    (setBreakpoints_group session registerFile uriToPath nuclideUri_basename group).
Proof.
  destruct group as [u commands]. unfold setBreakpoints_group. preserve.
Qed.
#[local] Hint Resolve setBreakpoints_group_keeps_active : preserve.

Lemma setBreakpoints_rest_keeps_active u p first commands breakpoints :
  preserves active
    (setBreakpoints_rest session registerFile nuclideUri_basename
       u p first commands breakpoints).
Proof.
  unfold setBreakpoints_rest. preserve.
Qed.
#[local] Hint Resolve setBreakpoints_rest_keeps_active : preserve.

(** What a group returns, the rest of its asynchronous function, does not
    touch the flags either. *)
Lemma setBreakpoints_group_rest_keeps_active group w rest w' :
  setBreakpoints_group session registerFile uriToPath nuclideUri_basename group w
  = (Ok rest, w') ->
  preserves active rest.
Proof.
  destruct group as [u commands].
  cbv [setBreakpoints_group bind get_this modify_this ret].
  intros E. inversion E; subst. apply setBreakpoints_rest_keeps_active.
Qed.

Lemma mapM_results A B (P : B -> Prop) (f : A -> M B) l :
  (forall a w b w', f a w = (Ok b, w') -> P b) ->
  forall w bs w', mapM f l w = (Ok bs, w') -> Forall P bs.
Proof.
  intros Hf. induction l as [|a l IH]; intros w bs w'; cbn [mapM].
  - unfold ret. intros E. inversion E. constructor.
  - unfold bind at 1. destruct (f a w) as [[b|e] w1] eqn:Ea; [|discriminate].
    unfold bind at 1. destruct (mapM f l w1) as [[bs'|e] w2] eqn:El; [|discriminate].
    unfold ret. intros E. inversion E; subst.
    constructor; [eapply Hf; eassumption|eapply IH; eassumption].
Qed.

Lemma setBulkBreakpoints_keeps_active commands :
  preserves active
    (_setBulkBreakpoints session registerFile decodeURIComponent uriToPath
       nuclideUri_basename commands).
Proof.
  unfold _setBulkBreakpoints.
  destruct (negb (isReadyForBreakpoints session)); [preserve|].
  destruct commands as [|c commands]; [preserve|].
  apply preserves_bind; [preserve|]. intros groups w.
  unfold bind.
  pose proof (preserves_mapM (observe := active)
                (setBreakpoints_group session registerFile uriToPath nuclideUri_basename)
                groups setBreakpoints_group_keeps_active w) as Hstage.
  destruct (mapM _ groups w) as [[pending|e] w1] eqn:Epending; cbn [snd] in *;
    [|exact Hstage].
  assert (Hall : Forall (preserves active) pending).
  { eapply mapM_results; [|exact Epending].
    intros a w0 b w0'. apply setBreakpoints_group_rest_keeps_active. }
  pose proof (preserves_Promise_all Hall w1) as Hrun.
  destruct (Promise_all pending w1) as [[responseGroups|e] w2]; cbn in *; congruence.
Qed.
#[local] Hint Resolve setBulkBreakpoints_keeps_active : preserve.

Lemma removeBreakpoint_keeps_active i :
  preserves active (_removeBreakpoint session nuclideUri_basename i).
Proof.
  unfold _removeBreakpoint. apply preserves_bind; [preserve|]. intros t.
  destruct (findIndex _ _ _) as [[idx found]|]; preserve.
Qed.
#[local] Hint Resolve removeBreakpoint_keeps_active : preserve.

Lemma getTranslatedCallFramesForThread_keeps_active threadId levels :
  preserves active
    (_getTranslatedCallFramesForThread session registerFile pathToUri threadId levels).
Proof.
  unfold _getTranslatedCallFramesForThread. preserve.
  destruct a as [stackFrames|]; preserve.
Qed.
#[local] Hint Resolve getTranslatedCallFramesForThread_keeps_active : preserve.

Lemma evaluateOnCallFrame_keeps_active expression frameId :
  preserves active (_evaluateOnCallFrame session expression frameId).
Proof. unfold _evaluateOnCallFrame. preserve. Qed.

(** Every command calls [_updatePausedThreadId] at most once. *)
Lemma handleCommands_updates_once command :
  updates_once
    (_handleCommands session registerFile decodeURIComponent uriToPath pathToUri
       nuclideUri_basename nuclideUri_getPath Number command).
Proof.
  unfold _handleCommands.
  destruct (method command) as
    [ | | |threadId| | | |location| | |params|i|threadId|callFrameId expression
      |expression|name];
    try (apply updates_once_preserves; unfold one, catchCommandError; preserve;
         fail).
  - (* Debugger.pause *)
    unfold one. apply updates_once_bind_first; [|intros; preserve].
    unfold catchCommandError. apply updates_once_try_catch; [|intros; preserve].
    unfold pause_handler. apply updates_once_bind_second; [preserve|]. intros t.
    apply updates_once_bind_first; [apply updates_once_update|]. intros; preserve.
  - (* Debugger.selectThread *)
    apply updates_once_bind_first; [apply updates_once_update|]. intros; preserve.
  - (* Debugger.stepOver *)
    apply updates_once_preserves. unfold one, catchCommandError, step_handler.
    preserve. destruct (_pausedThreadId a); preserve.
  - (* Debugger.stepInto *)
    apply updates_once_preserves. unfold one, catchCommandError, step_handler.
    preserve. destruct (_pausedThreadId a); preserve.
  - (* Debugger.stepOut *)
    apply updates_once_preserves. unfold one, catchCommandError, step_handler.
    preserve. destruct (_pausedThreadId a); preserve.
  - (* Debugger.getThreadStack *)
    apply updates_once_preserves. unfold one, getThreadStack_handler.
    apply preserves_bind; [|intros; preserve].
    apply preserves_bind; [preserve|]. intros t.
    apply preserves_bind; [|intros; preserve].
    destruct (map_get threadId (_threadsById t)) as [threadInfo|]; [|preserve].
    destruct (ThreadState_eqb (state threadInfo) paused); [|preserve].
    match goal with |- preserves _ (if ?c then _ else _) => destruct c end;
      preserve.
Qed.

(** Every adapter event calls [_updatePausedThreadId] at most once. *)

Lemma onThreadEvent_updates_once body :
  updates_once (onThreadEvent body).
Proof.
  unfold onThreadEvent.
  apply updates_once_bind_first; [|intros; preserve].
  destruct (String.eqb (te_reason body) "started");
    [apply updates_once_preserves; preserve|].
  destruct (String.eqb (te_reason body) "exited");
    [|apply updates_once_preserves; preserve].
  apply updates_once_bind_second; [preserve|]. intros _.
  apply updates_once_bind_second; [preserve|]. intros t.
  destruct (strict_eq _ _);
    [apply updates_once_update|apply updates_once_preserves; preserve].
Qed.

Lemma deliver_pausedEvents_keeps_active pausedEvents :
  preserves active (deliver_pausedEvents pausedEvents).
Proof.
  unfold deliver_pausedEvents.
  apply preserves_bind.
  - intros [t rs s]. unfold active. cbn.
    destruct (fold_mark_paused_keeps_active pausedEvents t) as [-> ->]. reflexivity.
  - intros _. preserve. destruct (pausedEvent_to_send _ _); preserve.
Qed.
#[local] Hint Resolve deliver_pausedEvents_keeps_active : preserve.

Lemma pausedEvent_for_keeps_active threadId reason i :
  preserves active (pausedEvent_for session registerFile pathToUri threadId reason i).
Proof.
  unfold pausedEvent_for. preserve. destruct (strict_eq _ _); preserve.
Qed.
#[local] Hint Resolve pausedEvent_for_keeps_active : preserve.

Lemma onStopped_updates_once body continued :
  updates_once (onStopped session registerFile pathToUri body continued).
Proof.
  unfold onStopped.
  apply updates_once_bind_second; [preserve|]. intros t.
  apply updates_once_bind_first.
  - destruct (_pausedThreadId t); [apply updates_once_preserves; preserve|].
    destruct (stoppedThreadIds _ _ _);
      [apply updates_once_preserves; preserve|apply updates_once_update].
  - intros _. preserve. destruct continued; preserve.
Qed.

Lemma onContinued_updates_once body :
  updates_once (onContinued body).
Proof.
  unfold onContinued.
  apply updates_once_bind_second; [preserve|]. intros t.
  apply updates_once_bind_first; [|intros; preserve].
  destruct (_ || _); [apply updates_once_update|apply updates_once_preserves; preserve].
Qed.

Lemma step_updates_once i :
  updates_once
    (step session registerFile decodeURIComponent uriToPath pathToUri
       nuclideUri_basename nuclideUri_getPath Number i).
Proof.
  destruct i as [command|body|body continued|body]; cbn [step].
  - unfold processCommand.
    apply updates_once_bind_first; [apply handleCommands_updates_once|].
    intros; preserve.
  - apply onThreadEvent_updates_once.
  - apply onStopped_updates_once.
  - apply onContinued_updates_once.
Qed.

Lemma flags_follow_step seen w w' :
  flags_follow seen w -> updated w w' -> flags_follow (seen ++ now_active w') w'.
Proof.
  intros (Hnone & Hprev & Hcur) Hup. unfold flags_follow, now_active.
  destruct Hup as [Hsame|Hnew].
  - unfold active in Hsame. inversion Hsame as [[Hc Hp]]. rewrite Hc, Hp.
    repeat split.
    + intros Hn a Ha. apply in_app_or in Ha. destruct Ha as [Ha|Ha]; [auto|].
      destruct (_pausedThreadId (this w)); cbn in Ha; [|contradiction].
      destruct Ha as [<-|[]]. reflexivity.
    + intros p Hp'. apply in_or_app. left. auto.
    + intros a Ha. apply in_or_app. left. auto.
  - rewrite Hnew. repeat split.
    + intros Hn a Ha.
      destruct (_pausedThreadId (this w)) as [old|] eqn:Eold; [discriminate|].
      apply in_app_or in Ha. destruct Ha as [Ha|Ha].
      * specialize (Hnone Hn a Ha). discriminate.
      * destruct (_pausedThreadId (this w')); cbn in Ha; [|contradiction].
        destruct Ha as [<-|[]]. reflexivity.
    + intros p Hp'. apply in_or_app. left.
      destruct (_pausedThreadId (this w)) as [old|] eqn:Eold.
      * inversion Hp'; subst. auto.
      * auto.
    + intros a Ha. apply in_or_app. right. rewrite Ha. left. reflexivity.
Qed.

Lemma active_threads_cons w history :
  active_threads (w :: history) = now_active w ++ active_threads history.
Proof. reflexivity. Qed.

Lemma flags_follow_trace inputs :
  forall seen w,
    flags_follow seen w ->
    let history :=
      trace session registerFile decodeURIComponent uriToPath pathToUri
            nuclideUri_basename nuclideUri_getPath Number inputs w in
    flags_follow (seen ++ active_threads history) (last history w).
Proof.
  induction inputs as [|i inputs IH]; intros seen w H; cbn [trace].
  - cbn. rewrite app_nil_r. exact H.
  - set (w' := snd (step _ _ _ _ _ _ _ _ i w)).
    cbn zeta. rewrite active_threads_cons, app_assoc.
    assert (H' : flags_follow (seen ++ now_active w') w').
    { apply flags_follow_step with (w := w); [exact H|apply step_updates_once]. }
    specialize (IH _ _ H'). cbn zeta in IH.
    replace (last (w' :: trace _ _ _ _ _ _ _ _ inputs w') w)
      with (last (trace session registerFile decodeURIComponent uriToPath pathToUri
                        nuclideUri_basename nuclideUri_getPath Number inputs w') w').
    + exact IH.
    + destruct (trace _ _ _ _ _ _ _ _ inputs w') as [|w1 l] eqn:E; [reflexivity|].
      cbn [last]. clear. revert w1. induction l as [|x l IHl]; intros w1;
        [reflexivity|]. cbn [last] in *. apply IHl.
Qed.

(** C7, the half that holds: in every session of a freshly constructed
    translator, once two distinct threads have been the active paused
    thread, [_pausedThreadIdPrevious] is non-null. *)
Theorem previous_thread_is_set_after_two_active adapterType inputs a b :
  let history :=
    trace session registerFile decodeURIComponent uriToPath pathToUri
          nuclideUri_basename nuclideUri_getPath Number inputs (start adapterType) in
  In a (active_threads history) ->
  In b (active_threads history) ->
  a <> b ->
  _pausedThreadIdPrevious (this (last history (start adapterType))) <> None.
Proof.
  intros history Ha Hb Hab Hnone.
  assert (H0 : flags_follow [] (start adapterType)).
  { repeat split; cbn; intros; try discriminate; contradiction. }
  destruct (flags_follow_trace inputs H0) as (Hsame & _ & _). cbn [app] in Hsame.
  fold history in Hsame.
  pose proof (Hsame Hnone a Ha) as Ea. pose proof (Hsame Hnone b Hb) as Eb.
  congruence.
Qed.

(** The value of [_pausedThreadIdPrevious] is always a thread that has been
    active. *)
Lemma previous_thread_has_been_active adapterType inputs p :
  let history :=
    trace session registerFile decodeURIComponent uriToPath pathToUri
          nuclideUri_basename nuclideUri_getPath Number inputs (start adapterType) in
  _pausedThreadIdPrevious (this (last history (start adapterType))) = Some p ->
  In p (active_threads history).
Proof.
  intros history Hp.
  assert (H0 : flags_follow [] (start adapterType)).
  { repeat split; cbn; intros; try discriminate; contradiction. }
  destruct (flags_follow_trace inputs H0) as (_ & Hprev & _). cbn [app] in Hprev.
  apply Hprev. exact Hp.
Qed.

(** ** Removing a breakpoint that is not in the ledger *)

Lemma findIndex_none A (f : A -> bool) l :
  (forall a, In a l -> f a = false) -> forall i, findIndex f l i = None.
Proof.
  induction l as [|a l IH]; intros Hf i; cbn [findIndex]; [reflexivity|].
  rewrite (Hf a (or_introl eq_refl)). apply IH. intros b Hb. apply Hf. now right.
Qed.

Lemma has_breakpointId_false i bp :
  breakpointId bp <> Some i -> has_breakpointId i bp = false.
Proof.
  unfold has_breakpointId. destruct (breakpointId bp) as [i'|]; [|reflexivity].
  intros H. apply String.eqb_neq. congruence.
Qed.

(** C9: a [Debugger.removeBreakpoint] whose id matches no record of the
    ledger is answered with an empty success response; no request goes to
    the adapter and the translator state is unchanged. *)
Theorem removeBreakpoint_of_unknown_id_changes_nothing command i w :
  method command = Debugger_removeBreakpoint i ->
  (forall bp, In bp (_breakpoints (this w)) -> breakpointId bp <> Some i) ->
  processCommand session registerFile decodeURIComponent uriToPath pathToUri
                 nuclideUri_basename nuclideUri_getPath Number command w
  = (Ok tt, {| this := this w;
               requests := requests w;
               sent := sent w ++ [getEmptyResponse (id command)] |}).
Proof.
  intros Hmethod Hunknown.
  assert (Hfind : findIndex (has_breakpointId i) (_breakpoints (this w)) 0%nat = None).
  { apply findIndex_none. intros bp Hbp. apply has_breakpointId_false. auto. }
  destruct w as [t rs s]. cbn [this requests sent] in *.
  unfold processCommand, _handleCommands. rewrite Hmethod.
  unfold one, catchCommandError, removeBreakpoint_handler, _removeBreakpoint.
  cbv [bind try_catch get_this this]. rewrite Hfind. reflexivity.
Qed.

(** ** Evaluation *)

(** C10: [Debugger.evaluateOnCallFrame] and [Runtime.evaluate] are always
    answered with a result response, never with an error response; when
    the adapter rejects the evaluate request, the result has type
    ['undefined'], [wasThrown] is true and [exceptionDetails] is the
    message of the rejection. *)
Theorem evaluation_is_always_answered_with_a_result command expression frameId w :
  evaluation_request Number (method command) = Some (expression, frameId) ->
  exists result,
    processCommand session registerFile decodeURIComponent uriToPath pathToUri
                   nuclideUri_basename nuclideUri_getPath Number command w
    = (Ok tt, {| this := this w;
                 requests := requests w ++ [evaluate expression frameId];
                 sent := sent w ++ [response (id command) (evaluate_result result)] |})
    /\ (forall message,
          evaluate_body session (requests w) (evaluate expression frameId)
          = Throw message ->
          ro_type (er_result result) = "undefined"
          /\ wasThrown result = true
          /\ exceptionDetails result = Some message).
Proof.
  intros Hmethod. destruct w as [t rs s]. cbn [this requests sent].
  unfold processCommand, _handleCommands.
  destruct (method command); try discriminate;
    cbn [evaluation_request] in Hmethod; inversion Hmethod; subst; clear Hmethod;
    unfold _evaluateOnCallFrame;
    cbv [bind try_catch request ret this requests sent mapM _sendMessageToClient];
    match goal with
    | |- context [evaluate_body session rs ?r] =>
        destruct (evaluate_body session rs r) as [body|e] eqn:Eanswer
    end;
    eexists; (split; [reflexivity|]); intros message Hthrow;
    inversion Hthrow; subst; cbn; auto.
Qed.

(** ** Lines and columns at the boundary *)

(** [Debugger.continueToLocation]: the line is sent plus one; the column is
    sent as it is, or as 1 when it is 0 or missing. *)
Lemma continueToLocation_request location w :
  registerFile (pathToUri (scriptId location)) = Ok tt ->
  requests (snd (_continueToLocation session registerFile pathToUri
                   nuclideUri_basename nuclideUri_getPath location w))
  = requests w
    ++ [nuclide_continueToLocation
          (nuclideUri_getPath (scriptId location))
          (nuclideUri_basename (scriptId location))
          (loc_lineNumber location + 1)
          (match columnNumber location with
           | Some c => if c =? 0 then 1 else c
           | None => 1
           end)
          (loc_threadId location)].
Proof.
  intros Hfile. unfold _continueToLocation. cbv [bind lift]. rewrite Hfile.
  reflexivity.
Qed.

(** Stack frames: line and column are reported minus one. *)
Lemma translate_frame_location frame w callFrame w' :
  translate_frame session registerFile pathToUri frame w = (Ok callFrame, w') ->
  loc_lineNumber (location callFrame) = frame_line frame - 1
  /\ columnNumber (location callFrame) = Some (frame_column frame - 1).
Proof.
  unfold translate_frame. cbv [bind lift].
  destruct (registerFile _) as [[]|e]; [|discriminate].
  destruct (_getScopesForFrame session (frame_id frame) w) as [[scopeChain|e] w1];
    [|discriminate].
  unfold ret. intros E. inversion E; subst. cbn. auto.
Qed.

(** The sync of one record that was just staged. *)
Lemma sync_one_staged bp vs w :
  breakpointId bp = None ->
  resolved bp = false ->
  exists bp' t',
    sync_one (bp, vs) w = (Ok bp', {| this := t'; requests := requests w; sent := sent w |})
    /\ breakpointId bp' <> None
    /\ lineNumber bp' = match vs_line vs with
                        | Some l => l
                        | None => lineNumber bp
                        end
    /\ resolved bp' = verified vs.
Proof.
  intros Hid Hres. destruct w as [t rs s]. unfold sync_one. rewrite Hid.
  destruct (vs_id vs) as [i|];
    cbv [bind ret _nextBreakpointId get_this modify_this this requests sent];
    do 2 eexists; (split; [reflexivity|]);
    unfold _tryUpdateBreakpoint; cbn [resolved with_breakpointId];
    rewrite Hres; cbn [negb andb];
    destruct (verified vs), (vs_line vs); cbn; repeat split; auto; discriminate.
Qed.

Lemma sync_one_succeeds pair w :
  exists bp' t',
    sync_one pair w = (Ok bp', {| this := t'; requests := requests w; sent := sent w |}).
Proof.
  destruct pair as [bp vs]. destruct w as [t rs s]. unfold sync_one.
  destruct (breakpointId bp); [|destruct (vs_id vs)];
    cbv [bind ret _nextBreakpointId get_this modify_this this requests sent];
    do 2 eexists; reflexivity.
Qed.

Lemma mapM_sync_one_succeeds pairs :
  forall w, exists synced t',
    mapM sync_one pairs w
    = (Ok synced, {| this := t'; requests := requests w; sent := sent w |}).
Proof.
  induction pairs as [|pair pairs IH]; intros w; cbn [mapM].
  - destruct w as [t rs s]. do 2 eexists. reflexivity.
  - destruct (sync_one_succeeds pair w) as (bp' & t1 & E1).
    unfold bind at 1. rewrite E1.
    destruct (IH {| this := t1; requests := requests w; sent := sent w |})
      as (synced & t2 & E2). cbn [requests sent] in E2.
    unfold bind at 1. rewrite E2. do 2 eexists. reflexivity.
Qed.

(** [Debugger.setBreakpointByUrl], once the session has started: the
    adapter is asked for the client's line plus one, after the lines of the
    records of the file that are kept; the client is told the line of the
    adapter's answer minus one, and column 0. *)
Lemma setBreakpointByUrl_answer command params w u vs0 vss :
  let p := uriToPath u in
  let line := req_lineNumber params + 1 in
  let kept :=
    filter (fun tBp => negb (existsb (Z.eqb (lineNumber tBp)) [line]))
           (_getBreakpointsForFilePath p (this w)) in
  let req :=
    setBreakpoints p (nuclideUri_basename p)
      (line :: List.map lineNumber kept)
      ((line, match req_condition params with Some c => c | None => "" end)
         :: List.map (fun bp => (lineNumber bp, condition bp)) kept) in
  method command = Debugger_setBreakpointByUrl params ->
  isReadyForBreakpoints session = true ->
  decodeURIComponent (url params) = Ok u ->
  registerFile u = Ok tt ->
  setBreakpoints_body session (requests w) req = Ok (vs0 :: vss) ->
  List.length vss = List.length kept ->
  exists breakpointId w',
    _handleCommands session registerFile decodeURIComponent uriToPath pathToUri
                    nuclideUri_basename nuclideUri_getPath Number command w
    = (Ok [response (id command)
             (setBreakpointByUrl_result
                {| sb_breakpointId := breakpointId;
                   sb_locations :=
                     [nuclideDebuggerLocation p
                        (match vs_line vs0 with Some l => l | None => line end - 1) 0];
                   sb_resolved := verified vs0 |})], w')
    /\ requests w' = requests w ++ [req].
Proof.
  intros p line kept req Hmethod Hready Hdecode Hfile Hanswer Hcount.
  destruct w as [t rs s]. cbn [this requests] in *.
  unfold _handleCommands. rewrite Hmethod.
  unfold setBreakpointByUrl_handler, _setBulkBreakpoints. rewrite Hready. cbn [negb].
  unfold try_catch. unfold bind at 1. unfold lift. cbn [groupByUrl snd].
  rewrite Hdecode. cbn [group_push mapM].
  unfold bind at 1. unfold bind at 1. unfold setBreakpoints_group at 1.
  cbv [bind get_this modify_this ret this requests sent].
  cbn [Promise_all].
  unfold setBreakpoints_rest. cbv [lift]. unfold bind at 1. rewrite Hfile.
  unfold _syncBreakpointsForFilePath. unfold bind at 1. unfold bind at 1.
  unfold request at 1. cbn [this requests sent List.map app].
  fold p. fold line.
  change (newTranslatorBp p (id command, params))
    with {| breakpointId := None; path := p; lineNumber := line;
            condition := match req_condition params with Some c => c | None => "" end;
            resolved := false; hitCount := 0 |}.
  cbn [lineNumber condition]. fold kept. fold req. rewrite Hanswer.
  cbn [List.length]. rewrite Hcount, Nat.eqb_refl. cbn [negb combine mapM].
  set (fresh := {| breakpointId := None; path := p; lineNumber := line;
                   condition := _; resolved := false; hitCount := 0 |}).
  set (w1 := {| this := _; requests := rs ++ [req]; sent := s |}).
  destruct (sync_one_staged fresh vs0 w1 eq_refl eq_refl)
    as (bp' & t1 & Esync & Hid & Hline & Hresolved).
  unfold bind at 1. rewrite Esync.
  destruct (mapM_sync_one_succeeds (combine kept vss)
              {| this := t1; requests := requests w1; sent := sent w1 |})
    as (synced & t2 & Erest).
  unfold bind at 1. rewrite Erest.
  cbv [ret modify_this this requests sent]. cbn [firstn combine mapM List.length].
  unfold bind at 1. unfold setBreakpointByUrl_response at 1.
  destruct (breakpointId bp') as [i|] eqn:Ei; [|congruence].
  cbv [bind ret]. cbn [List.concat app fst].
  exists i. eexists. split.
  - rewrite Hline, Hresolved. reflexivity.
  - reflexivity.
Qed.

(** C6, as the code converts: lines cross the boundary plus one towards
    the adapter and minus one towards the client, for
    [Debugger.continueToLocation], for [Debugger.setBreakpointByUrl] (whose
    response reports the line of the adapter's answer minus one, so that a
    line that the adapter keeps comes back to the client as it was sent)
    and for stack frames.  Columns do not: [Debugger.continueToLocation]
    sends the client's column as it is, or 1 when it is 0 or missing;
    [Debugger.setBreakpointByUrl] answers column 0; stack frames report the
    adapter's column minus one. *)
Theorem lines_are_shifted_by_one_and_columns_are_not :
  (forall location w,
      registerFile (pathToUri (scriptId location)) = Ok tt ->
      requests (snd (_continueToLocation session registerFile pathToUri
                       nuclideUri_basename nuclideUri_getPath location w))
      = requests w
        ++ [nuclide_continueToLocation
              (nuclideUri_getPath (scriptId location))
              (nuclideUri_basename (scriptId location))
              (loc_lineNumber location + 1)
              (match columnNumber location with
               | Some c => if c =? 0 then 1 else c
               | None => 1
               end)
              (loc_threadId location)])
  /\ (forall command params w u vs0 vss,
         let p := uriToPath u in
         let line := req_lineNumber params + 1 in
         let kept :=
           filter (fun tBp => negb (existsb (Z.eqb (lineNumber tBp)) [line]))
                  (_getBreakpointsForFilePath p (this w)) in
         let req :=
           setBreakpoints p (nuclideUri_basename p)
             (line :: List.map lineNumber kept)
             ((line, match req_condition params with Some c => c | None => "" end)
                :: List.map (fun bp => (lineNumber bp, condition bp)) kept) in
         let answered := match vs_line vs0 with Some l => l | None => line end in
         method command = Debugger_setBreakpointByUrl params ->
         isReadyForBreakpoints session = true ->
         decodeURIComponent (url params) = Ok u ->
         registerFile u = Ok tt ->
         setBreakpoints_body session (requests w) req = Ok (vs0 :: vss) ->
         List.length vss = List.length kept ->
         (exists breakpointId w',
             _handleCommands session registerFile decodeURIComponent uriToPath pathToUri
                             nuclideUri_basename nuclideUri_getPath Number command w
             = (Ok [response (id command)
                      (setBreakpointByUrl_result
                         {| sb_breakpointId := breakpointId;
                            sb_locations := [nuclideDebuggerLocation p (answered - 1) 0];
                            sb_resolved := verified vs0 |})], w')
             /\ requests w' = requests w ++ [req])
         /\ (answered = line -> answered - 1 = req_lineNumber params))
  /\ (forall frame w callFrame w',
         translate_frame session registerFile pathToUri frame w = (Ok callFrame, w') ->
         loc_lineNumber (location callFrame) = frame_line frame - 1
         /\ columnNumber (location callFrame) = Some (frame_column frame - 1)).
Proof.
  split; [exact continueToLocation_request|].
  split; [|exact translate_frame_location].
  intros command params w u vs0 vss p line kept req answered
         Hmethod Hready Hdecode Hfile Hanswer Hcount.
  split.
  - exact (@setBreakpointByUrl_answer command params w u vs0 vss
             Hmethod Hready Hdecode Hfile Hanswer Hcount).
  - unfold line. intros ->. lia.
Qed.

(** ** The thread of a pause request *)

(** What [Debugger.pause] asks the adapter, and that the active thread is
    cleared whatever the adapter answers. *)
Lemma pause_request_and_clear command w :
  method command = Debugger_pause ->
  let w' :=
    snd (processCommand session registerFile decodeURIComponent uriToPath pathToUri
                        nuclideUri_basename nuclideUri_getPath Number command w) in
  requests w'
  = requests w
    ++ [pause match _pausedThreadId (this w) with
              | Some active => active
              | None =>
                  match hd_error (map_keys (_threadsById (this w))) with
                  | Some first => if first =? 0 then -1 else first
                  | None => -1
                  end
              end]
  /\ _pausedThreadId (this w') = None.
Proof.
  intros Hmethod. destruct w as [t rs s]. cbn [this requests].
  unfold processCommand, _handleCommands. rewrite Hmethod.
  unfold one, catchCommandError, pause_handler.
  cbv [bind try_catch get_this modify_this request this requests sent].
  destruct (acknowledge session _ _) as [[]|e]; cbn; auto.
Qed.

(** ** The stack requests of a stop event *)

Lemma extends_of_preserves A (m : M A) : preserves requests m -> extends m.
Proof. intros H w. exists []. rewrite app_nil_r. apply H. Qed.

Lemma extends_request A answer r : extends (@request A answer r).
Proof. intros [t rs s]. exists [r]. reflexivity. Qed.

Lemma extends_bind A B (m : M A) (k : A -> M B) :
  extends m -> (forall a, extends (k a)) -> extends (bind m k).
Proof.
  intros Hm Hk w. unfold bind. destruct (Hm w) as (more & E).
  destruct (m w) as [[a|e] w1]; cbn [snd] in *; [|eauto].
  destruct (Hk a w1) as (more' & E'). exists (more ++ more').
  rewrite E', E. now rewrite app_assoc.
Qed.

Lemma extends_try_catch A (m : M A) (h : string -> M A) :
  extends m -> (forall e, extends (h e)) -> extends (try_catch m h).
Proof.
  intros Hm Hh w. unfold try_catch. destruct (Hm w) as (more & E).
  destruct (m w) as [[a|e] w1]; cbn [snd] in *; [eauto|].
  destruct (Hh e w1) as (more' & E'). exists (more ++ more').
  rewrite E', E. now rewrite app_assoc.
Qed.

Lemma extends_Promise_all_map A B (f : A -> M B) l :
  (forall a, extends (f a)) -> extends (Promise_all (List.map f l)).
Proof.
  intros Hf. induction l as [|a l IH]; intros w; cbn [List.map Promise_all].
  - exists []. now rewrite app_nil_r.
  - destruct (Hf a w) as (more & E). destruct (f a w) as [o w1].
    destruct (IH w1) as (more' & E'). destruct (Promise_all _ w1) as [os w2].
    cbn [snd] in *. exists (more ++ more'). rewrite E', E. now rewrite app_assoc.
Qed.

Lemma translate_frame_extends frame :
  extends (translate_frame session registerFile pathToUri frame).
Proof.
  unfold translate_frame.
  apply extends_bind; [apply extends_of_preserves; preserve|]. intros _.
  apply extends_bind; [|intros; apply extends_of_preserves; preserve].
  unfold _getScopesForFrame.
  apply extends_try_catch; [|intros; apply extends_of_preserves; preserve].
  apply extends_bind; [apply extends_request|].
  intros; apply extends_of_preserves; preserve.
Qed.

(** The first request of [_getTranslatedCallFramesForThread] is the stack
    trace request, with the options of its [levels]. *)
Lemma getTranslatedCallFramesForThread_request threadId levels w :
  exists more,
    requests (snd (_getTranslatedCallFramesForThread session registerFile pathToUri
                     threadId levels w))
    = requests w
      ++ stackTrace threadId (fst (stackTrace_options session levels))
                             (snd (stackTrace_options session levels)) :: more.
Proof.
  destruct w as [t rs s]. unfold _getTranslatedCallFramesForThread.
  set (options := stackTrace_options session levels).
  unfold bind at 1. unfold try_catch, bind at 1, request at 1. cbn [requests this sent].
  set (w1 := {| this := t; requests := rs ++ [_]; sent := s |}).
  destruct (stackTrace_body session rs _) as [stackFrames|e]; cbn [ret].
  - destruct (extends_Promise_all_map
                (translate_frame session registerFile pathToUri) stackFrames
                translate_frame_extends w1) as (more & E).
    exists more. rewrite E. cbn [w1 requests]. now rewrite <- app_assoc.
  - exists []. reflexivity.
Qed.

(** For every stopped thread [i], the stack is asked with options that do
    not depend on [i]: they are chosen by comparing the active thread with
    the thread of the event. *)
Lemma pausedEvent_for_request threadId reason i w :
  let levels :=
    if strict_eq (_pausedThreadId (this w)) threadId then None else Some 1 in
  exists more,
    requests (snd (pausedEvent_for session registerFile pathToUri threadId reason i w))
    = requests w
      ++ stackTrace i (fst (stackTrace_options session levels))
                      (snd (stackTrace_options session levels)) :: more.
Proof.
  intros levels. unfold pausedEvent_for.
  unfold bind at 1. unfold try_catch. unfold bind at 1. cbn [get_this fst snd].
  assert (Hfetch : exists more,
             requests (snd (_getTranslatedCallFramesForThread session registerFile
                              pathToUri i levels w))
             = requests w
               ++ stackTrace i (fst (stackTrace_options session levels))
                               (snd (stackTrace_options session levels)) :: more)
    by apply getTranslatedCallFramesForThread_request.
  replace (if strict_eq (_pausedThreadId (this w)) threadId
           then _getTranslatedCallFramesForThread session registerFile pathToUri i None
           else _getTranslatedCallFramesForThread session registerFile pathToUri i (Some 1))
    with (_getTranslatedCallFramesForThread session registerFile pathToUri i levels)
    by (unfold levels; destruct (strict_eq _ _); reflexivity).
  destruct Hfetch as (more & E).
  destruct (_getTranslatedCallFramesForThread _ _ _ i levels w) as [[frames|e] w1];
    cbn [snd] in *; exists more; exact E.
Qed.

(** ** Staging never removes a record *)

Lemma sync_one_keeps_ledger pair : preserves ledger (sync_one pair).
Proof.
  destruct pair as [breakpoint vsBreakpoint]. unfold sync_one. preserve.
  destruct (breakpointId breakpoint); preserve.
  destruct (vs_id vsBreakpoint); unfold _nextBreakpointId; preserve.
Qed.
#[local] Hint Resolve sync_one_keeps_ledger : preserve.

Lemma sync_one_path pair w bp' w' :
  sync_one pair w = (Ok bp', w') -> path bp' = path (fst pair).
Proof.
  destruct pair as [bp vs]. unfold sync_one.
  destruct (breakpointId bp); [|destruct (vs_id vs)];
    cbv [bind ret _nextBreakpointId get_this modify_this];
    intros E; inversion E; subst; unfold _tryUpdateBreakpoint;
    repeat match goal with |- context [if ?c then _ else _] => destruct c end;
    destruct (vs_line vs); reflexivity.
Qed.

(** Whatever the file cache and the adapter answer, a
    [Debugger.setBreakpointByUrl] in a started session leaves the ledger
    with all its former records, in place, and one more record for the
    path of the command. *)
Lemma staging_appends_to_the_ledger command params w u :
  method command = Debugger_setBreakpointByUrl params ->
  isReadyForBreakpoints session = true ->
  decodeURIComponent (url params) = Ok u ->
  exists r,
    ledger (snd (_handleCommands session registerFile decodeURIComponent uriToPath
                   pathToUri nuclideUri_basename nuclideUri_getPath Number command w))
    = ledger w ++ [r]
    /\ path r = uriToPath u.
Proof.
  intros Hmethod Hready Hdecode.
  destruct w as [t rs s]. unfold ledger. cbn [this].
  unfold _handleCommands. rewrite Hmethod.
  unfold setBreakpointByUrl_handler, _setBulkBreakpoints. rewrite Hready. cbn [negb].
  unfold try_catch. unfold bind at 1. unfold lift. cbn [groupByUrl snd].
  rewrite Hdecode. cbn [group_push mapM].
  unfold bind at 1. unfold bind at 1. unfold setBreakpoints_group at 1.
  cbv [bind get_this modify_this ret this requests sent].
  cbn [Promise_all List.map app].
  set (fresh := newTranslatorBp (uriToPath u) (id command, params)).
  set (kept := filter _ _).
  set (w1 := {| this := with_breakpoints (_breakpoints t ++ [fresh]) t;
                requests := rs; sent := s |}).
  assert (Hw1 : ledger w1 = _breakpoints t ++ [fresh]) by reflexivity.
  unfold setBreakpoints_rest. unfold lift. unfold bind at 1.
  destruct (registerFile u) as [[]|e]; [|cbn; exists fresh; split; reflexivity].
  unfold _syncBreakpointsForFilePath. unfold bind at 1. unfold bind at 1.
  unfold request at 1.
  set (w2 := {| this := this w1; requests := _; sent := sent w1 |}).
  assert (Hw2 : ledger w2 = _breakpoints t ++ [fresh]) by reflexivity.
  destruct (setBreakpoints_body session _ _) as [vsBreakpoints|e];
    [|cbn; exists fresh; split; reflexivity].
  destruct vsBreakpoints as [|vs0 vss]; [cbn; exists fresh; split; reflexivity|].
  destruct (negb _); [cbn; exists fresh; split; reflexivity|].
  cbn [combine mapM]. unfold bind at 1.
  pose proof (sync_one_keeps_ledger (fresh, vs0) w2) as Hl3.
  destruct (sync_one (fresh, vs0) w2) as [[bp'|e] w3] eqn:Esync;
    [|destruct (sync_one_succeeds (fresh, vs0) w2) as (? & ? & E); congruence].
  apply sync_one_path in Esync. cbn [fst snd] in *.
  pose proof (preserves_mapM (observe := ledger) sync_one (combine kept vss)
                sync_one_keeps_ledger w3) as Hl4.
  unfold bind at 1.
  destruct (mapM sync_one (combine kept vss) w3) as [[synced|e] w4] eqn:Erest;
    [|destruct (mapM_sync_one_succeeds (combine kept vss) w3) as (? & ? & E); congruence].
  cbn [snd] in Hl4. unfold ret at 1. unfold modify_this at 1.
  cbn [List.length firstn combine mapM].
  unfold bind at 1. cbv beta iota.
  set (w5 := {| this := write_back (List.length (_breakpoints t)) [bp'] (this w4);
                requests := requests w4; sent := sent w4 |}).
  assert (Hw5 : ledger w5 = _breakpoints t ++ [bp']).
  { unfold w5, ledger, write_back. cbn [this with_breakpoints _breakpoints].
    unfold ledger in Hl3, Hl4. rewrite Hl4, Hl3. cbn [w2 w1 this].
    cbn [with_breakpoints _breakpoints].
    rewrite firstn_app, firstn_all, Nat.sub_diag. cbn [firstn].
    rewrite skipn_all2 by (rewrite length_app; cbn; lia).
    now rewrite !app_nil_r. }
  unfold bind at 1. unfold setBreakpointByUrl_response.
  destruct (breakpointId bp'); cbn; exists bp'; (split; [exact Hw5|exact Esync]).
Qed.

End Facts.

(** ** Sample sessions *)

Import Scenarios.

(** The hypotheses of [previous_thread_is_set_after_two_active] hold when
    threads 1 and 2 are selected in turn. *)
Lemma previous_thread_is_set_after_two_active_witness :
  _pausedThreadIdPrevious (this (last (history select_two node) node)) <> None.
Proof.
  apply (@previous_thread_is_set_after_two_active
           adapter register_ok decode_ok same same same same Number_NaN
           (other_adapter "node") select_two 1 2).
  - vm_compute. auto.
  - vm_compute. auto.
  - discriminate.
Defined.

(** C7 as stated fails: after thread 1 is selected and a pause is asked,
    [_pausedThreadIdPrevious] is non-null although thread 1 is the only
    thread that has ever been active. *)
Lemma previous_thread_is_set_with_one_active_thread :
  let worlds := history select_then_pause node in
  _pausedThreadIdPrevious (this (last worlds node)) = Some 1
  /\ active_threads worlds = [1]
  /\ ~ (exists a b, In a (active_threads worlds)
                    /\ In b (active_threads worlds) /\ a <> b).
Proof.
  split; [reflexivity|]. split; [reflexivity|].
  intros (a & b & Ha & Hb & Hab). vm_compute in Ha, Hb.
  destruct Ha as [<-|[]], Hb as [<-|[]]. apply Hab. reflexivity.
Qed.

(** The hypotheses of [removeBreakpoint_of_unknown_id_changes_nothing] hold
    in the ledger left by [stage_twice], whose records have ids 1 and 2. *)
Lemma removeBreakpoint_of_unknown_id_changes_nothing_witness :
  let w := snd (play stage_twice node) in
  let command := {| id := 9; method := Debugger_removeBreakpoint "5" |} in
  processCommand adapter register_ok decode_ok same same same same Number_NaN command w
  = (Ok tt, {| this := this w; requests := requests w;
               sent := sent w ++ [getEmptyResponse 9] |}).
Proof.
  apply (@removeBreakpoint_of_unknown_id_changes_nothing
           adapter register_ok decode_ok same same same same Number_NaN
           {| id := 9; method := Debugger_removeBreakpoint "5" |}
           "5" (snd (play stage_twice node))).
  - reflexivity.
  - intros bp Hbp. vm_compute in Hbp.
    destruct Hbp as [<-|[<-|[]]]; discriminate.
Defined.

(** The hypothesis of [evaluation_is_always_answered_with_a_result] holds
    for a [Runtime.evaluate] command; the sample adapter rejects it. *)
Lemma evaluation_is_always_answered_with_a_result_witness :
  exists result,
    processCommand adapter register_ok decode_ok same same same same Number_NaN
                   {| id := 4; method := Runtime_evaluate "x + 1" |} node
    = (Ok tt, {| this := this node;
                 requests := requests node ++ [evaluate "x + 1" None];
                 sent := sent node ++ [response 4 (evaluate_result result)] |})
    /\ (forall message,
          evaluate_body adapter (requests node) (evaluate "x + 1" None) = Throw message ->
          ro_type (er_result result) = "undefined"
          /\ wasThrown result = true
          /\ exceptionDetails result = Some message).
Proof.
  apply (@evaluation_is_always_answered_with_a_result
           adapter register_ok decode_ok same same same same Number_NaN
           {| id := 4; method := Runtime_evaluate "x + 1" |} "x + 1" None node).
  reflexivity.
Defined.

(** C6 as stated fails: for the client's column 5 the adapter is sent
    column 5, not 5 + 1; converted back by minus one it would be 4. *)
Lemma continueToLocation_sends_the_column_unchanged :
  columnNumber line_3_column_5 = Some 5
  /\ requests (snd (_continueToLocation adapter register_ok same same same
                      line_3_column_5 node))
     = [nuclide_continueToLocation "/src/a.js" "/src/a.js" (3 + 1) 5 None]
  /\ 5 <> 5 + 1
  /\ 5 - 1 <> 5.
Proof.
  split; [reflexivity|]. split; [reflexivity|]. split; discriminate.
Qed.

(** The three parts of [lines_are_shifted_by_one_and_columns_are_not] on
    sample inputs: a location on line 3, a breakpoint on line 10 that the
    adapter verifies on its line 11, and a frame on line 8, column 3. *)
Lemma lines_are_shifted_by_one_and_columns_are_not_witness :
  requests (snd (_continueToLocation adapter register_ok same same same
                   line_3_column_5 node))
  = [nuclide_continueToLocation "/src/a.js" "/src/a.js" 4 5 None]
  /\ (exists breakpointId w',
         _handleCommands adapter register_ok decode_ok same same same same Number_NaN
           {| id := 1;
              method := Debugger_setBreakpointByUrl
                          {| url := "/src/a.js"; req_lineNumber := 10;
                             req_columnNumber := Some 4; req_condition := None |} |} node
         = (Ok [response 1
                  (setBreakpointByUrl_result
                     {| sb_breakpointId := breakpointId;
                        sb_locations := [nuclideDebuggerLocation "/src/a.js" 10 0];
                        sb_resolved := true |})], w')
         /\ requests w' = [setBreakpoints "/src/a.js" "/src/a.js" [11] [(11, "")]])
  /\ (forall callFrame w',
         translate_frame adapter register_ok same
           {| frame_id := 2; frame_name := "main"; frame_source := None;
              frame_line := 8; frame_column := 3 |} node = (Ok callFrame, w') ->
         loc_lineNumber (location callFrame) = 7
         /\ columnNumber (location callFrame) = Some 2).
Proof.
  destruct (lines_are_shifted_by_one_and_columns_are_not
              adapter register_ok decode_ok same same same same Number_NaN)
    as (Hcontinue & Hbreakpoint & Hframe).
  split; [|split].
  - apply (Hcontinue line_3_column_5 node). reflexivity.
  - apply (Hbreakpoint
             {| id := 1;
                method := Debugger_setBreakpointByUrl
                            {| url := "/src/a.js"; req_lineNumber := 10;
                               req_columnNumber := Some 4; req_condition := None |} |}
             {| url := "/src/a.js"; req_lineNumber := 10;
                req_columnNumber := Some 4; req_condition := None |}
             node "/src/a.js"
             {| vs_id := None; verified := true; vs_line := Some 11 |} []);
      reflexivity.
  - intros callFrame w' E.
    apply (Hframe {| frame_id := 2; frame_name := "main"; frame_source := None;
                     frame_line := 8; frame_column := 3 |} node callFrame w' E).
Defined.

(** C1 on the code: staging line 10 of a file twice leaves two records
    with the same path and line in the ledger, while each sync asks the
    adapter for the line once. *)
Theorem staging_a_line_twice_leaves_two_records :
  let w := snd (play stage_twice node) in
  ledger_keys (this w) = [("/src/a.js", 11); ("/src/a.js", 11)]
  /\ ~ NoDup (ledger_keys (this w))
  /\ requests w = [setBreakpoints "/src/a.js" "/src/a.js" [11] [(11, "")];
                   setBreakpoints "/src/a.js" "/src/a.js" [11] [(11, "")]].
Proof.
  split; [reflexivity|]. split; [|reflexivity].
  intros H. vm_compute in H. inversion H as [|x l Hin _]. apply Hin. now left.
Qed.

(** The record that was superseded comes back: when the newer record is
    removed, the older one is synced to the adapter again. *)
Lemma removing_the_newer_record_syncs_the_older_one :
  let remove := client_command {| id := 3; method := Debugger_removeBreakpoint "2" |} in
  let w := snd (play (stage_twice ++ [remove]) node) in
  List.map breakpointId (_breakpoints (this w)) = [Some "1"]
  /\ last (requests w) (pause 0)
     = setBreakpoints "/src/a.js" "/src/a.js" [11] [(11, "")].
Proof.
  split; reflexivity.
Qed.

(** C3 on the code: when thread 1 stops and all threads are reported
    stopped, the stack of thread 2, which is not the active thread, is
    asked without [levels] although the adapter supports delayed loading;
    when the stop names no thread, the stack of the active thread 1 is
    asked with [levels = 1], and the thread is marked as fully loaded. *)
Theorem every_stopped_thread_is_fetched_like_the_thread_of_the_event :
  let w := snd (play stop_all_on_thread_1 node) in
  let w' := snd (play stop_all_without_thread node) in
  supportsDelayedStackTraceLoading adapter = true
  /\ _pausedThreadId (this w) = Some 1
  /\ requests w = [stackTrace 1 None None; stackTrace 2 None None]
  /\ _pausedThreadId (this w') = Some 1
  /\ requests w' = [stackTrace 1 (Some 1) (Some 0); stackTrace 2 (Some 1) (Some 0)]
  /\ option_map callStackLoaded (map_get 1 (_threadsById (this w'))) = Some true.
Proof.
  repeat split; reflexivity.
Qed.

(** C8 on the code: with no active thread and thread 0 as the first known
    thread, the pause request names thread -1. *)
Theorem pause_with_first_thread_0_names_thread_minus_1 :
  let w := snd (play [started 0] node) in
  let w' := snd (play pause_with_thread_0 node) in
  _pausedThreadId (this w) = None
  /\ map_keys (_threadsById (this w)) = [0]
  /\ requests w' = [pause (-1)].
Proof.
  repeat split; reflexivity.
Qed.

End TranslatorFacts.

(* ================================================================== *)
(** * Part V: frames and pending requests of the transport             *)
(* ================================================================== *)

Module FramingFacts.
Import V8Protocol Framing.

Section Decoder.

Variable utf8 : Buffer -> jsstring.
Variable JSON_parse : jsstring -> RawData + string.
Variable JSON_byteLength : OutMessage -> Z.

(** ** The loop of the decoder stops *)

Lemma dispatch_keeps_decoder body p :
  _rawData (fst (_dispatch JSON_parse body p)) = _rawData p
  /\ _contentLength (fst (_dispatch JSON_parse body p)) = _contentLength p.
Proof.
  unfold _dispatch.
  destruct (JSON_parse body) as [[text|rs text|sq cmd text|text]|message]; cbn; auto.
  destruct (existsb (Z.eqb rs) (_pendingRequests p)); cbn; auto.
Qed.

Lemma indexOf_from_bounds s needle :
  forall i, indexOf_from s needle i = -1 \/ i <= indexOf_from s needle i.
Proof.
  induction s as [|c s IH]; intros i; cbn [indexOf_from].
  - destruct (startsWith [] needle); [right; lia|left; reflexivity].
  - destruct (startsWith (c :: s) needle); [right; lia|].
    destruct (IH (i + 1)) as [H|H]; [left; exact H|right; lia].
Qed.

Lemma indexOf_nil needle : needle <> [] -> indexOf [] needle = -1.
Proof. destruct needle; [congruence|reflexivity]. Qed.

(** Once the loop has left through [break], more iterations change
    nothing. *)
Lemma handleData_more_fuel fuel :
  forall p p' ups,
    _handleData utf8 JSON_parse fuel p = (p', true, ups) ->
    forall k, _handleData utf8 JSON_parse (fuel + k) p = (p', true, ups).
Proof.
  induction fuel as [|fuel IH]; intros p p' ups E k; [discriminate|].
  cbn [_handleData Nat.add] in *.
  destruct (0 <=? _contentLength p).
  - destruct (_contentLength p <=? buf_length (_rawData p)); [|exact E].
    destruct (if 0 <? js_length _ then _ else _) as [p2 ups2].
    destruct (_handleData utf8 JSON_parse fuel p2) as [[p3 done] ups3] eqn:E3.
    inversion E; subst. rewrite (IH _ _ _ E3 k). reflexivity.
  - destruct (negb _); [|exact E].
    destruct (ContentLength_exec _); [|exact E].
    apply IH. exact E.
Qed.

Lemma handleData_leaves fuel :
  utf8 [] = [] ->
  forall p,
    (2 * List.length (_rawData p) + (if (0 <=? _contentLength p)%Z then 1 else 0) < fuel)%nat ->
    snd (fst (_handleData utf8 JSON_parse fuel p)) = true.
Proof.
  intros Hempty. induction fuel as [|fuel IH]; intros p Hfuel; [lia|].
  cbn [_handleData].
  destruct (0 <=? _contentLength p) eqn:Emode.
  - destruct (_contentLength p <=? buf_length (_rawData p)); [|reflexivity].
    set (p1 := set_decoder (-1) _ p).
    set (message := utf8 _).
    assert (Hp1 : (2 * List.length (_rawData p1)
                   + (if (0 <=? _contentLength p1)%Z then 1 else 0) < fuel)%nat).
    { unfold p1, buf_slice. cbn. rewrite length_skipn. lia. }
    assert (Hp2 : forall p2 ups,
               (if 0 <? js_length message then _dispatch JSON_parse message p1
                else (p1, [])) = (p2, ups) ->
               snd (fst (_handleData utf8 JSON_parse fuel p2)) = true).
    { intros p2 ups E. apply IH.
      destruct (0 <? js_length message).
      - destruct (dispatch_keeps_decoder message p1) as [Hr Hc].
        rewrite E in Hr, Hc. cbn [fst] in Hr, Hc. rewrite Hr, Hc. exact Hp1.
      - inversion E; subst. exact Hp1. }
    destruct (if 0 <? js_length message then _ else _) as [p2 ups].
    specialize (Hp2 p2 ups eq_refl).
    destruct (_handleData utf8 JSON_parse fuel p2) as [[p3 done] ups3].
    exact Hp2.
  - destruct (indexOf (utf8 (_rawData p)) TWO_CRLF =? -1) eqn:Eidx; [reflexivity|].
    cbn [negb].
    destruct (ContentLength_exec _) as [digits|]; [|reflexivity].
    apply IH.
    assert (Hne : _rawData p <> []).
    { intros Hnil. rewrite Hnil, Hempty in Eidx. discriminate. }
    assert (Hidx : 0 <= indexOf (utf8 (_rawData p)) TWO_CRLF).
    { destruct (indexOf_from_bounds (utf8 (_rawData p)) TWO_CRLF 0) as [H|H];
        [apply Z.eqb_neq in Eidx; contradiction|exact H]. }
    unfold buf_slice. cbn [set_decoder _rawData _contentLength].
    rewrite length_skipn.
    destruct (_rawData p) as [|b l]; [congruence|]. cbn [List.length] in *.
    destruct (0 <=? Number_of_digits digits);
      change (js_length TWO_CRLF) with 4; lia.
Qed.

(** X1: the [while (true)] loop of [_handleData] always leaves through
    [break]: on a buffer of n bytes, 2n + 2 iterations are enough whatever
    the buffer holds, and any further iteration would change nothing. *)
Theorem decoder_loop_stops p fuel :
  utf8 [] = [] ->
  (2 * List.length (_rawData p) + 1 < fuel)%nat ->
  exists p' upcalls,
    forall k, _handleData utf8 JSON_parse (fuel + k) p = (p', true, upcalls).
Proof.
  intros Hempty Hfuel.
  assert (Hdone : snd (fst (_handleData utf8 JSON_parse fuel p)) = true).
  { apply handleData_leaves; [exact Hempty|].
    destruct (0 <=? _contentLength p); lia. }
  destruct (_handleData utf8 JSON_parse fuel p) as [[p' done] ups] eqn:E.
  cbn in Hdone. subst done. exists p', ups. intros k.
  now apply handleData_more_fuel.
Qed.

(** ** A frame is decoded back to its body *)

Lemma digit_byte_value d :
  0 <= d < 10 -> Z.of_N (Byte.to_N (digit_byte d)) = d + 48.
Proof.
  intros H.
  assert (C : d = 0 \/ d = 1 \/ d = 2 \/ d = 3 \/ d = 4 \/ d = 5 \/ d = 6
              \/ d = 7 \/ d = 8 \/ d = 9) by lia.
  repeat (destruct C as [-> | C]; [reflexivity|]). subst. reflexivity.
Qed.

Lemma digit_byte_isDigit d :
  0 <= d < 10 -> isDigit (Byte.to_N (digit_byte d)) = true.
Proof.
  intros H. pose proof (digit_byte_value H) as E. unfold isDigit.
  apply andb_true_intro. split; apply N.leb_le; lia.
Qed.

Lemma decimal_rev_value fuel :
  forall n, 0 <= n -> (Z.to_nat n < fuel)%nat ->
    fold_right (fun c acc => acc * 10 + (Z.of_N c - 48)) 0
               (List.map Byte.to_N (decimal_rev fuel n)) = n.
Proof.
  induction fuel as [|fuel IH]; intros n Hn Hfuel; [lia|].
  cbn [decimal_rev]. destruct (n <? 10) eqn:E.
  - apply Z.ltb_lt in E. cbn. rewrite digit_byte_value by lia. lia.
  - apply Z.ltb_ge in E. cbn [List.map fold_right].
    rewrite IH.
    + rewrite digit_byte_value by (apply Z.mod_pos_bound; lia).
      pose proof (Z.div_mod n 10). lia.
    + apply Z.div_pos; lia.
    + assert (n / 10 < n) by (apply Z.div_lt; lia).
      assert (0 <= n / 10) by (apply Z.div_pos; lia). lia.
Qed.

Lemma decimal_rev_digits fuel :
  forall n, 0 <= n ->
    forallb isDigit (List.map Byte.to_N (decimal_rev fuel n)) = true.
Proof.
  induction fuel as [|fuel IH]; intros n Hn; [reflexivity|].
  cbn [decimal_rev]. destruct (n <? 10) eqn:E.
  - apply Z.ltb_lt in E. cbn. rewrite digit_byte_isDigit by lia. reflexivity.
  - cbn [List.map forallb].
    rewrite digit_byte_isDigit by (apply Z.mod_pos_bound; lia).
    apply IH. apply Z.div_pos; lia.
Qed.

(** [Number(n.toString())] is [n]. *)
Lemma Number_of_toString n :
  0 <= n -> Number_of_digits (List.map Byte.to_N (toString n)) = n.
Proof.
  intros Hn. unfold Number_of_digits, toString.
  rewrite map_rev.
  rewrite <- (rev_involutive (List.map Byte.to_N (decimal_rev _ n))) at 1.
  rewrite rev_involutive.
  rewrite <- fold_left_rev_right, rev_involutive.
  apply decimal_rev_value; lia.
Qed.

Lemma toString_digits n :
  0 <= n -> forallb isDigit (List.map Byte.to_N (toString n)) = true.
Proof.
  intros Hn. unfold toString. rewrite map_rev.
  pose proof (decimal_rev_digits (S (Z.to_nat n)) Hn) as H.
  rewrite forallb_forall in *. intros c Hc. apply H. now apply in_rev.
Qed.

Lemma toString_not_empty n : List.map Byte.to_N (toString n) <> [].
Proof.
  unfold toString. cbn [decimal_rev].
  destruct (n <? 10); intros H;
    apply (f_equal (@List.length N)) in H;
    rewrite length_map, length_rev in H; cbn [List.length] in H; lia.
Qed.

Lemma startsWith_app s t : startsWith (s ++ t) s = true.
Proof.
  induction s as [|c s IH]; [destruct t; reflexivity|].
  cbn. now rewrite N.eqb_refl, IH.
Qed.

Lemma takeDigits_app ds c t :
  forallb isDigit ds = true -> isDigit c = false ->
  takeDigits (ds ++ c :: t) = ds.
Proof.
  intros Hds Hc. induction ds as [|d ds IH]; cbn [app takeDigits].
  - now rewrite Hc.
  - cbn [forallb] in Hds. apply andb_prop in Hds. destruct Hds as [Hd Hds].
    rewrite Hd. f_equal. now apply IH.
Qed.

Lemma indexOf_from_after l t :
  forallb (fun c => negb (N.eqb CR c)) l = true ->
  forall i, indexOf_from (l ++ TWO_CRLF ++ t) TWO_CRLF i = i + js_length l.
Proof.
  intros Hl. induction l as [|c l IH]; intros i.
  - cbn [app]. unfold js_length. cbn [List.length].
    destruct t; cbn; lia.
  - cbn [forallb] in Hl. apply andb_prop in Hl. destruct Hl as [Hc Hl].
    cbn [app indexOf_from].
    replace (startsWith (c :: l ++ TWO_CRLF ++ t) TWO_CRLF) with false.
    + rewrite (IH Hl). unfold js_length. cbn [List.length]. lia.
    + change (startsWith (c :: l ++ TWO_CRLF ++ t) TWO_CRLF)
        with (N.eqb CR c && startsWith (l ++ TWO_CRLF ++ t) [LF; CR; LF]).
      apply negb_true_iff in Hc. now rewrite Hc.
Qed.

Lemma digits_have_no_CR ds :
  forallb isDigit ds = true -> forallb (fun c => negb (N.eqb CR c)) ds = true.
Proof.
  induction ds as [|d ds IH]; [reflexivity|]. cbn [forallb].
  intros H. apply andb_prop in H. destruct H as [Hd Hds].
  rewrite (IH Hds), andb_true_r. apply negb_true_iff, N.eqb_neq.
  unfold isDigit in Hd. apply andb_prop in Hd. destruct Hd as [Hd _].
  apply N.leb_le in Hd. unfold CR. lia.
Qed.

Lemma ContentLength_exec_header ds t :
  forallb isDigit ds = true -> ds <> [] ->
  ContentLength_exec (ContentLength_prefix ++ ds ++ TWO_CRLF ++ t) = Some ds.
Proof.
  intros Hds Hne.
  set (s := ContentLength_prefix ++ ds ++ TWO_CRLF ++ t).
  assert (Hstart : startsWith s ContentLength_prefix = true)
    by apply startsWith_app.
  assert (Hskip : skipn (List.length ContentLength_prefix) s = ds ++ CR :: [LF; CR; LF] ++ t).
  { unfold s. rewrite skipn_app, skipn_all, Nat.sub_diag. reflexivity. }
  assert (Htake : takeDigits (skipn (List.length ContentLength_prefix) s) = ds).
  { rewrite Hskip. apply takeDigits_app; [exact Hds|reflexivity]. }
  destruct s as [|c s'] eqn:Es; cbn [ContentLength_exec];
    rewrite Hstart, Htake; destruct ds; congruence.
Qed.

Lemma header_text n :
  List.map Byte.to_N (header n)
  = ContentLength_prefix ++ List.map Byte.to_N (toString n) ++ TWO_CRLF.
Proof. unfold header. rewrite !map_app. reflexivity. Qed.

Lemma header_is_7bit n : 0 <= n -> forallb is_7bit (header n) = true.
Proof.
  intros Hn. unfold header. rewrite !forallb_app.
  apply andb_true_intro; split; [reflexivity|].
  apply andb_true_intro; split; [|reflexivity].
  pose proof (toString_digits Hn) as H.
  rewrite forallb_forall in *. intros b Hb.
  specialize (H (Byte.to_N b) (in_map Byte.to_N _ _ Hb)).
  unfold isDigit in H. apply andb_prop in H. destruct H as [_ H].
  apply N.leb_le in H. apply N.ltb_lt. lia.
Qed.

Lemma header_length n :
  List.length (header n)
  = (List.length ContentLength_prefix
     + List.length (List.map Byte.to_N (toString n)) + 4)%nat.
Proof.
  unfold header. rewrite !length_app, length_map. cbn. lia.
Qed.

(** X2: a frame is decoded back to its body.  When the decoder waits for a
    header with an empty buffer and receives a frame (the header of the
    decimal length of a body, then the body) followed by more data, it
    dispatches the text of exactly the bytes of the body, unless that text
    is empty, and goes on with the data that follows as the next buffer. *)
Theorem frame_is_decoded_and_the_rest_follows body rest p fuel :
  decodes_7bit utf8 ->
  _contentLength p < 0 ->
  _rawData p = [] ->
  onData utf8 JSON_parse (S (S fuel)) (frame body ++ rest) p
  = (let message := utf8 body in
     let p1 := set_decoder (-1) rest p in
     let '(p2, upcalls) :=
       if 0 <? js_length message then _dispatch JSON_parse message p1
       else (p1, []) in
     let '(p3, left_loop, upcalls') := _handleData utf8 JSON_parse fuel p2 in
     (p3, left_loop, upcalls ++ upcalls')).
Proof.
  intros [Hempty Hascii] Hmode Hraw.
  set (n := buf_length body).
  assert (Hn : 0 <= n) by (unfold n, buf_length; lia).
  set (digits := List.map Byte.to_N (toString n)).
  assert (Htext : utf8 (frame body ++ rest)
                  = ContentLength_prefix ++ digits ++ TWO_CRLF ++ utf8 (body ++ rest)).
  { unfold frame. fold n. rewrite <- app_assoc.
    rewrite (Hascii _ _ (header_is_7bit Hn)), header_text.
    now rewrite <- !app_assoc. }
  assert (Hidx : indexOf (utf8 (frame body ++ rest)) TWO_CRLF
                 = js_length (ContentLength_prefix ++ digits)).
  { rewrite Htext, app_assoc. unfold indexOf.
    rewrite indexOf_from_after; [lia|].
    rewrite forallb_app. apply andb_true_intro. split; [reflexivity|].
    apply digits_have_no_CR, toString_digits, Hn. }
  assert (Hexec : ContentLength_exec (utf8 (frame body ++ rest)) = Some digits).
  { rewrite Htext. apply ContentLength_exec_header;
      [apply toString_digits, Hn|apply toString_not_empty]. }
  unfold onData. rewrite Hraw. cbn [app].
  cbn [_handleData set_decoder _contentLength _rawData].
  replace (0 <=? _contentLength p) with false by (symmetry; apply Z.leb_gt; lia).
  rewrite Hidx, Hexec.
  replace (js_length (ContentLength_prefix ++ digits) =? -1) with false
    by (symmetry; apply Z.eqb_neq; unfold js_length; lia).
  cbn [negb].
  assert (Hnum : Number_of_digits digits = n) by apply (Number_of_toString Hn).
  rewrite !Hnum.
  replace (buf_slice (frame body ++ rest)
             (js_length (ContentLength_prefix ++ digits) + js_length TWO_CRLF))
    with (body ++ rest).
  2:{ unfold buf_slice, frame. fold n. rewrite <- app_assoc.
      replace (Z.to_nat (js_length (ContentLength_prefix ++ digits) + js_length TWO_CRLF))
        with (List.length (header n)).
      - now rewrite skipn_app, skipn_all, Nat.sub_diag.
      - rewrite header_length. unfold js_length. fold digits.
        rewrite length_app. cbn [List.length TWO_CRLF]. lia. }
  replace (0 <=? n) with true by (symmetry; apply Z.leb_le; lia).
  replace (n <=? buf_length (body ++ rest)) with true.
  2:{ symmetry. apply Z.leb_le. unfold n, buf_length. rewrite length_app. lia. }
  replace (firstn (Z.to_nat n) (body ++ rest)) with body.
  2:{ unfold n, buf_length. rewrite Nat2Z.id, firstn_app, firstn_all, Nat.sub_diag.
      cbn [firstn]. now rewrite app_nil_r. }
  replace (buf_slice (body ++ rest) n) with rest.
  2:{ unfold buf_slice, n, buf_length.
      now rewrite Nat2Z.id, skipn_app, skipn_all, Nat.sub_diag. }
  reflexivity.
Qed.

(** ** Requests and their responses *)

Lemma existsb_delete_pending k l :
  existsb (Z.eqb k) (delete_pending k l) = false.
Proof.
  unfold delete_pending. induction l as [|x l IH]; [reflexivity|].
  cbn [filter]. destruct (Z.eqb k x) eqn:E; cbn [negb]; [exact IH|].
  cbn [existsb]. now rewrite E, IH.
Qed.

(** X3: a request and its response.  [send] stamps the request with the
    current sequence number and registers its callback under it; the first
    response that carries this number as [request_seq] calls the callback
    and removes it, and a second such response calls nothing. *)
Theorem response_calls_back_once command has_args p body text :
  JSON_parse body = inl (raw_response (_sequence p) text) ->
  exists p2,
    _dispatch JSON_parse body (send JSON_byteLength command has_args p)
    = (p2, [callback (_sequence p) text])
    /\ _dispatch JSON_parse body p2 = (p2, []).
Proof.
  intros Hparse. unfold send, _doSend, _sendMessage.
  cbn [out_seq _pendingRequests _sequence _contentLength _rawData _outputStream].
  unfold _dispatch. rewrite Hparse. cbn [_pendingRequests].
  set (pending := if existsb (Z.eqb (_sequence p)) (_pendingRequests p)
                  then _pendingRequests p else _pendingRequests p ++ [_sequence p]).
  assert (Hin : existsb (Z.eqb (_sequence p)) pending = true).
  { unfold pending.
    destruct (existsb (Z.eqb (_sequence p)) (_pendingRequests p)) eqn:E; [exact E|].
    rewrite existsb_app. cbn. now rewrite Z.eqb_refl, orb_true_r. }
  rewrite Hin. eexists. split; [reflexivity|].
  cbn [_pendingRequests]. now rewrite existsb_delete_pending.
Qed.

Lemma sound_keys_delete s k l : sound_keys s l -> sound_keys s (delete_pending k l).
Proof.
  intros [Hnd Hall]. unfold delete_pending. split.
  - now apply NoDup_filter.
  - rewrite Forall_forall in *. intros x Hx. apply filter_In in Hx. now apply Hall.
Qed.

Lemma dispatch_sound_keys body p :
  sound_keys (_sequence p) (_pendingRequests p) ->
  sound_keys (_sequence (fst (_dispatch JSON_parse body p)))
             (_pendingRequests (fst (_dispatch JSON_parse body p))).
Proof.
  intros H. unfold _dispatch.
  destruct (JSON_parse body) as [[text|rs text|sq cmd text|text]|message]; cbn; auto.
  destruct (existsb (Z.eqb rs) (_pendingRequests p)); cbn; auto.
  now apply sound_keys_delete.
Qed.

Lemma handleData_sound_keys fuel :
  forall p,
    sound_keys (_sequence p) (_pendingRequests p) ->
    sound_keys (_sequence (fst (fst (_handleData utf8 JSON_parse fuel p))))
               (_pendingRequests (fst (fst (_handleData utf8 JSON_parse fuel p)))).
Proof.
  induction fuel as [|fuel IH]; intros p H; cbn [_handleData]; [exact H|].
  destruct (0 <=? _contentLength p).
  - destruct (_contentLength p <=? buf_length (_rawData p)); [|exact H].
    set (p1 := set_decoder (-1) _ p). set (message := utf8 _).
    assert (H2 : forall p2 ups,
               (if 0 <? js_length message then _dispatch JSON_parse message p1
                else (p1, [])) = (p2, ups) ->
               sound_keys (_sequence p2) (_pendingRequests p2)).
    { intros p2 ups E. destruct (0 <? js_length message).
      - pose proof (@dispatch_sound_keys message p1 H) as H'.
        rewrite E in H'. exact H'.
      - inversion E; subst. exact H. }
    destruct (if 0 <? js_length message then _ else _) as [p2 ups].
    specialize (IH p2 (H2 p2 ups eq_refl)).
    destruct (_handleData utf8 JSON_parse fuel p2) as [[p3 done] ups3]. exact IH.
  - destruct (negb _); [|exact H].
    destruct (ContentLength_exec _); [|exact H].
    apply (IH (set_decoder _ _ p)). exact H.
Qed.

Lemma perform_pending_sound p o :
  1 <= _sequence p /\ pending_sound p ->
  1 <= _sequence (perform utf8 JSON_parse JSON_byteLength p o)
  /\ pending_sound (perform utf8 JSON_parse JSON_byteLength p o).
Proof.
  intros (Hseq & Hnd & Hall).
  assert (Hup : Forall (fun k => 1 <= k < _sequence p + 1) (_pendingRequests p)).
  { eapply Forall_impl; [|exact Hall]. cbn. intros; lia. }
  destruct o as [command has_args|r|typ message|fuel data]; unfold perform.
  - unfold send, _doSend, _sendMessage, pending_sound.
    cbn [out_seq _pendingRequests _sequence _contentLength _rawData _outputStream].
    split; [lia|].
    destruct (existsb (Z.eqb (_sequence p)) (_pendingRequests p)).
    + split; assumption.
    + split.
      * apply NoDup_app; [exact Hnd|repeat constructor; intros []|].
        intros x Hx [<-|[]]. rewrite Forall_forall in Hall.
        specialize (Hall _ Hx). lia.
      * apply Forall_app. split; [exact Hup|]. repeat constructor; lia.
  - unfold sendResponse. destruct (0 <? resp_seq r); [repeat split; assumption|].
    unfold _sendMessage, pending_sound. cbn. repeat split; try assumption; lia.
  - unfold _sendMessage, pending_sound. cbn. repeat split; try assumption; lia.
  - unfold onData.
    set (p0 := set_decoder (_contentLength p) (_rawData p ++ data) p).
    destruct (TransportFacts.handleData_writes_nothing utf8 JSON_parse fuel p0) as [Hs _].
    pose proof (@handleData_sound_keys fuel p0 (conj Hnd Hall)) as H.
    split; [rewrite Hs; cbn; lia|exact H].
Qed.

Lemma session_pending_sound operations :
  pending_sound (session utf8 JSON_parse JSON_byteLength operations).
Proof.
  unfold session.
  assert (H : 1 <= _sequence constructor /\ pending_sound constructor).
  { split; [cbn; lia|]. split; constructor. }
  revert H. generalize constructor.
  induction operations as [|o operations IH]; intros p H; cbn [fold_left];
    [exact (proj2 H)|].
  apply IH. now apply perform_pending_sound.
Qed.

(** X4: a stray response is dropped.  In every session of the transport,
    a response whose [request_seq] is not the sequence number of a message
    sent so far calls nothing and changes nothing. *)
Theorem stray_response_is_dropped operations body request_seq text :
  let p := session utf8 JSON_parse JSON_byteLength operations in
  JSON_parse body = inl (raw_response request_seq text) ->
  request_seq < 1 \/ _sequence p <= request_seq ->
  _dispatch JSON_parse body p = (p, []).
Proof.
  intros p Hparse Hstray. unfold _dispatch. rewrite Hparse.
  replace (existsb (Z.eqb request_seq) (_pendingRequests p)) with false; [reflexivity|].
  symmetry. apply not_true_is_false. intros H.
  apply existsb_exists in H. destruct H as (k & Hk & E). apply Z.eqb_eq in E. subst k.
  destruct (session_pending_sound operations) as [_ Hall]. fold p in Hall.
  rewrite Forall_forall in Hall. specialize (Hall _ Hk). lia.
Qed.

End Decoder.

(** The hypotheses of [decoder_loop_stops] hold for the decoder of 7-bit
    text on a buffer of 24 bytes. *)
Lemma decoder_loop_stops_witness :
  exists p' upcalls,
    forall k,
      _handleData utf8_7bit reject_all (50 + k)
                  (set_decoder (-1) frame_without_length constructor)
      = (p', true, upcalls).
Proof.
  apply (@decoder_loop_stops utf8_7bit reject_all
           (set_decoder (-1) frame_without_length constructor) 50%nat).
  - reflexivity.
  - vm_compute. lia.
Defined.

Lemma utf8_7bit_decodes_7bit : decodes_7bit utf8_7bit.
Proof.
  split; [reflexivity|]. intros a b _. unfold utf8_7bit. apply map_app.
Qed.

(** The hypotheses of [frame_is_decoded_and_the_rest_follows] hold for the
    decoder of 7-bit text, a fresh transport and a body of two bytes. *)
Lemma frame_is_decoded_and_the_rest_follows_witness :
  onData utf8_7bit reject_all 5 (frame (bytes "{}") ++ []) constructor
  = (constructor, true, [onServerError "SyntaxError"%string]).
Proof.
  rewrite (@frame_is_decoded_and_the_rest_follows utf8_7bit reject_all
             (bytes "{}") [] constructor 3 utf8_7bit_decodes_7bit).
  - reflexivity.
  - reflexivity.
  - reflexivity.
Defined.

(** The hypothesis of [response_calls_back_once] holds for the first
    request of a fresh transport and a parser that reads every body as the
    response to request 1. *)
Lemma response_calls_back_once_witness :
  exists p2,
    _dispatch response_to_1 [] (send (fun _ => 2) (lit "threads") false constructor)
    = (p2, [callback 1 []])
    /\ _dispatch response_to_1 [] p2 = (p2, []).
Proof.
  apply (@response_calls_back_once response_to_1 (fun _ => 2)
           (lit "threads") false constructor [] []).
  reflexivity.
Defined.

(** The hypotheses of [stray_response_is_dropped] hold after one request
    for a response to request 1 read as a response to request 7. *)
Lemma stray_response_is_dropped_witness :
  let p := session utf8_7bit (fun body => inl (raw_response 7 body)) (fun _ => 2)
                   [do_send (lit "threads") false] in
  _dispatch (fun body => inl (raw_response 7 body)) [] p = (p, []).
Proof.
  apply (@stray_response_is_dropped utf8_7bit (fun body => inl (raw_response 7 body))
           (fun _ => 2) [do_send (lit "threads") false] [] 7 []).
  - reflexivity.
  - right. vm_compute. discriminate.
Defined.

End FramingFacts.

(* ================================================================== *)
(** * Part VI: replies, the ledger and the registry of the translator  *)
(* ================================================================== *)

Module SessionFacts.
Import Translator Session TranslatorFacts.
Local Open Scope string_scope.
Local Open Scope list_scope.
Local Open Scope Z_scope.

#[local] Hint Resolve preserves_ret preserves_throw preserves_lift
  preserves_get_this preserves_invariant : preserve.

Lemma preserves_beyond_ledger A (m : M A) :
  preserves beyond_ledger m -> preserves sent m /\ preserves registry m.
Proof.
  intros H. split; intros w; specialize (H w); unfold beyond_ledger in H;
    inversion H; congruence.
Qed.

(** ** The registry as a map *)

Section Registry.

Context {V : Type}.

Lemma map_get_set_same k (v : V) m : map_get k (map_set k v m) = Some v.
Proof.
  induction m as [|[k' v'] m IH]; cbn [map_set map_get].
  - now rewrite Z.eqb_refl.
  - destruct (k =? k') eqn:E; cbn [map_get]; rewrite ?Z.eqb_refl, ?E; auto.
Qed.

Lemma map_get_set_other k k' (v : V) m :
  k <> k' -> map_get k (map_set k' v m) = map_get k m.
Proof.
  intros Hk. induction m as [|[k0 v0] m IH]; cbn [map_set map_get].
  - apply Z.eqb_neq in Hk. now rewrite Hk.
  - destruct (k' =? k0) eqn:E; cbn [map_get].
    + apply Z.eqb_eq in E. subst k0. apply Z.eqb_neq in Hk. now rewrite Hk.
    + destruct (k =? k0); auto.
Qed.

Lemma map_get_delete_same k (m : JSMap V) : map_get k (map_delete k m) = None.
Proof.
  unfold map_delete. induction m as [|[k' v'] m IH]; cbn [filter map_get fst]; auto.
  destruct (k =? k') eqn:E; cbn [negb map_get]; rewrite ?E; auto.
Qed.

Lemma map_get_delete_other k k' (m : JSMap V) :
  k <> k' -> map_get k (map_delete k' m) = map_get k m.
Proof.
  intros Hk. unfold map_delete.
  induction m as [|[k0 v0] m IH]; cbn [filter map_get fst]; auto.
  destruct (k' =? k0) eqn:E; cbn [negb map_get].
  - apply Z.eqb_eq in E. subst k0. apply Z.eqb_neq in Hk. now rewrite Hk.
  - destruct (k =? k0); auto.
Qed.

Lemma map_get_In k (v : V) m : map_get k m = Some v -> In (k, v) m.
Proof.
  induction m as [|[k' v'] m IH]; cbn [map_get]; [discriminate|].
  destruct (k =? k') eqn:E.
  - apply Z.eqb_eq in E. subst k'. intros H. inversion H. now left.
  - intros H. right. auto.
Qed.

Lemma map_get_key k (v : V) m : map_get k m = Some v -> In k (map_keys m).
Proof.
  intros H. apply map_get_In in H. unfold map_keys.
  change k with (fst (k, v)). now apply in_map.
Qed.

Lemma map_keys_get k (m : JSMap V) : In k (map_keys m) -> exists v, map_get k m = Some v.
Proof.
  induction m as [|[k' v'] m IH]; cbn [map_keys List.map fst map_get]; [contradiction|].
  intros [H|H]; destruct (k =? k') eqn:E; eauto.
  subst k'. rewrite Z.eqb_refl in E. discriminate.
Qed.

Lemma map_keys_set_known k (v : V) m :
  In k (map_keys m) -> map_keys (map_set k v m) = map_keys m.
Proof.
  induction m as [|[k' v'] m IH]; cbn [map_keys List.map fst map_set]; [contradiction|].
  intros H. destruct (k =? k') eqn:E; cbn [List.map fst].
  - apply Z.eqb_eq in E. now subst k'.
  - f_equal. apply IH. destruct H as [H|H]; [|exact H].
    subst k'. rewrite Z.eqb_refl in E. discriminate.
Qed.

Lemma Forall_map_set (P : V -> Prop) k v m :
  P v -> Forall (fun entry => P (snd entry)) m ->
  Forall (fun entry => P (snd entry)) (map_set k v m).
Proof.
  intros Hv. induction 1 as [|[k' v'] m Hx Hm IH]; cbn [map_set].
  - constructor; [exact Hv|constructor].
  - destruct (k =? k'); constructor; auto.
Qed.

Lemma Forall_map_delete (P : V -> Prop) k (m : JSMap V) :
  Forall (fun entry => P (snd entry)) m ->
  Forall (fun entry => P (snd entry)) (map_delete k m).
Proof.
  unfold map_delete. intros H. rewrite Forall_forall in *.
  intros x Hx. apply filter_In in Hx. apply H. tauto.
Qed.

End Registry.

(** ** Distinct paths *)

Lemma distinct_In x l : In x (distinct l) <-> In x l.
Proof.
  induction l as [|y l IH]; cbn [distinct]; [tauto|].
  cbn [In]. rewrite filter_In, IH.
  destruct (String.eqb y x) eqn:E.
  - apply String.eqb_eq in E. subst. cbn. tauto.
  - cbn. split; [tauto|]. intros [H|H]; auto.
Qed.

Lemma distinct_NoDup l : NoDup (distinct l).
Proof.
  induction l as [|y l IH]; cbn [distinct]; constructor.
  - intros H. apply filter_In in H. destruct H as [_ H].
    rewrite String.eqb_refl in H. discriminate.
  - now apply NoDup_filter.
Qed.

Section Facts.

Variable session : VsDebugSession.
Variable registerFile : string -> Outcome unit.
Variable decodeURIComponent : string -> Outcome string.
Variable uriToPath : string -> string.
Variable pathToUri : string -> string.
Variable nuclideUri_basename : string -> string.
Variable nuclideUri_getPath : string -> string.
Variable Number : string -> JSNumber.

(** ** What the breakpoint commands leave alone *)

Lemma sync_one_beyond pair : preserves beyond_ledger (sync_one pair).
Proof.
  destruct pair as [breakpoint vsBreakpoint]. unfold sync_one. preserve.
  destruct (breakpointId breakpoint); preserve.
  destruct (vs_id vsBreakpoint); unfold _nextBreakpointId; preserve.
Qed.
#[local] Hint Resolve sync_one_beyond : preserve.

Lemma syncBreakpointsForFilePath_beyond p breakpoints :
  preserves beyond_ledger
    (_syncBreakpointsForFilePath session nuclideUri_basename p breakpoints).
Proof.
  unfold _syncBreakpointsForFilePath. preserve. destruct (negb _); preserve.
Qed.
#[local] Hint Resolve syncBreakpointsForFilePath_beyond : preserve.

Lemma setBreakpointByUrl_response_beyond p pair :
  preserves beyond_ledger (setBreakpointByUrl_response p pair).
Proof.
  destruct pair as [command bp]. unfold setBreakpointByUrl_response.
  destruct (breakpointId bp); preserve.
Qed.
#[local] Hint Resolve setBreakpointByUrl_response_beyond : preserve.

Lemma setBreakpoints_group_beyond group :
  preserves beyond_ledger
    (setBreakpoints_group session registerFile uriToPath nuclideUri_basename group).
Proof.
  destruct group as [u commands]. unfold setBreakpoints_group. preserve.
Qed.

Lemma setBreakpoints_rest_beyond u p first commands breakpoints :
  preserves beyond_ledger
    (setBreakpoints_rest session registerFile nuclideUri_basename
       u p first commands breakpoints).
Proof.
  unfold setBreakpoints_rest. preserve.
Qed.

Lemma setBreakpoints_group_rest_beyond group w rest w' :
  setBreakpoints_group session registerFile uriToPath nuclideUri_basename group w
  = (Ok rest, w') ->
  preserves beyond_ledger rest.
Proof.
  destruct group as [u commands].
  cbv [setBreakpoints_group bind get_this modify_this ret].
  intros E. inversion E; subst. apply setBreakpoints_rest_beyond.
Qed.

Lemma setBulkBreakpoints_beyond commands :
  preserves beyond_ledger
    (_setBulkBreakpoints session registerFile decodeURIComponent uriToPath
       nuclideUri_basename commands).
Proof.
  unfold _setBulkBreakpoints.
  destruct (negb (isReadyForBreakpoints session)); [preserve|].
  destruct commands as [|c commands]; [preserve|].
  apply preserves_bind; [preserve|]. intros groups w.
  unfold bind.
  pose proof (preserves_mapM (observe := beyond_ledger)
                (setBreakpoints_group session registerFile uriToPath nuclideUri_basename)
                groups setBreakpoints_group_beyond w) as Hstage.
  destruct (mapM _ groups w) as [[pending|e] w1] eqn:Epending; cbn [snd] in *;
    [|exact Hstage].
  assert (Hall : Forall (preserves beyond_ledger) pending).
  { eapply mapM_results; [|exact Epending].
    intros a w0 b w0'. apply setBreakpoints_group_rest_beyond. }
  pose proof (preserves_Promise_all Hall w1) as Hrun.
  destruct (Promise_all pending w1) as [[responseGroups|e] w2]; cbn in *; congruence.
Qed.
#[local] Hint Resolve setBulkBreakpoints_beyond : preserve.

Lemma removeBreakpoint_beyond i :
  preserves beyond_ledger (_removeBreakpoint session nuclideUri_basename i).
Proof.
  unfold _removeBreakpoint. apply preserves_bind; [preserve|]. intros t.
  destruct (findIndex _ _ _) as [[idx found]|]; preserve.
Qed.
#[local] Hint Resolve removeBreakpoint_beyond : preserve.

(** Fetching stacks and evaluating leave them alone too. *)

Lemma getScopesForFrame_beyond frameId :
  preserves beyond_ledger (_getScopesForFrame session frameId).
Proof. unfold _getScopesForFrame. preserve. Qed.
#[local] Hint Resolve getScopesForFrame_beyond : preserve.

Lemma translate_frame_beyond frame :
  preserves beyond_ledger (translate_frame session registerFile pathToUri frame).
Proof. unfold translate_frame. preserve. Qed.
#[local] Hint Resolve translate_frame_beyond : preserve.

Lemma getTranslatedCallFramesForThread_beyond threadId levels :
  preserves beyond_ledger
    (_getTranslatedCallFramesForThread session registerFile pathToUri threadId levels).
Proof.
  unfold _getTranslatedCallFramesForThread. preserve.
  destruct a as [stackFrames|]; preserve.
Qed.
#[local] Hint Resolve getTranslatedCallFramesForThread_beyond : preserve.

Lemma evaluateOnCallFrame_beyond expression frameId :
  preserves beyond_ledger (_evaluateOnCallFrame session expression frameId).
Proof. unfold _evaluateOnCallFrame. preserve. Qed.
#[local] Hint Resolve evaluateOnCallFrame_beyond : preserve.

(** Every command but [Debugger.getThreadStack] leaves the registry as it
    is, and sends nothing by itself: its messages are what it returns. *)
Lemma handleCommands_beyond command :
  (forall threadId, method command <> Debugger_getThreadStack threadId) ->
  preserves beyond_ledger
    (_handleCommands session registerFile decodeURIComponent uriToPath pathToUri
       nuclideUri_basename nuclideUri_getPath Number command).
Proof.
  intros Hnot. unfold _handleCommands.
  destruct (method command) as
    [ | | |threadId| | | |location| | |params|i|threadId|callFrameId expression
      |expression|name];
    try (unfold one, catchCommandError, pause_handler, resume_handler,
           removeBreakpoint_handler, setBreakpointByUrl_handler, _continueToLocation;
         preserve; fail).
  - unfold one, catchCommandError, step_handler.
    preserve. destruct (_pausedThreadId a); preserve.
  - unfold one, catchCommandError, step_handler.
    preserve. destruct (_pausedThreadId a); preserve.
  - unfold one, catchCommandError, step_handler.
    preserve. destruct (_pausedThreadId a); preserve.
  - exfalso. exact (Hnot threadId eq_refl).
Qed.

(** ** Every command is answered *)


Lemma mapM_length A B (f : A -> M B) l :
  forall w bs w', mapM f l w = (Ok bs, w') -> List.length bs = List.length l.
Proof.
  induction l as [|a l IH]; intros w bs w'; cbn [mapM].
  - unfold ret. intros E. inversion E. reflexivity.
  - unfold bind at 1. destruct (f a w) as [[b|e] w1]; [|discriminate].
    unfold bind at 1. destruct (mapM f l w1) as [[bs'|e] w2] eqn:El; [|discriminate].
    unfold ret. intros E. inversion E; subst. cbn. f_equal. eapply IH. exact El.
Qed.

Lemma syncBreakpointsForFilePath_length p breakpoints w synced w' :
  _syncBreakpointsForFilePath session nuclideUri_basename p breakpoints w
  = (Ok synced, w') ->
  List.length synced = List.length breakpoints.
Proof.
  unfold _syncBreakpointsForFilePath. unfold bind at 1.
  destruct (request _ _ w) as [[vsBreakpoints|e] w1]; [|discriminate].
  destruct (Nat.eqb _ _) eqn:El; cbn [negb]; [|discriminate].
  intros E. apply mapM_length in E. rewrite E, length_combine.
  apply Nat.eqb_eq in El. lia.
Qed.





(** ** Removing a record of the ledger *)

Lemma sync_one_keeps_ledger_and_requests pair :
  preserves ledger_and_requests (sync_one pair).
Proof.
  destruct pair as [breakpoint vsBreakpoint]. unfold sync_one. preserve.
  destruct (breakpointId breakpoint); preserve.
  destruct (vs_id vsBreakpoint); unfold _nextBreakpointId; preserve.
Qed.

(** A sync sends one request and leaves the ledger as it is. *)
Lemma syncBreakpointsForFilePath_effect p breakpoints w :
  let w' := snd (_syncBreakpointsForFilePath session nuclideUri_basename
                   p breakpoints w) in
  ledger w' = ledger w
  /\ requests w' = requests w ++ [sync_request nuclideUri_basename p breakpoints].
Proof.
  destruct w as [t rs s].
  cbv [_syncBreakpointsForFilePath bind request this requests sent].
  fold (sync_request nuclideUri_basename p breakpoints).
  destruct (setBreakpoints_body session rs _) as [vsBreakpoints|e];
    [|split; reflexivity].
  destruct (negb _); [split; reflexivity|].
  pose proof (preserves_mapM (observe := ledger_and_requests) sync_one
                (combine breakpoints vsBreakpoints)
                sync_one_keeps_ledger_and_requests
                {| this := t;
                   requests := rs ++ [sync_request nuclideUri_basename p breakpoints];
                   sent := s |}) as H.
  unfold ledger_and_requests in H. injection H as H1 H2.
  split; [exact H1|exact H2].
Qed.

(** X6: [Debugger.removeBreakpoint] of an id that the ledger knows removes
    the first record with that id from the ledger and syncs the file of
    that record once, with the records of the file that do not have the
    id.  The removal is not undone when the adapter rejects the sync: the
    client is then answered with the error of the adapter, and with an
    empty response otherwise. *)
Theorem removeBreakpoint_drops_the_record_and_syncs_its_file
        command i w idx found :
  method command = Debugger_removeBreakpoint i ->
  findIndex (has_breakpointId i) (ledger w) 0 = Some (idx, found) ->
  let remaining :=
    filter (fun bp => negb (has_breakpointId i bp))
           (_getBreakpointsForFilePath (path found) (this w)) in
  let req := sync_request nuclideUri_basename (path found) remaining in
  let w' :=
    snd (processCommand session registerFile decodeURIComponent uriToPath pathToUri
                        nuclideUri_basename nuclideUri_getPath Number command w) in
  ledger w' = splice1 idx (ledger w)
  /\ requests w' = requests w ++ [req]
  /\ exists reply,
       sent w' = sent w ++ [reply]
       /\ reply_id reply = Some (id command)
       /\ forall e, setBreakpoints_body session (requests w) req = Throw e ->
                    reply = getErrorResponse (id command) e.
Proof.
  intros Hmethod Hfind remaining req.
  destruct w as [t rs s]. unfold ledger in Hfind. cbn [this requests sent] in *.
  unfold processCommand, _handleCommands. rewrite Hmethod.
  unfold one, catchCommandError, removeBreakpoint_handler, _removeBreakpoint.
  cbv [bind try_catch get_this modify_this this requests sent].
  rewrite Hfind. fold remaining.
  set (w1 := {| this := with_breakpoints (splice1 idx (_breakpoints t)) t;
                requests := rs; sent := s |}).
  destruct (syncBreakpointsForFilePath_effect (path found) remaining w1)
    as [Hledger Hrequests].
  fold req in Hrequests.
  assert (Hsent : sent (snd (_syncBreakpointsForFilePath session nuclideUri_basename
                               (path found) remaining w1)) = sent w1).
  { apply (proj1 (preserves_beyond_ledger
                    (syncBreakpointsForFilePath_beyond (path found) remaining))). }
  assert (Hthrow : forall e,
             setBreakpoints_body session rs req = Throw e ->
             fst (_syncBreakpointsForFilePath session nuclideUri_basename
                    (path found) remaining w1) = Throw e).
  { intros e He. unfold _syncBreakpointsForFilePath, bind, request.
    cbn [w1 requests]. unfold req, sync_request in He. rewrite He. reflexivity. }
  destruct (_syncBreakpointsForFilePath _ _ _ _ w1) as [[synced|e] [t2 rs2 s2]];
    unfold ledger in *; cbn [fst snd w1 this requests sent] in *; subst s2;
    cbv [ret mapM bind _sendMessageToClient this requests sent];
    cbn [snd this requests sent] in *.
  - repeat split; auto. eexists. split; [reflexivity|].
    split; [reflexivity|]. intros e He. specialize (Hthrow e He). discriminate.
  - repeat split; auto. eexists. split; [reflexivity|].
    split; [reflexivity|]. intros e' He. specialize (Hthrow e' He). congruence.
Qed.

(** ** Staging that fails *)

(** X7: a [Debugger.setBreakpointByUrl] is refused before anything is
    staged when the session is not ready for breakpoints or when the URL
    cannot be decoded: the client gets an error response, no request goes
    to the adapter and the translator state is unchanged. *)
Theorem staging_is_refused_before_anything_is_staged command params w message :
  method command = Debugger_setBreakpointByUrl params ->
  (isReadyForBreakpoints session = false
   /\ message = "VsDebugSession is not ready for breakpoints")
  \/ (isReadyForBreakpoints session = true
      /\ decodeURIComponent (url params) = Throw message) ->
  processCommand session registerFile decodeURIComponent uriToPath pathToUri
                 nuclideUri_basename nuclideUri_getPath Number command w
  = (Ok tt, {| this := this w;
               requests := requests w;
               sent := sent w ++ [getErrorResponse (id command) message] |}).
Proof.
  intros Hmethod H. destruct w as [t rs s]. cbn [this requests sent].
  unfold processCommand, _handleCommands. rewrite Hmethod.
  unfold setBreakpointByUrl_handler, _setBulkBreakpoints.
  destruct H as [[Hready ->]|[Hready Hdecode]]; rewrite Hready; cbn [negb].
  - reflexivity.
  - cbv [bind try_catch lift]. cbn [groupByUrl snd]. rewrite Hdecode. reflexivity.
Qed.

(** X8: a [Debugger.setBreakpointByUrl] that fails after the staging, because
    the file cache refuses the file or the adapter rejects the request, is
    answered with the error, and the staged record stays in the ledger: a
    record without an id, at the end of the ledger. *)
Theorem failed_staging_leaves_a_record_without_id command params w u message :
  let p := uriToPath u in
  let staged := newTranslatorBp p (id command, params) in
  let kept :=
    filter (fun tBp => negb (existsb (Z.eqb (lineNumber tBp)) [lineNumber staged]))
           (_getBreakpointsForFilePath p (this w)) in
  let req := sync_request nuclideUri_basename p (staged :: kept) in
  method command = Debugger_setBreakpointByUrl params ->
  isReadyForBreakpoints session = true ->
  decodeURIComponent (url params) = Ok u ->
  registerFile u = Throw message
  \/ (registerFile u = Ok tt
      /\ setBreakpoints_body session (requests w) req = Throw message) ->
  let w' :=
    snd (processCommand session registerFile decodeURIComponent uriToPath pathToUri
                        nuclideUri_basename nuclideUri_getPath Number command w) in
  ledger w' = ledger w ++ [staged]
  /\ breakpointId staged = None
  /\ sent w' = sent w ++ [getErrorResponse (id command) message].
Proof.
  intros p staged kept req Hmethod Hready Hdecode H w'.
  destruct w as [t rs s]. unfold ledger. cbn [this requests sent] in *.
  assert (E : exists rs',
             w' = {| this := with_breakpoints (_breakpoints t ++ [staged]) t;
                     requests := rs';
                     sent := s ++ [getErrorResponse (id command) message] |}).
  { unfold w', processCommand, _handleCommands. rewrite Hmethod.
    unfold setBreakpointByUrl_handler, _setBulkBreakpoints. rewrite Hready. cbn [negb].
    unfold bind at 1. unfold try_catch. unfold bind at 1. unfold lift.
    cbn [groupByUrl snd]. rewrite Hdecode. cbn [group_push mapM].
    unfold bind at 1. unfold bind at 1. unfold setBreakpoints_group at 1.
    cbv [bind get_this modify_this ret this requests sent].
    cbn [Promise_all List.map app]. fold p. fold staged.
    unfold setBreakpoints_rest. unfold lift. unfold bind at 1.
    destruct H as [Hfile|[Hfile Hanswer]]; rewrite Hfile.
    - eexists. reflexivity.
    - unfold _syncBreakpointsForFilePath. unfold bind at 1. unfold bind at 1.
      unfold request at 1. cbn [this requests sent].
      change (List.map lineNumber [staged]) with [lineNumber staged].
      fold kept. fold (sync_request nuclideUri_basename p (staged :: kept)).
      fold req. rewrite Hanswer. eexists. reflexivity. }
  destruct E as (rs' & ->). cbn. auto.
Qed.

(** ** Staging in bulk *)

Lemma mapM_related A B (R : A -> B -> Prop) (f : A -> M B) l :
  (forall a w b w', f a w = (Ok b, w') -> R a b) ->
  forall w bs w', mapM f l w = (Ok bs, w') -> Forall2 R l bs.
Proof.
  intros Hf. induction l as [|a l IH]; intros w bs w'; cbn [mapM].
  - unfold ret. intros E. inversion E. constructor.
  - unfold bind at 1. destruct (f a w) as [[b|e] w1] eqn:Ea; [|discriminate].
    unfold bind at 1. destruct (mapM f l w1) as [[bs'|e] w2] eqn:El; [|discriminate].
    unfold ret. intros E. inversion E; subst.
    constructor; [eapply Hf; eassumption|eapply IH; eassumption].
Qed.

Lemma Promise_all_related A B (R : B -> A -> Prop) (promises : list (M A)) (l : list B) :
  Forall2 (fun b p => forall w a w', p w = (Ok a, w') -> R b a) l promises ->
  forall w results w', Promise_all promises w = (Ok results, w') -> Forall2 R l results.
Proof.
  induction 1 as [|b p l ps Hp Hps IH]; intros w results w'; cbn [Promise_all].
  - unfold ret. intros E. inversion E. constructor.
  - destruct (p w) as [[a|e] w1] eqn:Ep;
      destruct (Promise_all ps w1) as [[results'|e'] w2] eqn:Eps;
      intros E; inversion E; subst.
    constructor; [eapply Hp; eassumption|eapply IH; eassumption].
Qed.

Lemma replies_app l l' : replies (l ++ l') = replies l ++ replies l'.
Proof. unfold replies. apply flat_map_app. Qed.

Lemma responses_reply_in_order p pairs :
  forall w responses w',
    mapM (setBreakpointByUrl_response p) pairs w = (Ok responses, w') ->
    replies responses = List.map (fun pair => fst (fst pair)) pairs.
Proof.
  induction pairs as [|[command bp] pairs IH]; intros w responses w'; cbn [mapM].
  - unfold ret. intros E. inversion E. reflexivity.
  - unfold bind at 1. unfold setBreakpointByUrl_response at 1.
    destruct (breakpointId bp); [|discriminate]. cbv [ret].
    unfold bind at 1.
    destruct (mapM _ pairs w) as [[responses'|e] w1] eqn:E1; [|discriminate].
    intros E. inversion E; subst. cbn [List.map fst replies flat_map reply_id app].
    f_equal. eapply IH. exact E1.
Qed.

Lemma map_fst_combine A B (l : list A) :
  forall l' : list B,
    (List.length l <= List.length l')%nat ->
    List.map (fun pair => fst pair) (combine l l') = l.
Proof.
  induction l as [|a l IH]; intros l' Hlen; [reflexivity|].
  destruct l' as [|b l']; cbn in *; [lia|]. f_equal. apply IH. lia.
Qed.

Lemma setBreakpoints_rest_replies u p first commands kept w responses w' :
  setBreakpoints_rest session registerFile nuclideUri_basename u p first commands
                      (List.map (newTranslatorBp p) commands ++ kept) w
  = (Ok responses, w') ->
  replies responses = List.map fst commands.
Proof.
  unfold setBreakpoints_rest. unfold bind at 1.
  destruct (lift _ w) as [[[]|e] w1]; [|discriminate].
  unfold bind at 1.
  destruct (_syncBreakpointsForFilePath _ _ _ _ w1) as [[synced|e] w2] eqn:Esync;
    [|discriminate].
  apply syncBreakpointsForFilePath_length in Esync.
  rewrite length_app, length_map in Esync.
  unfold bind at 1, modify_this at 1. intros E.
  apply responses_reply_in_order in E. rewrite E.
  rewrite <- (map_map (fun pair : SetBreakpointCommand * TranslatorBreakpoint => fst pair)
                      (fun command : SetBreakpointCommand => fst command)).
  rewrite map_fst_combine by lia. reflexivity.
Qed.

Lemma replies_concat groups responseGroups :
  Forall2 (fun (group : string * list SetBreakpointCommand) responses =>
             replies responses = List.map fst (snd group))
          groups responseGroups ->
  replies (List.concat responseGroups)
  = List.map fst (List.concat (List.map snd groups)).
Proof.
  induction 1 as [|group responses groups responseGroups Hone Hrest IH];
    cbn [List.concat List.map]; [reflexivity|].
  now rewrite replies_app, map_app, Hone, IH.
Qed.

(** X9: when [_setBulkBreakpoints] succeeds for a list of commands, every
    command of the list gets exactly one response and nothing else is
    returned; the responses come file by file, in the order in which the
    files first appear in the list, not in the order of the commands. *)
Theorem bulk_staging_answers_every_command_file_by_file
        commands groups w responses w' :
  groupByUrl decodeURIComponent commands [] = Ok groups ->
  _setBulkBreakpoints session registerFile decodeURIComponent uriToPath
                      nuclideUri_basename commands w
  = (Ok responses, w') ->
  replies responses = List.map fst (List.concat (List.map snd groups)).
Proof.
  intros Hgroups. unfold _setBulkBreakpoints.
  destruct (negb (isReadyForBreakpoints session)); [discriminate|].
  destruct commands as [|command commands].
  - cbn in Hgroups. inversion Hgroups. unfold ret. intros E. inversion E. reflexivity.
  - unfold bind at 1. unfold lift. rewrite Hgroups.
    unfold bind at 1.
    destruct (mapM _ groups w) as [[pending|e] w1] eqn:Epending; [|discriminate].
    unfold bind at 1.
    destruct (Promise_all pending w1) as [[responseGroups|e] w2] eqn:Eall;
      [|discriminate].
    unfold ret. intros E. inversion E; subst. apply replies_concat.
    eapply Promise_all_related; [|exact Eall].
    eapply mapM_related; [|exact Epending].
    intros [u groupCommands] w0 rest w0'.
    cbv [setBreakpoints_group bind get_this modify_this ret].
    intros E0. inversion E0; subst. cbn [snd].
    intros w3 responses w3'. apply setBreakpoints_rest_replies.
Qed.

(** ** Commands that need a paused thread *)

(** X10: the step commands need an active paused thread.  Without one the
    client gets the error ['No paused thread to step ...!'] and nothing is
    sent to the adapter; with one, the step request names that thread, the
    reply is empty or carries the error of the adapter, and the active
    thread stays as it is. *)
Theorem step_commands_need_an_active_thread command w what req :
  step_command (method command) = Some (what, req) ->
  processCommand session registerFile decodeURIComponent uriToPath pathToUri
                 nuclideUri_basename nuclideUri_getPath Number command w
  = (Ok tt,
     match _pausedThreadId (this w) with
     | None =>
         {| this := this w;
            requests := requests w;
            sent := sent w ++ [getErrorResponse (id command)
                                 ("No paused thread to step " ++ what ++ "!")] |}
     | Some active =>
         {| this := this w;
            requests := requests w ++ [req active];
            sent := sent w ++ [match acknowledge session (requests w) (req active) with
                               | Ok _ => getEmptyResponse (id command)
                               | Throw e => getErrorResponse (id command) e
                               end] |}
     end).
Proof.
  intros Hstep. destruct w as [t rs s]. cbn [this requests sent].
  unfold processCommand, _handleCommands.
  destruct (method command); try discriminate;
    cbn [step_command] in Hstep; inversion Hstep; subst; clear Hstep;
    unfold one, catchCommandError, step_handler;
    cbv [bind try_catch get_this request ret this requests sent mapM
         _sendMessageToClient];
    (destruct (_pausedThreadId t) as [active|]; [|reflexivity]);
    destruct (acknowledge session rs _) as [[]|e]; reflexivity.
Qed.

(** X11: [Debugger.getThreadStack] asks the adapter nothing and changes
    nothing when the thread is unknown, running, or paused with a loaded
    stack that is not empty: the reply carries the frames kept for a paused
    thread and no frames otherwise. *)
Theorem getThreadStack_of_a_loaded_or_running_thread_asks_nothing
        command threadId w :
  method command = Debugger_getThreadStack threadId ->
  (forall info,
      map_get threadId (registry w) = Some info ->
      state info = running
      \/ (callStackLoaded info = true
          /\ exists frame frames, callFrames info = Some (frame :: frames))) ->
  processCommand session registerFile decodeURIComponent uriToPath pathToUri
                 nuclideUri_basename nuclideUri_getPath Number command w
  = (Ok tt,
     {| this := this w;
        requests := requests w;
        sent := sent w
                ++ [response (id command)
                      (getThreadStack_result
                         match map_get threadId (registry w) with
                         | Some {| state := paused; callFrames := Some frames |} => frames
                         | _ => []
                         end)] |}).
Proof.
  intros Hmethod Hinfo. destruct w as [t rs s]. unfold registry in *.
  cbn [this requests sent] in *.
  unfold processCommand, _handleCommands. rewrite Hmethod.
  unfold one, getThreadStack_handler. unfold bind at 1. unfold bind at 1.
  unfold bind at 1. unfold bind at 1. cbn [get_this fst snd this].
  destruct (map_get threadId (_threadsById t)) as [info|]; [|reflexivity].
  destruct (Hinfo info eq_refl) as [Hrunning|(Hloaded & frame & frames & Hframes)].
  - destruct info as [st frames loaded reason]. cbn in Hrunning. subst st.
    reflexivity.
  - destruct info as [st frames' loaded reason]. cbn in Hloaded, Hframes. subst.
    destruct st; reflexivity.
Qed.

(** ** The registry *)

Lemma fold_left_ext A B (f g : A -> B -> A) l :
  (forall a b, f a b = g a b) -> forall a, fold_left f l a = fold_left g l a.
Proof.
  intros H. induction l as [|b l IH]; intros a; cbn [fold_left]; [reflexivity|].
  rewrite H. apply IH.
Qed.

(** Marking threads as running writes a bare entry for each of them. *)
Lemma updateThreadsState_running threadIds t :
  _updateThreadsState threadIds running t
  = with_threadsById
      (fold_left (fun m threadId => map_set threadId running_thread m)
                 threadIds (_threadsById t)) t.
Proof.
  unfold _updateThreadsState. f_equal. apply fold_left_ext.
  intros m threadId. destruct (map_get threadId m); reflexivity.
Qed.

Section SetAll.

Variable v : ThreadInfo.

Lemma set_all_other k ids :
  ~ In k ids -> forall m, map_get k (fold_left (fun m threadId => map_set threadId v m) ids m) = map_get k m.
Proof.
  induction ids as [|i ids IH]; intros Hk m; cbn [fold_left];
    [reflexivity|].
  rewrite IH by (intros H; apply Hk; now right).
  apply map_get_set_other. intros ->. apply Hk. now left.
Qed.

Lemma set_all_member k ids :
  In k ids -> forall m, map_get k (fold_left (fun m threadId => map_set threadId v m) ids m) = Some v.
Proof.
  induction ids as [|i ids IH]; intros Hk m; cbn [fold_left];
    [contradiction|].
  destruct (in_dec Z.eq_dec k ids) as [Hin|Hout].
  - now apply IH.
  - rewrite set_all_other by exact Hout.
    destruct Hk as [->|Hk]; [apply map_get_set_same|contradiction].
Qed.

Lemma set_all_keys ids :
  forall m, (forall k, In k ids -> In k (map_keys m)) ->
            map_keys (fold_left (fun m threadId => map_set threadId v m) ids m) = map_keys m.
Proof.
  induction ids as [|i ids IH]; intros m Hk; cbn [fold_left];
    [reflexivity|].
  assert (Hi : map_keys (map_set i v m) = map_keys m).
  { apply map_keys_set_known. apply Hk. now left. }
  rewrite IH; [exact Hi|]. intros k Hin. rewrite Hi. apply Hk. now right.
Qed.

Lemma set_all_Forall (P : ThreadInfo -> Prop) ids :
  P v ->
  forall m, Forall (fun entry => P (snd entry)) m ->
            Forall (fun entry => P (snd entry)) (fold_left (fun m threadId => map_set threadId v m) ids m).
Proof.
  intros Hv. induction ids as [|i ids IH]; intros m Hm;
    cbn [fold_left]; [exact Hm|].
  apply IH. now apply Forall_map_set.
Qed.

End SetAll.

(** X12: when a thread exits, the registry forgets it and keeps every
    other thread as it is; the thread is not the active paused thread
    afterwards, another active thread stays active; the client is told the
    new list of threads and the adapter is asked nothing. *)
Theorem exited_thread_is_forgotten body w :
  te_reason body = "exited" ->
  let w' := snd (onThreadEvent body w) in
  map_get (te_threadId body) (registry w') = None
  /\ (forall k, k <> te_threadId body ->
                map_get k (registry w') = map_get k (registry w))
  /\ _pausedThreadId (this w') <> Some (te_threadId body)
  /\ (forall a, a <> te_threadId body ->
                _pausedThreadId (this w) = Some a ->
                _pausedThreadId (this w') = Some a)
  /\ requests w' = requests w
  /\ sent w'
     = sent w ++ [event (Debugger_threadsUpdated (_getThreadsUpdatedEvent None (this w')))].
Proof.
  intros Hreason. destruct w as [t rs s]. unfold registry.
  unfold onThreadEvent. rewrite Hreason.
  cbv [bind get_this modify_this ret _sendMessageToClient this requests sent
       String.eqb Ascii.eqb Bool.eqb].
  cbn [this _threadsById with_threadsById _pausedThreadId].
  destruct (strict_eq (_pausedThreadId t) (Some (te_threadId body))) eqn:Eactive;
    cbn [snd this requests sent _threadsById with_threadsById _pausedThreadId
         _updatePausedThreadId].
  - repeat split; auto.
    + apply map_get_delete_same.
    + intros k Hk. now apply map_get_delete_other.
    + discriminate.
    + intros a Ha Hactive. rewrite Hactive in Eactive. cbn in Eactive.
      apply Z.eqb_eq in Eactive. contradiction.
  - repeat split; auto.
    + apply map_get_delete_same.
    + intros k Hk. now apply map_get_delete_other.
    + intros Hactive. rewrite Hactive in Eactive. cbn in Eactive.
      rewrite Z.eqb_refl in Eactive. discriminate.
Qed.

(** X13: when a thread starts, the registry holds it as a running thread
    without call frames, stop reason or loaded stack, also when it was
    paused before; the other threads and the active paused thread stay as
    they are, and the client is told the new list of threads. *)
Theorem started_thread_is_running body w :
  te_reason body = "started" ->
  let w' := snd (onThreadEvent body w) in
  map_get (te_threadId body) (registry w') = Some running_thread
  /\ (forall k, k <> te_threadId body ->
                map_get k (registry w') = map_get k (registry w))
  /\ active w' = active w
  /\ requests w' = requests w
  /\ sent w'
     = sent w ++ [event (Debugger_threadsUpdated (_getThreadsUpdatedEvent None (this w')))].
Proof.
  intros Hreason. destruct w as [t rs s]. unfold registry, active.
  unfold onThreadEvent. rewrite Hreason.
  cbv [bind get_this modify_this ret _sendMessageToClient this requests sent
       String.eqb Ascii.eqb Bool.eqb].
  rewrite updateThreadsState_running.
  cbn [snd this requests sent _threadsById with_threadsById fold_left
       _pausedThreadId _pausedThreadIdPrevious].
  repeat split; auto.
  - apply map_get_set_same.
  - intros k Hk. now apply map_get_set_other.
Qed.

Lemma filter_In_keys (f : Z -> bool) (m : JSMap ThreadInfo) k :
  In k (filter f (map_keys m)) -> In k (map_keys m).
Proof. intros H. apply filter_In in H. tauto. Qed.

(** X14: after a [continued] event for all threads (the event says so, or
    names no thread, or a negative one), every thread of the registry is a
    running thread without stack, the registry holds the same threads in
    the same order, no thread is the active paused thread, and the client
    gets one [Debugger.resumed]. *)
Theorem all_threads_continued_leaves_every_thread_running body w :
  ce_allThreadsContinued body = true
  \/ (forall i, ce_threadId body = Some i -> i < 0) ->
  let w' := snd (onContinued body w) in
  (forall k info, map_get k (registry w') = Some info -> state info = running)
  /\ map_keys (registry w') = map_keys (registry w)
  /\ _pausedThreadId (this w') = None
  /\ requests w' = requests w
  /\ sent w' = sent w ++ [event Debugger_resumed].
Proof.
  intros Hall. destruct w as [t rs s]. unfold registry.
  unfold onContinued.
  assert (Eall : match ce_threadId body with
                 | Some i => if i <? 0 then true else ce_allThreadsContinued body
                 | None => true
                 end = true).
  { destruct (ce_threadId body) as [i|]; [|reflexivity].
    destruct (i <? 0) eqn:Ei; [reflexivity|].
    destruct Hall as [Hall|Hall]; [exact Hall|].
    specialize (Hall i eq_refl). apply Z.ltb_ge in Ei. lia. }
  rewrite Eall.
  cbv [bind get_this modify_this ret _sendMessageToClient this requests sent orb].
  rewrite updateThreadsState_running.
  cbn [snd this requests sent _threadsById with_threadsById _updatePausedThreadId
       _pausedThreadId].
  set (m := _threadsById t).
  set (ids := filter _ (map_keys m)).
  repeat split; auto.
  - intros k info Hget.
    destruct (in_dec Z.eq_dec k ids) as [Hin|Hout].
    + rewrite set_all_member in Hget by exact Hin.
      inversion Hget. reflexivity.
    + rewrite set_all_other in Hget by exact Hout.
      assert (Hkey : In k (map_keys m)) by (eapply map_get_key; exact Hget).
      destruct (state info) eqn:Estate; [reflexivity|].
      exfalso. apply Hout. unfold ids. apply filter_In. split; [exact Hkey|].
      rewrite Hget, Estate. reflexivity.
  - apply set_all_keys. intros k Hk. unfold ids in Hk.
    now apply filter_In_keys in Hk.
Qed.

(** ** Stop events *)

Lemma getScopesForFrame_keeps_this frameId :
  preserves this (_getScopesForFrame session frameId).
Proof. unfold _getScopesForFrame. preserve. Qed.
#[local] Hint Resolve getScopesForFrame_keeps_this : preserve.

Lemma translate_frame_keeps_this frame :
  preserves this (translate_frame session registerFile pathToUri frame).
Proof. unfold translate_frame. preserve. Qed.
#[local] Hint Resolve translate_frame_keeps_this : preserve.

Lemma getTranslatedCallFramesForThread_keeps_this threadId levels :
  preserves this
    (_getTranslatedCallFramesForThread session registerFile pathToUri threadId levels).
Proof.
  unfold _getTranslatedCallFramesForThread. preserve.
  destruct a as [stackFrames|]; preserve.
Qed.
#[local] Hint Resolve getTranslatedCallFramesForThread_keeps_this : preserve.

(** The paused event of a stopped thread is always produced: it names the
    thread and the reason of the stop event. *)
Lemma pausedEvent_for_result threadId reason i w :
  exists pausedEvent w',
    pausedEvent_for session registerFile pathToUri threadId reason i w
    = (Ok pausedEvent, w')
    /\ stopThreadId pausedEvent = Some i
    /\ pe_reason pausedEvent = reason
    /\ this w' = this w
    /\ sent w' = sent w.
Proof.
  unfold pausedEvent_for.
  set (fetch := try_catch _ _).
  assert (Hthis : preserves this fetch).
  { unfold fetch. preserve. destruct (strict_eq _ _); preserve. }
  assert (Hsent : preserves sent fetch).
  { unfold fetch. apply preserves_try_catch; [|intros; preserve].
    apply preserves_bind; [preserve|]. intros t.
    destruct (strict_eq _ _);
      apply (proj1 (preserves_beyond_ledger
                      (getTranslatedCallFramesForThread_beyond _ _))). }
  assert (Hok : exists frames, fst (fetch w) = Ok frames).
  { unfold fetch, try_catch.
    destruct (bind _ _ w) as [[frames|e] w1]; cbn; eauto. }
  specialize (Hthis w). specialize (Hsent w). destruct Hok as (frames & Hok).
  unfold bind at 1. destruct (fetch w) as [o w1]. cbn [fst snd] in *. subst o.
  cbv [bind get_this ret]. do 2 eexists. split; [reflexivity|]. cbn. auto.
Qed.

Lemma Promise_all_pausedEvents threadId reason ids :
  forall w, exists pausedEvents w',
    Promise_all (List.map (pausedEvent_for session registerFile pathToUri
                             threadId reason) ids) w
    = (Ok pausedEvents, w')
    /\ stopped_ids pausedEvents = List.map Some ids
    /\ Forall (fun pausedEvent => pe_reason pausedEvent = reason) pausedEvents
    /\ this w' = this w
    /\ sent w' = sent w.
Proof.
  induction ids as [|i ids IH]; intros w; cbn [List.map Promise_all].
  - exists [], w. repeat split; auto.
  - destruct (pausedEvent_for_result threadId reason i w)
      as (pausedEvent & w1 & E & Hid & Hreason & Hthis & Hsent).
    rewrite E.
    destruct (IH w1) as (pausedEvents & w2 & E2 & Hids & Hreasons & Hthis2 & Hsent2).
    rewrite E2. exists (pausedEvent :: pausedEvents), w2.
    unfold stopped_ids in *. cbn [List.map]. rewrite Hid, Hids.
    repeat split; auto; congruence.
Qed.

(** What the first loop of the subscriber does to a thread [k]. *)
Section Marking.

Variable P : ThreadInfo -> Prop.


End Marking.





(** X16: a stop event that names no thread, or a negative one, and does
    not stop all threads is still announced: the client gets the synthetic
    ['Async-Break'] paused event for thread -1 without call frames, then
    the list of threads; the adapter is asked nothing, and the registry and
    the active paused thread stay as they are. *)
Theorem stop_event_without_thread_sends_Async_Break body w :
  (forall i, se_threadId body = Some i -> i < 0) ->
  stops_all body (this w) = false ->
  onStopped session registerFile pathToUri body false w
  = (Ok tt,
     {| this := this w;
        requests := requests w;
        sent := sent w
                ++ [event (Debugger_paused Async_Break);
                    event (Debugger_threadsUpdated
                             (_getThreadsUpdatedEvent
                                (Some match _pausedThreadId (this w) with
                                      | Some i => i
                                      | None => -1
                                      end) (this w)))] |}).
Proof.
  intros Hthread Hall. destruct w as [t rs s]. cbn [this requests sent] in *.
  unfold onStopped. unfold bind at 1. cbn [get_this fst snd this].
  fold (stops_all body t). rewrite Hall.
  assert (Eids : stoppedThreadIds (se_threadId body) false t = []).
  { unfold stoppedThreadIds. destruct (se_threadId body) as [i|]; [|reflexivity].
    specialize (Hthread i eq_refl). apply Z.leb_gt in Hthread. now rewrite Hthread. }
  rewrite Eids.
  assert (Eselect : match _pausedThreadId t, @nil Z with
                    | None, first :: _ =>
                        modify_this (_updatePausedThreadId (Some first))
                    | _, _ => ret tt
                    end = ret tt)
    by (destruct (_pausedThreadId t); reflexivity).
  rewrite Eselect.
  cbv [bind ret List.map Promise_all deliver_pausedEvents modify_this get_this
       fold_left pausedEvent_to_send _sendMessageToClient this requests sent].
  rewrite <- app_assoc. reflexivity.
Qed.

(** A stop event that is not overtaken by a [continued] event reaches the
    subscriber with one paused event for each stopped thread, in order. *)
Lemma onStopped_delivers body w :
  let ids := stoppedThreadIds (se_threadId body) (stops_all body (this w)) (this w) in
  exists pausedEvents w2,
    onStopped session registerFile pathToUri body false w
    = deliver_pausedEvents pausedEvents w2
    /\ this w2 = select_first ids (this w)
    /\ sent w2 = sent w
    /\ stopped_ids pausedEvents = List.map Some ids
    /\ Forall (fun pausedEvent => pe_reason pausedEvent = se_reason body) pausedEvents.
Proof.
  intros ids. unfold onStopped. unfold bind at 1. cbn [get_this fst snd].
  fold (stops_all body (this w)). fold ids.
  set (select := match _pausedThreadId (this w), ids with
                 | None, first :: _ => modify_this (_updatePausedThreadId (Some first))
                 | _, _ => ret tt
                 end).
  assert (Hselect : exists w1, select w = (Ok tt, w1)
                               /\ this w1 = select_first ids (this w)
                               /\ sent w1 = sent w).
  { unfold select, select_first.
    destruct (_pausedThreadId (this w)); [exists w; auto|].
    destruct ids; [exists w; auto|]. eexists. repeat split; reflexivity. }
  destruct Hselect as (w1 & Eselect & Hthis1 & Hsent1).
  unfold bind at 1. rewrite Eselect.
  destruct (Promise_all_pausedEvents (se_threadId body) (se_reason body) ids w1)
    as (pausedEvents & w2 & Efetch & Hids & Hreasons & Hthis & Hsent).
  unfold bind at 1. rewrite Efetch.
  exists pausedEvents, w2. repeat split; auto; congruence.
Qed.

Lemma deliver_pausedEvents_result pausedEvents w :
  let t' := fold_left mark_paused pausedEvents (this w) in
  deliver_pausedEvents pausedEvents w
  = (Ok tt,
     {| this := t';
        requests := requests w;
        sent := sent w
                ++ match pausedEvent_to_send pausedEvents t' with
                   | Some pausedEvent => [event (Debugger_paused pausedEvent)]
                   | None => []
                   end
                ++ [event (Debugger_threadsUpdated
                             (_getThreadsUpdatedEvent
                                (Some match _pausedThreadId t' with
                                      | Some i => i
                                      | None => -1
                                      end) t'))] |}).
Proof.
  destruct w as [t rs s]. unfold deliver_pausedEvents.
  cbv [bind modify_this get_this this requests sent].
  destruct (pausedEvent_to_send _ _);
    cbv [_sendMessageToClient this requests sent]; cbn [app];
    now rewrite <- ?app_assoc, ?app_nil_r.
Qed.

(** X17: while a thread is the active paused thread, the stop of another
    single thread is not announced as a pause: the client gets no
    [Debugger.paused], only the list of threads, which still names the
    active thread as the stopped one, and the active thread stays. *)
Theorem stop_of_another_thread_is_not_announced_as_a_pause body w a i :
  _pausedThreadId (this w) = Some a ->
  se_threadId body = Some i ->
  0 <= i ->
  i <> a ->
  stops_all body (this w) = false ->
  let w' := snd (onStopped session registerFile pathToUri body false w) in
  _pausedThreadId (this w') = Some a
  /\ sent w'
     = sent w ++ [event (Debugger_threadsUpdated
                           (_getThreadsUpdatedEvent (Some a) (this w')))].
Proof.
  intros Hactive Hthread Hpos Hother Hall w'.
  destruct (onStopped_delivers body w)
    as (pausedEvents & w2 & E & Hthis & Hsent & Hids & _).
  unfold w'. rewrite E, deliver_pausedEvents_result. cbn [snd this sent].
  rewrite Hall in Hids, Hthis.
  assert (Eids : stoppedThreadIds (se_threadId body) false (this w) = [i]).
  { unfold stoppedThreadIds. rewrite Hthread. apply Z.leb_le in Hpos.
    now rewrite Hpos. }
  rewrite Eids in Hids, Hthis.
  unfold select_first in Hthis. rewrite Hactive in Hthis.
  destruct (fold_mark_paused_keeps_active pausedEvents (this w2)) as [Hcurrent _].
  assert (Hnow : _pausedThreadId (this w2) = Some a) by (rewrite Hthis; exact Hactive).
  rewrite Hnow in Hcurrent.
  assert (Esend : pausedEvent_to_send pausedEvents
                    (fold_left mark_paused pausedEvents (this w2)) = None).
  { unfold pausedEvent_to_send. rewrite Hcurrent.
    destruct pausedEvents as [|first rest]; [discriminate|].
    unfold stopped_ids in Hids. cbn [List.map] in Hids. injection Hids as Hfirst _.
    rewrite Hfirst. cbn [strict_eq].
    assert (Ene : (a =? i) = false) by (apply Z.eqb_neq; congruence).
    now rewrite Ene. }
  rewrite Esend, Hcurrent, Hsent. split; reflexivity.
Qed.


(** X19: a stop event that is overtaken by its [continued] event tells the
    client nothing and leaves the registry as it is, whatever the adapter
    answered to the stack requests in between. *)
Theorem overtaken_stop_event_tells_the_client_nothing body w :
  let w' := snd (onStopped session registerFile pathToUri body true w) in
  sent w' = sent w /\ registry w' = registry w.
Proof.
  intros w'.
  assert (H : preserves beyond_ledger
                (onStopped session registerFile pathToUri body true)).
  { unfold onStopped. preserve.
    - destruct (_pausedThreadId a); [preserve|].
      destruct (stoppedThreadIds _ _ _); preserve.
    - unfold pausedEvent_for. preserve. destruct (strict_eq _ _); preserve. }
  destruct (preserves_beyond_ledger H) as [Hsent Hregistry].
  split; [apply Hsent|apply Hregistry].
Qed.

(** ** Running threads hold no stack *)

Lemma keeps_bare_preserves A (m : M A) : preserves registry m -> keeps_bare m.
Proof. intros H w Hw. now rewrite H. Qed.

Lemma keeps_bare_bind A B (m : M A) (k : A -> M B) :
  keeps_bare m -> (forall a, keeps_bare (k a)) -> keeps_bare (bind m k).
Proof.
  intros Hm Hk w Hw. unfold bind. specialize (Hm w Hw).
  destruct (m w) as [[a|e] w1]; cbn [snd] in *; [|exact Hm].
  now apply Hk.
Qed.

Lemma keeps_bare_modify f :
  (forall t, running_threads_are_bare (_threadsById t) ->
             running_threads_are_bare (_threadsById (f t))) ->
  keeps_bare (modify_this f).
Proof. intros H [t rs s] Hw. apply H. exact Hw. Qed.

Lemma sendMessageToClient_keeps_registry message :
  preserves registry (_sendMessageToClient message).
Proof. intros [t rs s]. reflexivity. Qed.
#[local] Hint Resolve sendMessageToClient_keeps_registry : preserve.

Lemma updateThreadsState_running_keeps_bare threadIds :
  keeps_bare (modify_this (_updateThreadsState threadIds running)).
Proof.
  apply keeps_bare_modify. intros t Ht. rewrite updateThreadsState_running.
  cbn [_threadsById with_threadsById].
  apply (@set_all_Forall running_thread bare_if_running); [|exact Ht].
  intros _. reflexivity.
Qed.

Lemma fold_mark_paused_keeps_bare pausedEvents :
  forall t, running_threads_are_bare (_threadsById t) ->
            running_threads_are_bare (_threadsById (fold_left mark_paused pausedEvents t)).
Proof.
  induction pausedEvents as [|e l IH]; intros t Ht; cbn [fold_left]; [exact Ht|].
  apply IH. unfold mark_paused.
  destruct (stopThreadId e) as [k|]; [|exact Ht].
  destruct (0 <=? k); [|exact Ht].
  cbn [_threadsById with_threadsById].
  apply (Forall_map_set bare_if_running); [|exact Ht]. intros H. discriminate.
Qed.

Lemma getThreadStack_handler_keeps_bare threadId command :
  keeps_bare (getThreadStack_handler session registerFile pathToUri threadId command).
Proof.
  unfold getThreadStack_handler.
  apply keeps_bare_bind; [apply keeps_bare_preserves; preserve|]. intros t.
  apply keeps_bare_bind; [|intros; apply keeps_bare_preserves; preserve].
  destruct (map_get threadId (_threadsById t)) as [threadInfo|];
    [|apply keeps_bare_preserves; preserve].
  destruct (ThreadState_eqb (state threadInfo) paused) eqn:Estate;
    [|apply keeps_bare_preserves; preserve].
  match goal with |- keeps_bare (if ?c then _ else _) => destruct c end;
    [|apply keeps_bare_preserves; preserve].
  apply keeps_bare_bind.
  - apply keeps_bare_preserves.
    apply (proj2 (preserves_beyond_ledger
                    (getTranslatedCallFramesForThread_beyond threadId None))).
  - intros frames.
    apply keeps_bare_bind; [|intros; apply keeps_bare_preserves; preserve].
    apply keeps_bare_modify. intros t' Ht'. cbn [_threadsById with_threadsById].
    apply (Forall_map_set bare_if_running); [|exact Ht'].
    intros H. cbn in H. destruct (state threadInfo); discriminate.
Qed.

Lemma step_keeps_bare i :
  keeps_bare
    (step session registerFile decodeURIComponent uriToPath pathToUri
          nuclideUri_basename nuclideUri_getPath Number i).
Proof.
  destruct i as [command|body|body continued|body]; cbn [step].
  - unfold processCommand.
    apply keeps_bare_bind; [|intros; apply keeps_bare_preserves; preserve].
    destruct (method command) as
      [ | | |threadId| | | |location| | |params|i|threadId|callFrameId expression
        |expression|name] eqn:Emethod;
      try (apply keeps_bare_preserves;
           apply (proj2 (preserves_beyond_ledger
                           (A := list ClientMessage)
                           (m := _handleCommands session registerFile decodeURIComponent
                                   uriToPath pathToUri nuclideUri_basename
                                   nuclideUri_getPath Number command)
                           (@handleCommands_beyond command
                              ltac:(intros ?; rewrite Emethod; discriminate))));
           fail).
    unfold _handleCommands. rewrite Emethod. unfold one.
    apply keeps_bare_bind; [apply getThreadStack_handler_keeps_bare|].
    intros; apply keeps_bare_preserves; preserve.
  - unfold onThreadEvent.
    apply keeps_bare_bind; [|intros; apply keeps_bare_preserves; preserve].
    destruct (String.eqb (te_reason body) "started");
      [apply updateThreadsState_running_keeps_bare|].
    destruct (String.eqb (te_reason body) "exited");
      [|apply keeps_bare_preserves; preserve].
    apply keeps_bare_bind.
    + apply keeps_bare_modify. intros t Ht. cbn [_threadsById with_threadsById].
      now apply (Forall_map_delete bare_if_running).
    + intros _. apply keeps_bare_preserves. preserve.
      destruct (strict_eq _ _); preserve.
  - unfold onStopped.
    apply keeps_bare_bind; [apply keeps_bare_preserves; preserve|]. intros t.
    apply keeps_bare_bind.
    + apply keeps_bare_preserves. destruct (_pausedThreadId t); [preserve|].
      destruct (stoppedThreadIds _ _ _); preserve.
    + intros _. apply keeps_bare_bind.
      * apply keeps_bare_preserves. apply preserves_Promise_all_map. intros k.
        unfold pausedEvent_for. preserve. destruct (strict_eq _ _);
          apply (proj2 (preserves_beyond_ledger
                          (getTranslatedCallFramesForThread_beyond _ _))).
      * intros pausedEvents. destruct continued; [apply keeps_bare_preserves; preserve|].
        unfold deliver_pausedEvents. apply keeps_bare_bind.
        -- apply keeps_bare_modify. apply fold_mark_paused_keeps_bare.
        -- intros _. apply keeps_bare_preserves. preserve.
           destruct (pausedEvent_to_send _ _); preserve.
  - unfold onContinued.
    apply keeps_bare_bind; [apply keeps_bare_preserves; preserve|]. intros t.
    apply keeps_bare_bind.
    + apply keeps_bare_preserves. destruct (_ || _); preserve.
    + intros _. apply keeps_bare_bind; [apply keeps_bare_preserves; preserve|].
      intros t'. apply keeps_bare_bind;
        [apply updateThreadsState_running_keeps_bare|].
      intros _. apply keeps_bare_preserves. preserve.
Qed.

Lemma trace_keeps_bare inputs :
  forall w, running_threads_are_bare (registry w) ->
            Forall (fun w' => running_threads_are_bare (registry w'))
                   (trace session registerFile decodeURIComponent uriToPath pathToUri
                          nuclideUri_basename nuclideUri_getPath Number inputs w).
Proof.
  induction inputs as [|i inputs IH]; intros w Hw; cbn [trace]; constructor.
  - now apply step_keeps_bare.
  - apply IH. now apply step_keeps_bare.
Qed.

(** X20: in every session of a freshly constructed translator, whatever
    the commands, the events and the answers of the adapter, a thread that
    the registry holds as running has no call frames, no loaded stack and
    no stop reason. *)
Theorem running_threads_hold_no_stack adapterType inputs w threadId info :
  In w (trace session registerFile decodeURIComponent uriToPath pathToUri
              nuclideUri_basename nuclideUri_getPath Number inputs (start adapterType)) ->
  map_get threadId (registry w) = Some info ->
  state info = running ->
  callFrames info = None /\ callStackLoaded info = false /\ stopReason info = None.
Proof.
  intros Hw Hget Hstate.
  assert (H0 : running_threads_are_bare (registry (start adapterType)))
    by constructor.
  pose proof (@trace_keeps_bare inputs (start adapterType) H0) as Hall.
  rewrite Forall_forall in Hall. specialize (Hall w Hw).
  unfold running_threads_are_bare in Hall. rewrite Forall_forall in Hall.
  apply map_get_In in Hget. specialize (Hall _ Hget Hstate). cbn [snd] in Hall.
  subst info. auto.
Qed.

(** ** Re-sync of the ledger *)

Lemma Promise_all_syncs (copies : string -> list TranslatorBreakpoint) paths :
  forall w,
    let w' := snd (Promise_all
                     (List.map (fun p => _syncBreakpointsForFilePath
                                           session nuclideUri_basename p (copies p))
                               paths) w) in
    requests w'
    = requests w ++ List.map (fun p => sync_request nuclideUri_basename p (copies p)) paths
    /\ ledger w' = ledger w
    /\ beyond_ledger w' = beyond_ledger w.
Proof.
  induction paths as [|p paths IH]; intros w; cbn [List.map Promise_all].
  - cbn. rewrite app_nil_r. auto.
  - destruct (syncBreakpointsForFilePath_effect p (copies p) w) as [Hledger Hrequests].
    pose proof (syncBreakpointsForFilePath_beyond p (copies p) w) as Hbeyond.
    destruct (_syncBreakpointsForFilePath _ _ p (copies p) w) as [o w1].
    cbn [snd] in *.
    destruct (IH w1) as (Hrequests' & Hledger' & Hbeyond').
    destruct (Promise_all _ w1) as [os w2]. cbn [snd] in *.
    rewrite Hrequests', Hrequests, <- app_assoc. repeat split; congruence.
Qed.

(** X21: [_syncBreakpoints] asks the adapter once for every file that has
    records in the ledger, in the order in which the files first appear,
    each time with all the records of the file; it sends nothing to the
    client and leaves the ledger exactly as it is, whatever the adapter
    answers, so a record without an id does not get one from a re-sync. *)
Theorem syncBreakpoints_asks_once_for_every_file w :
  let w' := snd (_syncBreakpoints session nuclideUri_basename w) in
  let files := distinct (List.map path (ledger w)) in
  requests w'
  = requests w
    ++ List.map (fun p => sync_request nuclideUri_basename p
                            (_getBreakpointsForFilePath p (this w))) files
  /\ NoDup files
  /\ (forall bp, In bp (ledger w) -> In (path bp) files)
  /\ ledger w' = ledger w
  /\ sent w' = sent w
  /\ registry w' = registry w.
Proof.
  clear registerFile decodeURIComponent uriToPath pathToUri nuclideUri_getPath Number.
  intros w' files.
  destruct (Promise_all_syncs (fun p => _getBreakpointsForFilePath p (this w))
                              files w) as (Hrequests & Hledger & Hbeyond).
  assert (E : w' = snd (Promise_all
                          (List.map (fun p => _syncBreakpointsForFilePath
                                                session nuclideUri_basename p
                                                (_getBreakpointsForFilePath p (this w)))
                                    files) w)).
  { unfold w', _syncBreakpoints. unfold bind at 1. cbn [get_this fst snd].
    fold (ledger w). fold files. unfold bind.
    destruct (Promise_all _ w) as [[l|e] w1]; reflexivity. }
  rewrite E. unfold beyond_ledger in Hbeyond. injection Hbeyond as Hsent Hregistry.
  repeat split; auto.
  - apply distinct_NoDup.
  - intros bp Hbp. apply distinct_In. now apply in_map.
Qed.

(** ** Breakpoint events *)

Lemma findIndex_split A (f : A -> bool) l :
  forall i idx a,
    findIndex f l i = Some (idx, a) ->
    exists n, idx = (i + n)%nat /\ l = firstn n l ++ a :: skipn (S n) l.
Proof.
  induction l as [|x l IH]; intros i idx a; cbn [findIndex]; [discriminate|].
  destruct (f x).
  - intros E. inversion E; subst. exists 0%nat. split; [lia|reflexivity].
  - intros E. apply IH in E. destruct E as (n & -> & El).
    exists (S n). split; [lia|]. cbn [firstn skipn app]. now f_equal.
Qed.

Lemma map_replace_at A B (g : A -> B) n a b l :
  l = firstn n l ++ a :: skipn (S n) l ->
  g b = g a ->
  List.map g (replace_at n b l) = List.map g l.
Proof.
  intros El Hg. unfold replace_at. rewrite El at 3.
  rewrite !map_app. cbn [List.map]. now rewrite Hg.
Qed.

Lemma Forall2_reflexive A (R : A -> A -> Prop) l :
  (forall x, R x x) -> Forall2 R l l.
Proof. intros H. induction l; constructor; auto. Qed.

Lemma Forall2_replace_at A (R : A -> A -> Prop) n a b l :
  l = firstn n l ++ a :: skipn (S n) l ->
  (forall x, R x x) ->
  R a b ->
  Forall2 R l (replace_at n b l).
Proof.
  intros El Hrefl Hab. unfold replace_at. rewrite El at 1.
  apply Forall2_app; [|constructor; [exact Hab|]];
    now apply Forall2_reflexive.
Qed.

(** X22: a breakpoint event never adds, removes or reorders records of the
    ledger, and never changes the id, the path or the condition of a
    record; a resolved record stays resolved.  An event for a verified
    breakpoint leaves every hit count as it is, an event for an unverified
    one leaves every line and every resolved flag as they are.  Nothing
    but the ledger changes, and it changes only when a message is sent to
    the client. *)
Theorem breakpoint_event_keeps_the_ledger_in_shape breakpoint t :
  let t' := fst (onBreakpointEvent breakpoint t) in
  List.map breakpointId (_breakpoints t') = List.map breakpointId (_breakpoints t)
  /\ List.map path (_breakpoints t') = List.map path (_breakpoints t)
  /\ List.map condition (_breakpoints t') = List.map condition (_breakpoints t)
  /\ Forall2 (fun before after => resolved before = true -> resolved after = true)
             (_breakpoints t) (_breakpoints t')
  /\ (be_verified breakpoint = true ->
      List.map hitCount (_breakpoints t') = List.map hitCount (_breakpoints t))
  /\ (be_verified breakpoint = false ->
      List.map lineNumber (_breakpoints t') = List.map lineNumber (_breakpoints t)
      /\ List.map resolved (_breakpoints t') = List.map resolved (_breakpoints t))
  /\ t' = with_breakpoints (_breakpoints t') t
  /\ (snd (onBreakpointEvent breakpoint t) = None -> _breakpoints t' = _breakpoints t).
Proof.
  assert (Hsame : forall l : list TranslatorBreakpoint,
             Forall2 (fun before after => resolved before = true -> resolved after = true)
                     l l).
  { intros l. apply Forall2_reflexive. auto. }
  assert (Hwith : t = with_breakpoints (_breakpoints t) t) by (destruct t; reflexivity).
  unfold onBreakpointEvent.
  destruct (findIndex _ _ _) as [[idx existing]|] eqn:Efind;
    [|cbn; repeat split; auto].
  apply findIndex_split in Efind. destruct Efind as (n & -> & El). cbn [Nat.add].
  destruct (be_verified breakpoint) eqn:Everified.
  - cbn [fst snd _breakpoints with_breakpoints].
    set (updated := _tryUpdateBreakpoint existing _).
    assert (Hfields : breakpointId updated = breakpointId existing
                      /\ path updated = path existing
                      /\ condition updated = condition existing
                      /\ hitCount updated = hitCount existing
                      /\ (resolved existing = true -> resolved updated = true)).
    { unfold updated, _tryUpdateBreakpoint. cbn [verified vs_line].
      destruct (negb (resolved existing) && true) eqn:E, (be_line breakpoint);
        cbn; repeat split; auto. }
    destruct Hfields as (Hid & Hpath & Hcondition & Hhit & Hresolved).
    repeat split; try discriminate.
    + apply map_replace_at with (a := existing); assumption.
    + apply map_replace_at with (a := existing); assumption.
    + apply map_replace_at with (a := existing); assumption.
    + apply Forall2_replace_at with (a := existing); auto.
    + intros _. apply map_replace_at with (a := existing); assumption.
  - destruct (be_hitCount breakpoint) as [h|]; [|cbn; repeat split; auto].
    destruct (negb (hitCount existing =? h)); [|cbn; repeat split; auto].
    cbn [fst snd _breakpoints with_breakpoints].
    repeat split; try discriminate;
      try (apply map_replace_at with (a := existing); [assumption|reflexivity]).
    + apply Forall2_replace_at with (a := existing); auto.
Qed.

End Facts.

(** ** Sample sessions *)

Import Scenarios Samples.


(** The hypotheses of [removeBreakpoint_drops_the_record_and_syncs_its_file]
    hold for the id 1 in the ledger left by [stage_twice]: the record is
    dropped and line 11, which the record with id 2 still holds, is synced
    again. *)
Lemma removeBreakpoint_drops_the_record_and_syncs_its_file_witness :
  let w' := snd (processCommand adapter register_ok decode_ok same same same same
                                Number_NaN remove_1 staged_twice) in
  findIndex (has_breakpointId "1") (ledger staged_twice) 0 = Some (0%nat, record_1)
  /\ ledger w' = splice1 0 (ledger staged_twice)
  /\ requests w'
     = requests staged_twice ++ [setBreakpoints "/src/a.js" "/src/a.js" [11] [(11, "")]].
Proof.
  assert (Hfind : findIndex (has_breakpointId "1") (ledger staged_twice) 0
                  = Some (0%nat, record_1)) by reflexivity.
  pose proof (@removeBreakpoint_drops_the_record_and_syncs_its_file
                adapter register_ok decode_ok same same same same Number_NaN
                remove_1 "1" staged_twice 0%nat record_1 eq_refl Hfind) as H.
  cbv zeta in H. destruct H as (Hledger & Hrequests & _).
  split; [exact Hfind|]. split; [exact Hledger|]. exact Hrequests.
Defined.

(** The first hypothesis of [staging_is_refused_before_anything_is_staged]
    holds for an adapter that is not ready. *)
Lemma staging_is_refused_before_anything_is_staged_witness :
  processCommand not_ready register_ok decode_ok same same same same Number_NaN
                 stage_line_10 node
  = (Ok tt, {| this := this node;
               requests := requests node;
               sent := sent node
                       ++ [getErrorResponse 1
                             "VsDebugSession is not ready for breakpoints"] |}).
Proof.
  apply (@staging_is_refused_before_anything_is_staged
           not_ready register_ok decode_ok same same same same Number_NaN
           stage_line_10 line_10_of_a node
           "VsDebugSession is not ready for breakpoints").
  - reflexivity.
  - left. split; reflexivity.
Defined.

(** The hypotheses of [failed_staging_leaves_a_record_without_id] hold for
    an adapter that rejects the request. *)
Lemma failed_staging_leaves_a_record_without_id_witness :
  let w' := snd (processCommand rejecting register_ok decode_ok same same same same
                                Number_NaN stage_line_10 node) in
  ledger w' = ledger node ++ [newTranslatorBp "/src/a.js" (1, line_10_of_a)]
  /\ breakpointId (newTranslatorBp "/src/a.js" (1, line_10_of_a)) = None
  /\ sent w' = sent node ++ [getErrorResponse 1 "rejected"].
Proof.
  apply (@failed_staging_leaves_a_record_without_id
           rejecting register_ok decode_ok same same same same Number_NaN
           stage_line_10 line_10_of_a node "/src/a.js" "rejected").
  - reflexivity.
  - reflexivity.
  - reflexivity.
  - right. split; reflexivity.
Defined.

(** The hypotheses of [bulk_staging_answers_every_command_file_by_file]
    hold for three commands on two files: the responses to the commands 1
    and 3, which are for the same file, come before the response to the
    command 2. *)
Lemma bulk_staging_answers_every_command_file_by_file_witness :
  exists groups responses w',
    groupByUrl decode_ok three_commands [] = Ok groups
    /\ _setBulkBreakpoints adapter register_ok decode_ok same same three_commands node
       = (Ok responses, w')
    /\ replies responses = [1; 3; 2].
Proof.
  destruct (groupByUrl decode_ok three_commands []) as [groups|e] eqn:Egroups;
    [|vm_compute in Egroups; discriminate].
  destruct (_setBulkBreakpoints adapter register_ok decode_ok same same
                                three_commands node)
    as [[responses|e] w'] eqn:E; [|vm_compute in E; discriminate].
  exists groups, responses, w'. split; [reflexivity|]. split; [reflexivity|].
  rewrite (@bulk_staging_answers_every_command_file_by_file
             adapter register_ok decode_ok same same three_commands groups node
             responses w' Egroups E).
  vm_compute in Egroups. inversion Egroups. reflexivity.
Defined.

(** The hypothesis of [step_commands_need_an_active_thread] holds for a
    [Debugger.stepOver]; no thread is active at the start. *)
Lemma step_commands_need_an_active_thread_witness :
  processCommand adapter register_ok decode_ok same same same same Number_NaN
                 stepOver_3 node
  = (Ok tt, {| this := this node;
               requests := requests node;
               sent := sent node
                       ++ [getErrorResponse 3 "No paused thread to step over!"] |}).
Proof.
  apply (@step_commands_need_an_active_thread
           adapter register_ok decode_ok same same same same Number_NaN
           stepOver_3 node "over" next).
  reflexivity.
Defined.

(** The hypotheses of
    [getThreadStack_of_a_loaded_or_running_thread_asks_nothing] hold for a
    running thread. *)
Lemma getThreadStack_of_a_loaded_or_running_thread_asks_nothing_witness :
  processCommand adapter register_ok decode_ok same same same same Number_NaN
                 getThreadStack_of_1 two_threads
  = (Ok tt, {| this := this two_threads;
               requests := requests two_threads;
               sent := sent two_threads ++ [response 5 (getThreadStack_result [])] |}).
Proof.
  apply (@getThreadStack_of_a_loaded_or_running_thread_asks_nothing
           adapter register_ok decode_ok same same same same Number_NaN
           getThreadStack_of_1 1 two_threads).
  - reflexivity.
  - intros info H. vm_compute in H. inversion H. left. reflexivity.
Defined.

(** The hypothesis of [exited_thread_is_forgotten] holds for the exit of
    thread 1. *)
Lemma exited_thread_is_forgotten_witness :
  let w' := snd (onThreadEvent exit_of_1 two_threads) in
  map_get 1 (registry w') = None
  /\ map_get 2 (registry w') = map_get 2 (registry two_threads).
Proof.
  pose proof (@exited_thread_is_forgotten exit_of_1 two_threads eq_refl) as H.
  cbv zeta in H. destruct H as (Hgone & Hothers & _).
  split; [exact Hgone|]. apply Hothers. discriminate.
Defined.

(** The hypothesis of [started_thread_is_running] holds for the start of
    thread 3. *)
Lemma started_thread_is_running_witness :
  let w' := snd (onThreadEvent start_of_3 two_threads) in
  map_get 3 (registry w') = Some running_thread
  /\ active w' = active two_threads.
Proof.
  pose proof (@started_thread_is_running start_of_3 two_threads eq_refl) as H.
  cbv zeta in H. destruct H as (Hrunning & _ & Hactive & _).
  split; [exact Hrunning|exact Hactive].
Defined.

(** The hypothesis of [all_threads_continued_leaves_every_thread_running]
    holds for a [continued] event that names no thread. *)
Lemma all_threads_continued_leaves_every_thread_running_witness :
  let w' := snd (onContinued continued_without_thread thread_1_paused) in
  map_keys (registry w') = map_keys (registry thread_1_paused)
  /\ _pausedThreadId (this w') = None
  /\ sent w' = sent thread_1_paused ++ [event Debugger_resumed].
Proof.
  assert (Hall : ce_allThreadsContinued continued_without_thread = true
                 \/ (forall i, ce_threadId continued_without_thread = Some i -> i < 0)).
  { right. intros i H. discriminate. }
  pose proof (@all_threads_continued_leaves_every_thread_running
                continued_without_thread thread_1_paused Hall) as H.
  cbv zeta in H. destruct H as (_ & Hkeys & Hactive & _ & Hsent).
  split; [exact Hkeys|]. split; [exact Hactive|exact Hsent].
Defined.

(** The hypotheses of [stop_event_without_thread_sends_Async_Break] hold
    for a stop event that names no thread. *)
Lemma stop_event_without_thread_sends_Async_Break_witness :
  sent (snd (onStopped adapter register_ok same (stop_of None "pause") false two_threads))
  = sent two_threads
    ++ [event (Debugger_paused Async_Break);
        event (Debugger_threadsUpdated
                 (_getThreadsUpdatedEvent (Some (-1)) (this two_threads)))].
Proof.
  rewrite (@stop_event_without_thread_sends_Async_Break
             adapter register_ok same (stop_of None "pause") two_threads).
  - reflexivity.
  - intros i H. discriminate.
  - reflexivity.
Defined.

(** The hypotheses of [stop_of_another_thread_is_not_announced_as_a_pause]
    hold when thread 2 stops while thread 1 is the active thread. *)
Lemma stop_of_another_thread_is_not_announced_as_a_pause_witness :
  let w' := snd (onStopped adapter register_ok same (stop_of (Some 2) "step") false
                           thread_1_paused) in
  _pausedThreadId (this w') = Some 1
  /\ sent w'
     = sent thread_1_paused
       ++ [event (Debugger_threadsUpdated (_getThreadsUpdatedEvent (Some 1) (this w')))].
Proof.
  apply (@stop_of_another_thread_is_not_announced_as_a_pause
           adapter register_ok same (stop_of (Some 2) "step") thread_1_paused 1 2).
  - reflexivity.
  - reflexivity.
  - lia.
  - discriminate.
  - reflexivity.
Defined.


(** The hypotheses of [running_threads_hold_no_stack] hold for thread 1
    after threads 1 and 2 have started. *)
Lemma running_threads_hold_no_stack_witness :
  callFrames running_thread = None
  /\ callStackLoaded running_thread = false
  /\ stopReason running_thread = None.
Proof.
  apply (@running_threads_hold_no_stack
           adapter register_ok decode_ok same same same same Number_NaN
           (other_adapter "node") [started 1; started 2] two_threads 1 running_thread).
  - right. left. reflexivity.
  - reflexivity.
  - reflexivity.
Defined.

End SessionFacts.
